(** * StableContainer and Profile (EIP-7495) over a Merkle tree substrate

    A shallow embedding of [remerkleable/stable_container.py]: the two
    composite SSZ views [StableContainer[N]] and [Profile[B]], their field
    accessors, their byte codec and their generalized-index binding.

    Python objects that carry a backing are modelled by that backing; a
    method that mutates [self] returns the new backing; a method that may
    raise returns a [result]. *)

From Stdlib Require Import ZArith NArith Lia Ascii.
From Stdlib.Strings Require Byte.
From stdpp Require Import base option list strings gmap.

Open Scope string_scope.
Open Scope list_scope.
Open Scope nat_scope.

(** ** Exceptions and the error monad *)

Inductive exn :=
  | ValueError_scope_too_small
  | ValueError_required_none (key : string)
  | Exception_unknown_field_index (findex : nat)
  | Exception_first_offset (offset fixed_size : nat)
  | Exception_offset_invalid (i : nat)
  | Exception_size_out_of_bounds (i : nat)
  | Exception_both_backing_and_fields
  | Exception_requires_stable_base
  | Exception_no_optional_fields
  | AttributeError_unknown_field (key : string)
  | AttributeError_unknown_fields
  | AttributeError_required (key : string)
  | TypeError_capacity
  | TypeError_not_optional (key : string)
  | TypeError_too_many_fields
  | TypeError_not_in_base (key : string)
  | TypeError_optional_in_container (key : string)
  | TypeError_incompatible (key : string)
  | TypeError_missing_base_field (key : string)
  | AssertionError
  | NavigationError
  | IndexError
  | UnboundLocalError
  | ViewError.

Inductive result (A : Type) :=
  | Ok (a : A)
  | Err (e : exn).
Arguments Ok {A} a.
Arguments Err {A} e.

Definition rbind {A B} (m : result A) (k : A → result B) : result B :=
  match m with
  | Ok a => k a
  | Err e => Err e
  end.

Notation "'do' x <- m ; k" := (rbind m (fun x => k))
  (at level 10, x pattern, m at level 100, k at level 200,
   format "'[v' 'do'  x  <-  m ; '/' k ']'").

Definition of_option {A} (o : option A) (e : exn) : result A :=
  match o with
  | Some a => Ok a
  | None => Err e
  end.

(** ** Tree substrate *)

(** Modelled from the spec: [remerkleable.tree] is missing.  A node is a
    32-byte root (kept as the little-endian number it spells) or a pair
    of nodes.  Nodes are identified up to their Merkle root, so that the
    summary node [zero_node d] is the perfect tree of depth [d] over zero
    chunks. *)
Inductive Node :=
  | RootNode (root : N)
  | PairNode (left right : Node).

#[global] Instance Node_inhabited : Inhabited Node := populate (RootNode 0%N).

(** Modelled from the spec: [get_left], [get_right], [rebind_left],
    [rebind_right] of the tree substrate; a root has no children. *)
Definition get_left (n : Node) : result Node :=
  match n with
  | PairNode l _ => Ok l
  | RootNode _ => Err NavigationError
  end.

Definition get_right (n : Node) : result Node :=
  match n with
  | PairNode _ r => Ok r
  | RootNode _ => Err NavigationError
  end.

Definition rebind_left (n new_left : Node) : result Node :=
  match n with
  | PairNode _ r => Ok (PairNode new_left r)
  | RootNode _ => Err NavigationError
  end.

Definition rebind_right (n new_right : Node) : result Node :=
  match n with
  | PairNode l _ => Ok (PairNode l new_right)
  | RootNode _ => Err NavigationError
  end.

(** Modelled from the spec: [zero_node(depth)], the zero subtree. *)
Fixpoint zero_node (depth : nat) : Node :=
  match depth with
  | 0 => RootNode 0%N
  | S d => PairNode (zero_node d) (zero_node d)
  end.

(** Modelled from the spec: [get_depth(N) -> ceil(log2(N))]. *)
Definition get_depth (elem_count : nat) : nat := Nat.log2_up elem_count.

(** Modelled from the spec: a generalized index names a path, root = 1,
    left child of [n] = [2n], right child = [2n+1]; this is the shape of
    a binary [positive]. *)
Fixpoint getter_pos (n : Node) (g : positive) : result Node :=
  match g with
  | xH => Ok n
  | xO p => do parent <- getter_pos n p; get_left parent
  | xI p => do parent <- getter_pos n p; get_right parent
  end.

Definition getter (n : Node) (gindex : nat) : result Node :=
  match N.of_nat gindex with
  | N0 => Err NavigationError
  | Npos p => getter_pos n p
  end.

Fixpoint setter_pos (n : Node) (g : positive) (v : Node) : result Node :=
  match g with
  | xH => Ok v
  | xO p =>
      do parent <- getter_pos n p;
      do parent' <- rebind_left parent v;
      setter_pos n p parent'
  | xI p =>
      do parent <- getter_pos n p;
      do parent' <- rebind_right parent v;
      setter_pos n p parent'
  end.

Definition setter (n : Node) (gindex : nat) (v : Node) : result Node :=
  match N.of_nat gindex with
  | N0 => Err NavigationError
  | Npos p => setter_pos n p v
  end.

(** Pair up neighbours: one level of a tree from the level below it. *)
Fixpoint merge_level (l : list Node) : list Node :=
  match l with
  | a :: b :: t => PairNode a b :: merge_level t
  | _ => []
  end.

Fixpoint fill_level (depth : nat) (l : list Node) : Node :=
  match depth with
  | 0 => default (zero_node 0) (head l)
  | S d => fill_level d (merge_level l)
  end.

(** Modelled from the spec: [subtree_fill_to_contents(leaves, depth)] is
    the perfect tree of that depth over the leaves, zero leaves to the
    right; more than [2^depth] leaves are refused. *)
Definition subtree_fill_to_contents (nodes : list Node) (depth : nat) : result Node :=
  if decide (length nodes ≤ 2 ^ depth)
  then Ok (fill_level depth (nodes ++ replicate (2 ^ depth - length nodes) (zero_node 0)))
  else Err NavigationError.

(** The nodes of a tree at a given depth, left to right; [None] when the
    tree is shallower somewhere. *)
Fixpoint expand_level (l : list Node) : option (list Node) :=
  match l with
  | [] => Some []
  | PairNode a b :: t => (fun t' => a :: b :: t') <$> expand_level t
  | RootNode _ :: _ => None
  end.

Fixpoint level (depth : nat) (n : Node) : option (list Node) :=
  match depth with
  | 0 => Some [n]
  | S d => level d n ≫= expand_level
  end.

(** The padded leaf row of [subtree_fill_to_contents]. *)
Definition fill (depth : nat) (nodes : list Node) : Node :=
  fill_level depth (nodes ++ replicate (2 ^ depth - length nodes) (zero_node 0)).

(** ** Bytes, streams and offsets *)

Abbreviation byte := Byte.byte.

Definition byte_of_N (n : N) : byte :=
  default Byte.x00 (Byte.of_N (n mod 256)).

(** [k] bytes of [n], least significant first. *)
Fixpoint le_bytes (k : nat) (n : N) : list byte :=
  match k with
  | 0 => []
  | S k' => byte_of_N n :: le_bytes k' (n / 256)
  end.

Fixpoint le_value (bs : list byte) : N :=
  match bs with
  | [] => 0%N
  | b :: t => (Byte.to_N b + 256 * le_value t)%N
  end.

(** The number spelled by a row of bits, least significant first. *)
Fixpoint bits_value (bits : list bool) : N :=
  match bits with
  | [] => 0%N
  | b :: t => (N.b2n b + 2 * bits_value t)%N
  end.

Definition value_bits (k : nat) (n : N) : list bool :=
  map (fun i => N.testbit n (N.of_nat i)) (seq 0 k).

(** Modelled from the spec: the input [BinaryIO] is the list of bytes not
    yet read; reading past its end is an error. *)
Definition read (stream : list byte) (n : nat) : result (list byte * list byte) :=
  if decide (n ≤ length stream)
  then Ok (take n stream, drop n stream)
  else Err ViewError.

Definition OFFSET_BYTE_LENGTH : nat := 4.

(** Modelled from the spec: [uint offsets: 4-byte little-endian
    unsigned]; an offset that does not fit is refused. *)
Definition encode_offset (offset : nat) : result (list byte) :=
  if decide (N.of_nat offset < 2 ^ 32)%N
  then Ok (le_bytes OFFSET_BYTE_LENGTH (N.of_nat offset))
  else Err ViewError.

(** Modelled from the spec: [decode_offset] reads the four bytes of an
    offset. *)
Definition decode_offset (stream : list byte) : result (nat * list byte) :=
  do (bs, stream) <- read stream OFFSET_BYTE_LENGTH;
  Ok (N.to_nat (le_value bs), stream).

(** ** The View contract *)

(** A Python value handed to a constructor or to an assignment. *)
Inductive pyval :=
  | PyNone
  | PyView (typ : string) (backing : Node)
  | PyInt (z : Z)
  | PyBytes (bs : list byte).

Module View.

(** Modelled from the spec: the View contract consumed from the base
    library.  [serialize] gives the bytes a view of that backing writes
    (its return value is their number), [decode] decodes exactly the
    bytes of its scope, [valid_backing] tells the backings views of the
    type hold, [profile_base] names the base of a type that is a
    Profile. *)
Record type := {
  type_name : string;
  profile_base : option string;
  is_fixed_byte_length : bool;
  type_byte_length : nat;
  min_byte_length : nat;
  max_byte_length : nat;
  serialize : Node → result (list byte);
  decode : list byte → result Node;
  coerce_view : pyval → result Node;
  valid_backing : Node → Prop;
}.

(** [ftyp.deserialize(stream, scope)] *)
Definition deserialize (ftyp : type) (stream : list byte) (scope : nat)
    : result (Node * list byte) :=
  do (bs, stream) <- read stream scope;
  do v <- decode ftyp bs;
  Ok (v, stream).

(** What the codec relies on from a field type. *)
Definition ok (t : type) : Prop :=
  (is_fixed_byte_length t = true →
     min_byte_length t = type_byte_length t ∧ max_byte_length t = type_byte_length t) ∧
  ∀ n, valid_backing t n →
    ∃ bs, serialize t n = Ok bs ∧ decode t bs = Ok n ∧
          min_byte_length t ≤ length bs ≤ max_byte_length t.

End View.

Abbreviation ViewType := View.type.

(** ** Bitvector *)

Module Bitvector.

(** Modelled from the spec: [Bitvector[K]] is a row of [K] bits whose
    backing packs them, 256 to a chunk, into a tree over the chunks,
    and whose encoding is [ceil(K/8)] bytes, least significant bit
    first, unused trailing bits zero. *)
Definition chunk_count (K : nat) : nat := (K + 255) / 256.

Definition tree_depth (K : nat) : nat := get_depth (chunk_count K).

Definition pack (K : nat) (bits : list bool) : Node :=
  fill (tree_depth K)
    (map (fun c => RootNode (bits_value (take 256 (drop (256 * c) bits))))
         (seq 0 (chunk_count K))).

Definition root_of (n : Node) : option N :=
  match n with
  | RootNode r => Some r
  | PairNode _ _ => None
  end.

Definition bits_of (K : nat) (backing : Node) : result (list bool) :=
  do row <- of_option (level (tree_depth K) backing) NavigationError;
  do chunks <- of_option (mapM root_of row) NavigationError;
  Ok (map (fun i => N.testbit (chunks !!! (i / 256)) (N.of_nat (i mod 256)))
          (seq 0 K)).

(** A view of type [Bitvector[K]]. *)
Record t := view_from_backing {
  K : nat;
  get_backing : Node;
}.

(** [Bitvector[K]()] *)
Definition new (K : nat) : t := view_from_backing K (pack K (replicate K false)).

Definition get (self : t) (i : nat) : result bool :=
  if decide (i < K self)
  then do bs <- bits_of (K self) (get_backing self); Ok (bs !!! i)
  else Err IndexError.

(** [set] rebinds the backing of the view it is called on. *)
Definition set (self : t) (i : nat) (v : bool) : result t :=
  if decide (i < K self)
  then do bs <- bits_of (K self) (get_backing self);
       Ok (view_from_backing (K self) (pack (K self) (<[i:=v]> bs)))
  else Err IndexError.

Definition type_byte_length (K : nat) : nat := (K + 7) / 8.

Definition serialize (self : t) : result (list byte) :=
  do bs <- bits_of (K self) (get_backing self);
  Ok (le_bytes (type_byte_length (K self)) (bits_value bs)).

Definition decode (K : nat) (bs : list byte) : result t :=
  if decide (length bs = type_byte_length K ∧ (le_value bs < 2 ^ N.of_nat K)%N)
  then Ok (view_from_backing K (pack K (value_bits K (le_value bs))))
  else Err ViewError.

(** [Bitvector[K].deserialize(stream, scope)] *)
Definition deserialize (K : nat) (stream : list byte) (scope : nat)
    : result (t * list byte) :=
  do (bs, stream) <- read stream scope;
  do v <- decode K bs;
  Ok (v, stream).

(** The backings of [Bitvector[K]]. *)
Definition valid (K : nat) (backing : Node) : Prop :=
  ∃ bs : list bool, length bs = K ∧ backing = pack K bs.

Definition is_set (K : nat) (backing : Node) (i : nat) : Prop :=
  get (view_from_backing K backing) i = Ok true.

End Bitvector.

(** A Python [dict] in insertion order. *)
Fixpoint dict_get {A} (key : string) (d : list (string * A)) : option A :=
  match d with
  | [] => None
  | (k, a) :: rest => if decide (k = key) then Some a else dict_get key rest
  end.

Definition is_private (item : string) : result bool :=
  match item with
  | EmptyString => Err IndexError
  | String c _ => Ok (bool_decide (c = "_"%char))
  end.

(** A field annotation: [Optional[T]] or plain [T]. *)
Inductive annotation :=
  | Optional (t : ViewType)
  | Plain (t : ViewType).

(** [FieldOffset(key, typ, offset)] *)
Record FieldOffset := {
  fo_key : string;
  fo_typ : ViewType;
  fo_offset : nat;
}.

(** A view object: the methods that assign to a field run over the
    backing it holds. *)
Definition method (A : Type) : Type := Node → result A * Node.

Definition get_backing : method Node := fun self => (Ok self, self).

Definition set_backing (backing : Node) : method unit := fun _ => (Ok tt, backing).

Definition raise {A} (e : exn) : method A := fun self => (Err e, self).

Definition lift {A} (r : result A) : method A := fun self => (r, self).

Definition mbind_method {A B} (m : method A) (k : A → method B) : method B :=
  fun self =>
    match m self with
    | (Ok a, self') => k a self'
    | (Err e, self') => (Err e, self')
    end.

Notation "'run' x <- m ; k" := (mbind_method m (fun x => k))
  (at level 10, x pattern, m at level 100, k at level 200,
   format "'[v' 'run'  x  <-  m ; '/' k ']'").

(** ** Field access shared by both classes *)

Definition is_none (value : pyval) : bool :=
  match value with
  | PyNone => true
  | _ => false
  end.

(** [stable_get(self, findex, ftyp, n)]; [active_fields] is the method of
    the class of [self]. *)
Definition stable_get (active_fields : Node → result Bitvector.t)
    (self : Node) (findex : nat) (ftyp : ViewType) (n : nat) : result pyval :=
  do af <- active_fields self;
  do bit <- Bitvector.get af findex;
  if negb bit then Ok PyNone else
  do data <- get_left self;
  do fnode <- getter data (2 ^ get_depth n + findex);
  Ok (PyView (View.type_name ftyp) fnode).

(** The node [stable_set] stores for [value]: the zero leaf for [None],
    the backing of a view of the field's type, the backing of the
    coerced value otherwise. *)
Definition value_node (ftyp : ViewType) (value : pyval) : result Node :=
  match value with
  | PyNone => Ok (zero_node 0)
  | PyView typ backing =>
      if decide (typ = View.type_name ftyp) then Ok backing else View.coerce_view ftyp value
  | _ => View.coerce_view ftyp value
  end.

(** [stable_set(self, findex, ftyp, n, value)] *)
Definition stable_set (active_fields : Node → result Bitvector.t)
    (findex : nat) (ftyp : ViewType) (n : nat) (value : pyval) : method unit :=
  run next_backing <- get_backing;
  run active_fields <- (fun self => (active_fields self, self));
  run active_fields <- lift (Bitvector.set active_fields findex (negb (is_none value)));
  run next_backing <- lift (rebind_right next_backing (Bitvector.get_backing active_fields));
  run fnode <- lift (value_node ftyp value);
  run data <- lift (get_left next_backing);
  run next_data <- lift (setter data (2 ^ get_depth n + findex) fnode);
  run next_backing <- lift (rebind_left next_backing next_data);
  set_backing next_backing.

(** The second loop of [deserialize], the same in both classes: the
    dynamic fields are read in order, each sized by the next offset. *)
Fixpoint deserialize_dyn_fields (i : nat) (dyn_fields : list FieldOffset) (scope : nat)
    (stream : list byte) (field_values : gmap string pyval)
    : result (gmap string pyval * list byte) :=
  match dyn_fields with
  | [] => Ok (field_values, stream)
  | fo :: rest =>
      let next_offset :=
        match rest with
        | fo' :: _ => fo_offset fo'
        | [] => scope
        end in
      if decide (next_offset < fo_offset fo) then Err (Exception_offset_invalid i) else
      let fsize := next_offset - fo_offset fo in
      let f_min_size := View.min_byte_length (fo_typ fo) in
      let f_max_size := View.max_byte_length (fo_typ fo) in
      if negb (bool_decide (f_min_size ≤ fsize ≤ f_max_size))
      then Err (Exception_size_out_of_bounds i) else
      do (v, stream) <- View.deserialize (fo_typ fo) stream fsize;
      deserialize_dyn_fields (S i) rest scope stream
        (<[fo_key fo := PyView (View.type_name (fo_typ fo)) v]> field_values)
  end.

Definition deserialize_offsets (dyn_fields : list FieldOffset) (fixed_size scope : nat)
    (stream : list byte) (field_values : gmap string pyval)
    : result (gmap string pyval * list byte) :=
  match dyn_fields with
  | [] => Ok (field_values, stream)
  | fo :: _ =>
      if decide (fo_offset fo < fixed_size)
      then Err (Exception_first_offset (fo_offset fo) fixed_size)
      else deserialize_dyn_fields 0 dyn_fields scope stream field_values
  end.

(** What [navigate_type] returns: [Bitvector[n]] for the active fields,
    the annotation of a field otherwise; and what it raises: the
    [KeyError] of a dict lookup, or the [AttributeError] of reading [N]
    on a base that has none. *)
Inductive nav_type :=
  | NavBitvector (n : nat)
  | NavField (t : annotation).

Inductive nav_error :=
  | KeyError (key : string)
  | AttributeError_no_N.

(** ** StableContainer *)

Module StableContainer.

Record class := {
  N : nat;
  _field_indices : list (string * (nat * ViewType));
}.

(** [StableContainer[n]]: the capacity is checked when the class is
    indexed ([__class_getitem__], [StableContainer.__init_subclass__]). *)
Definition __class_getitem__ (n : Z) : result nat :=
  if decide (n ≤ 0)%Z then Err TypeError_capacity else Ok (Z.to_nat n).

Fixpoint enumerate_fields (findex : nat) (annotations : list (string * annotation))
    : result (list (string * (nat * ViewType))) :=
  match annotations with
  | [] => Ok []
  | (fkey, Plain _) :: _ => Err (TypeError_not_optional fkey)
  | (fkey, Optional ftyp) :: rest =>
      do fields <- enumerate_fields (S findex) rest;
      Ok ((fkey, (findex, ftyp)) :: fields)
  end.

(** [StableContainerView.__init_subclass__]: a class with the
    annotated fields. *)
Definition __init_subclass__ (N : nat) (annotations : list (string * annotation))
    : result class :=
  do fields <- enumerate_fields 0 annotations;
  if decide (N < length fields) then Err TypeError_too_many_fields
  else Ok {| N := N; _field_indices := fields |}.

Definition declare (n : Z) (annotations : list (string * annotation)) : result class :=
  do N <- __class_getitem__ n;
  __init_subclass__ N annotations.

Definition is_fixed_byte_length (cls : class) : bool := false.

Definition min_byte_length (cls : class) : nat :=
  Bitvector.type_byte_length (N cls).

Definition max_byte_length (cls : class) : nat :=
  fold_left
    (fun total '(_, (_, ftyp)) =>
       let total :=
         if negb (View.is_fixed_byte_length ftyp)
         then total + OFFSET_BYTE_LENGTH else total in
       total + View.max_byte_length ftyp)
    (_field_indices cls)
    (Bitvector.type_byte_length (N cls)).

Definition tree_depth (cls : class) : nat := get_depth (N cls).

Definition active_fields (cls : class) (self : Node) : result Bitvector.t :=
  do active_fields_node <- get_right self;
  Ok (Bitvector.view_from_backing (N cls) active_fields_node).

(** The loop of [__new__] over the declared fields. *)
Fixpoint new_fields (cls : class) (fields : list (string * (nat * ViewType)))
    (kwargs : gmap string pyval) (input_nodes : list Node) (active_fields : Bitvector.t)
    : result (gmap string pyval * list Node * Bitvector.t) :=
  match fields with
  | [] => Ok (kwargs, input_nodes, active_fields)
  | (fkey, (findex, ftyp)) :: rest =>
      let finput := default PyNone (kwargs !! fkey) in
      let kwargs := delete fkey kwargs in
      do (fnode, active_fields) <-
        match finput with
        | PyNone =>
            do active_fields <- Bitvector.set active_fields findex false;
            Ok (zero_node 0, active_fields)
        | PyView _ backing =>
            do active_fields <- Bitvector.set active_fields findex true;
            Ok (backing, active_fields)
        | _ =>
            do fnode <- View.coerce_view ftyp finput;
            do active_fields <- Bitvector.set active_fields findex true;
            Ok (fnode, active_fields)
        end;
      new_fields cls rest kwargs (input_nodes ++ [fnode]) active_fields
  end.

Definition __new__ (cls : class) (backing : option Node) (kwargs : gmap string pyval)
    : result Node :=
  match backing with
  | Some backing =>
      if decide (size kwargs ≠ 0) then Err Exception_both_backing_and_fields
      else Ok backing
  | None =>
      do (kwargs, input_nodes, active_fields) <-
        new_fields cls (_field_indices cls) kwargs [] (Bitvector.new (N cls));
      if decide (0 < size kwargs) then Err AttributeError_unknown_fields else
      do data <- subtree_fill_to_contents input_nodes (get_depth (N cls));
      Ok (PairNode data (Bitvector.get_backing active_fields))
  end.

(** A name that starts with an underscore is looked up among the slots
    of the object, which hold no field. *)
Definition __getattr__ (cls : class) (self : Node) (item : string) : result pyval :=
  do private <- is_private item;
  if private then Err (AttributeError_unknown_field item) else
  do (findex, ftyp) <-
    of_option (dict_get item (_field_indices cls)) (AttributeError_unknown_field item);
  stable_get (active_fields cls) self findex ftyp (N cls).

Definition __setattr__ (cls : class) (key : string) (value : pyval) : method unit :=
  run private <- lift (is_private key);
  if (private : bool) then raise (AttributeError_unknown_field key) else
  run (findex, ftyp) <-
    lift (of_option (dict_get key (_field_indices cls)) (AttributeError_unknown_field key));
  stable_set (active_fields cls) findex ftyp (N cls) value.

(** The loop of [deserialize] that refuses bits past the declared
    fields. *)
Fixpoint check_unknown (active_fields : Bitvector.t) (findices : list nat)
    : result unit :=
  match findices with
  | [] => Ok tt
  | findex :: rest =>
      do bit <- Bitvector.get active_fields findex;
      if (bit : bool) then Err (Exception_unknown_field_index findex)
      else check_unknown active_fields rest
  end.

(** The first loop of [deserialize]: fixed-length fields are decoded,
    offsets of the dynamic ones are recorded. *)
Fixpoint deserialize_fields (fields : list (string * (nat * ViewType)))
    (active_fields : Bitvector.t) (stream : list byte)
    (field_values : gmap string pyval) (dyn_fields : list FieldOffset) (fixed_size : nat)
    : result (gmap string pyval * list FieldOffset * nat * list byte) :=
  match fields with
  | [] => Ok (field_values, dyn_fields, fixed_size, stream)
  | (fkey, (findex, ftyp)) :: rest =>
      do bit <- Bitvector.get active_fields findex;
      if negb bit
      then deserialize_fields rest active_fields stream field_values dyn_fields fixed_size
      else if View.is_fixed_byte_length ftyp then
        let fsize := View.type_byte_length ftyp in
        do (v, stream) <- View.deserialize ftyp stream fsize;
        deserialize_fields rest active_fields stream
          (<[fkey := PyView (View.type_name ftyp) v]> field_values)
          dyn_fields (fixed_size + fsize)
      else
        do (offset, stream) <- decode_offset stream;
        deserialize_fields rest active_fields stream field_values
          (dyn_fields ++ [{| fo_key := fkey; fo_typ := ftyp; fo_offset := offset |}])
          (fixed_size + OFFSET_BYTE_LENGTH)
  end.

(** What [deserialize] does once the bits past the declared fields
    were found clear. *)
Definition deserialize_known (cls : class) (active_fields : Bitvector.t)
    (stream : list byte) (scope : nat) : result (Node * list byte) :=
  do (field_values, dyn_fields, fixed_size, stream) <-
    deserialize_fields (_field_indices cls) active_fields stream ∅ [] 0;
  do (field_values, stream) <-
    deserialize_offsets dyn_fields fixed_size scope stream field_values;
  do self <- __new__ cls None field_values;
  Ok (self, stream).

(** [deserialize(cls, stream, scope)]: the view and the rest of the
    stream. *)
Definition deserialize (cls : class) (stream : list byte) (scope : nat)
    : result (Node * list byte) :=
  let num_prefix_bytes := Bitvector.type_byte_length (N cls) in
  if decide (scope < num_prefix_bytes) then Err ValueError_scope_too_small else
  do (active_fields, stream) <- Bitvector.deserialize (N cls) stream num_prefix_bytes;
  let scope := scope - num_prefix_bytes in
  do _ <- check_unknown active_fields
            (seq (length (_field_indices cls)) (N cls - length (_field_indices cls)));
  deserialize_known cls active_fields stream scope.

(** The first loop of [serialize]: the size of the fixed section. *)
Fixpoint serialize_sizes (fields : list (string * (nat * ViewType)))
    (active_fields : Bitvector.t) (num_data_bytes : nat) (has_dyn_fields : bool)
    : result (nat * bool) :=
  match fields with
  | [] => Ok (num_data_bytes, has_dyn_fields)
  | (_, (findex, ftyp)) :: rest =>
      do bit <- Bitvector.get active_fields findex;
      if negb bit then serialize_sizes rest active_fields num_data_bytes has_dyn_fields
      else if View.is_fixed_byte_length ftyp
      then serialize_sizes rest active_fields
             (num_data_bytes + View.type_byte_length ftyp) has_dyn_fields
      else serialize_sizes rest active_fields (num_data_bytes + OFFSET_BYTE_LENGTH) true
  end.

(** The second loop of [serialize]: [stream] collects what was written
    to the output, [temp_dyn_stream] is the side buffer, unbound while
    [None]. *)
Fixpoint serialize_fields (cls : class) (fields : list (string * (nat * ViewType)))
    (active_fields : Bitvector.t) (data : Node)
    (stream : list byte) (temp_dyn_stream : option (list byte)) (num_data_bytes : nat)
    : result (list byte * option (list byte) * nat) :=
  match fields with
  | [] => Ok (stream, temp_dyn_stream, num_data_bytes)
  | (_, (findex, ftyp)) :: rest =>
      do bit <- Bitvector.get active_fields findex;
      if negb bit
      then serialize_fields cls rest active_fields data stream temp_dyn_stream num_data_bytes
      else
        do fnode <- getter data (2 ^ get_depth (N cls) + findex);
        if View.is_fixed_byte_length ftyp then
          do bs <- View.serialize ftyp fnode;
          serialize_fields cls rest active_fields data
            (stream ++ bs) temp_dyn_stream num_data_bytes
        else
          do off <- encode_offset num_data_bytes;
          do temp <- of_option temp_dyn_stream UnboundLocalError;
          do bs <- View.serialize ftyp fnode;
          serialize_fields cls rest active_fields data
            (stream ++ off) (Some (temp ++ bs)) (num_data_bytes + length bs)
  end.

(** [serialize(self, stream)]: the bytes written and the returned
    count. *)
Definition serialize (cls : class) (self : Node) : result (list byte * nat) :=
  do active_fields <- active_fields cls self;
  do prefix <- Bitvector.serialize active_fields;
  let num_prefix_bytes := length prefix in
  let stream := prefix in
  do (num_data_bytes, has_dyn_fields) <-
    serialize_sizes (_field_indices cls) active_fields 0 false;
  let temp_dyn_stream := if has_dyn_fields then Some [] else None in
  do data <- get_left self;
  do (stream, temp_dyn_stream, num_data_bytes) <-
    serialize_fields cls (_field_indices cls) active_fields data
      stream temp_dyn_stream num_data_bytes;
  do stream <-
    (if has_dyn_fields
     then do temp <- of_option temp_dyn_stream UnboundLocalError; Ok (stream ++ temp)
     else Ok stream);
  Ok (stream, num_prefix_bytes + num_data_bytes).

Definition RIGHT_GINDEX : nat := 3.

Definition key_to_static_gindex (cls : class) (key : string) : result nat :=
  if decide (key = "__active_fields__") then Ok RIGHT_GINDEX else
  do (findex, _) <- of_option (dict_get key (_field_indices cls)) (AttributeError_unknown_field key);
  Ok (2 ^ get_depth (N cls) * 2 + findex).

(** [fields()]: name and type of each field, in declaration order. *)
Definition fields (cls : class) : list (string * ViewType) :=
  (fun '(fkey, (_, ftyp)) => (fkey, ftyp)) <$> _field_indices cls.

Definition is_packed (cls : class) : bool := false.

(** [item_elem_cls(i)]: entry [i] of [list(_field_indices.values())],
    the pair of index and type; a negative [i] counts from the end. *)
Definition item_elem_cls (cls : class) (i : Z) : result (nat * ViewType) :=
  let values := snd <$> _field_indices cls in
  let len := Z.of_nat (length values) in
  if decide (0 ≤ i < len)%Z then of_option (values !! Z.to_nat i) IndexError
  else if decide (- len ≤ i < 0)%Z then of_option (values !! Z.to_nat (len + i)) IndexError
  else Err IndexError.

Definition navigate_type (cls : class) (key : string) : nav_error + nav_type :=
  if decide (key = "__active_fields__") then inr (NavBitvector (N cls)) else
  match dict_get key (_field_indices cls) with
  | None => inl (KeyError key)
  | Some (_, ftyp) => inr (NavField (Optional ftyp))
  end.

End StableContainer.

(** ** Plain Container *)

Module Container.

(** Modelled from the spec: [remerkleable.complex.Container] is
    missing.  A plain Container has every declared field present; its
    backing is the bare data subtree of depth
    [ceil(log2(field count))]. *)
Record class := {
  fields : list (string * ViewType);
}.

(** [_field_indices]: the position of each field name. *)
Definition _field_indices (cls : class) : list (string * nat) :=
  imap (fun i '(fkey, _) => (fkey, i)) (fields cls).

Definition tree_depth (cls : class) : nat := get_depth (length (fields cls)).

Definition item_elem_cls (cls : class) (i : nat) : result ViewType :=
  of_option (snd <$> fields cls !! i) IndexError.

Fixpoint new_fields (fields : list (string * ViewType)) (kwargs : gmap string pyval)
    (input_nodes : list Node) : result (gmap string pyval * list Node) :=
  match fields with
  | [] => Ok (kwargs, input_nodes)
  | (fkey, ftyp) :: rest =>
      do fnode <-
        match kwargs !! fkey with
        | Some (PyView _ backing) => Ok backing
        | Some PyNone | None => Err ViewError
        | Some finput => View.coerce_view ftyp finput
        end;
      new_fields rest (delete fkey kwargs) (input_nodes ++ [fnode])
  end.

Definition __new__ (cls : class) (backing : option Node) (kwargs : gmap string pyval)
    : result Node :=
  match backing with
  | Some backing =>
      if decide (size kwargs ≠ 0) then Err Exception_both_backing_and_fields
      else Ok backing
  | None =>
      do (kwargs, input_nodes) <- new_fields (fields cls) kwargs [];
      if decide (0 < size kwargs) then Err AttributeError_unknown_fields else
      subtree_fill_to_contents input_nodes (tree_depth cls)
  end.

End Container.

(** ** Profile *)

Module Profile.

Inductive base :=
  | StableBase (b : StableContainer.class)
  | ContainerBase (b : Container.class).

Record class := {
  B : base;
  _field_indices : list (string * (nat * ViewType * bool));
  _o : nat;
}.

Definition is_stable (B : base) : bool :=
  match B with
  | StableBase _ => true
  | ContainerBase _ => false
  end.

(** [cls.B._field_indices], keys in order. *)
Definition base_keys (B : base) : list string :=
  match B with
  | StableBase b => fst <$> StableContainer._field_indices b
  | ContainerBase b => fst <$> Container.fields b
  end.

(** Position and type of a field of the base. *)
Definition base_field (B : base) (fkey : string) : option (nat * ViewType) :=
  match B with
  | StableBase b => dict_get fkey (StableContainer._field_indices b)
  | ContainerBase b =>
      findex ← dict_get fkey (Container._field_indices b);
      ftyp ← dict_get fkey (Container.fields b);
      Some (findex, ftyp)
  end.

(** [t == ftyp], or [t] is a Profile whose base is [ftyp]; classes are
    told apart by their names. *)
Definition compatible (t ftyp : ViewType) : bool :=
  bool_decide (View.type_name t = View.type_name ftyp)
  || bool_decide (View.profile_base t = Some (View.type_name ftyp)).

(** The loop of [ProfileView.__init_subclass__] over the annotations. *)
Fixpoint bind_fields (B : base) (annotations : list (string * annotation))
    (fields : list (string * (nat * ViewType * bool))) (o : nat)
    : result (list (string * (nat * ViewType * bool)) * nat) :=
  match annotations with
  | [] => Ok (fields, o)
  | (fkey, t) :: rest =>
      do (findex, ftyp) <- of_option (base_field B fkey) (TypeError_not_in_base fkey);
      do (t, fopt) <-
        match t with
        | Optional t' =>
            if is_stable B then Ok (t', true)
            else Err (TypeError_optional_in_container fkey)
        | Plain t' => Ok (t', false)
        end;
      if compatible t ftyp
      then bind_fields B rest (fields ++ [(fkey, (findex, t, fopt))])
             (if (fopt : bool) then S o else o)
      else Err (TypeError_incompatible fkey)
  end.

Fixpoint check_base_fields (keys : list string)
    (fields : list (string * (nat * ViewType * bool))) : result unit :=
  match keys with
  | [] => Ok tt
  | fkey :: rest =>
      match dict_get fkey fields with
      | None => Err (TypeError_missing_base_field fkey)
      | Some _ => check_base_fields rest fields
      end
  end.

Definition __init_subclass__ (B : base) (annotations : list (string * annotation))
    : result class :=
  do (fields, o) <- bind_fields B annotations [] 0;
  do _ <-
    (if negb (is_stable B) && negb (bool_decide (length fields = length (base_keys B)))
     then check_base_fields (base_keys B) fields
     else Ok tt);
  Ok {| B := B; _field_indices := fields; _o := o |}.

Definition is_fixed_byte_length (cls : class) : bool :=
  if decide (0 < _o cls) then false
  else forallb (fun '(_, (_, ftyp, _)) => View.is_fixed_byte_length ftyp)
         (_field_indices cls).

Definition min_byte_length (cls : class) : nat :=
  fold_left
    (fun total '(_, (_, ftyp, fopt)) =>
       if (fopt : bool) then total else
       let total :=
         if negb (View.is_fixed_byte_length ftyp)
         then total + OFFSET_BYTE_LENGTH else total in
       total + View.min_byte_length ftyp)
    (_field_indices cls)
    (if decide (0 < _o cls) then Bitvector.type_byte_length (_o cls) else 0).

Definition max_byte_length (cls : class) : nat :=
  fold_left
    (fun total '(_, (_, ftyp, _)) =>
       let total :=
         if negb (View.is_fixed_byte_length ftyp)
         then total + OFFSET_BYTE_LENGTH else total in
       total + View.max_byte_length ftyp)
    (_field_indices cls)
    (if decide (0 < _o cls) then Bitvector.type_byte_length (_o cls) else 0).

Definition type_byte_length (cls : class) : result nat :=
  if is_fixed_byte_length cls then Ok (min_byte_length cls) else Err ViewError.

Definition tree_depth (cls : class) : nat :=
  match B cls with
  | StableBase b => StableContainer.tree_depth b
  | ContainerBase b => Container.tree_depth b
  end.

Definition active_fields (cls : class) (self : Node) : result Bitvector.t :=
  match B cls with
  | ContainerBase _ => Err Exception_requires_stable_base
  | StableBase b =>
      do active_fields_node <- get_right self;
      Ok (Bitvector.view_from_backing (StableContainer.N b) active_fields_node)
  end.

Fixpoint optional_fields_loop (fields : list (string * (nat * ViewType * bool)))
    (active_fields optional_fields : Bitvector.t) (oindex : nat) : result Bitvector.t :=
  match fields with
  | [] => Ok optional_fields
  | (_, (findex, _, fopt)) :: rest =>
      if (fopt : bool) then
        do bit <- Bitvector.get active_fields findex;
        do optional_fields <- Bitvector.set optional_fields oindex bit;
        optional_fields_loop rest active_fields optional_fields (S oindex)
      else optional_fields_loop rest active_fields optional_fields oindex
  end.

Definition optional_fields (cls : class) (self : Node) : result Bitvector.t :=
  if negb (is_stable (B cls)) then Err Exception_requires_stable_base else
  if decide (_o cls = 0) then Err Exception_no_optional_fields else
  do active_fields <- active_fields cls self;
  optional_fields_loop (_field_indices cls) active_fields (Bitvector.new (_o cls)) 0.

(** [cls.B(backing, hook, **kwargs)] *)
Definition base_new (B : base) (backing : option Node) (kwargs : gmap string pyval)
    : result Node :=
  match B with
  | StableBase b => StableContainer.__new__ b backing kwargs
  | ContainerBase b => Container.__new__ b backing kwargs
  end.

Fixpoint check_kwargs (fields : list (string * (nat * ViewType * bool)))
    (extra_kw : gmap string pyval) : result (gmap string pyval) :=
  match fields with
  | [] => Ok extra_kw
  | (fkey, (_, _, fopt)) :: rest =>
      if decide (is_Some (extra_kw !! fkey)) then check_kwargs rest (delete fkey extra_kw)
      else if negb fopt then Err (AttributeError_required fkey)
      else check_kwargs rest extra_kw
  end.

Definition __new__ (cls : class) (backing : option Node) (kwargs : gmap string pyval)
    : result Node :=
  match backing with
  | Some backing =>
      if decide (size kwargs ≠ 0) then Err Exception_both_backing_and_fields
      else Ok backing
  | None =>
      do extra_kw <- check_kwargs (_field_indices cls) kwargs;
      if decide (0 < size extra_kw) then Err AttributeError_unknown_fields else
      base_new (B cls) backing kwargs
  end.

(** Modelled from the spec: [super().get(findex)] of the missing
    [ComplexView] reads the leaf at the field's position of the data
    subtree. *)
Definition get (cls : class) (self : Node) (i : nat) : result Node :=
  getter self (2 ^ tree_depth cls + i).

(** [cls.B.item_elem_cls(i)] for a plain Container base. *)
Definition item_elem_cls (cls : class) (i : nat) : result ViewType :=
  match B cls with
  | StableBase b => Err ViewError
  | ContainerBase b => Container.item_elem_cls b i
  end.

(** Modelled from the spec: [super().set(findex, value)] of the missing
    [ComplexView] coerces the value to the element type and makes its
    backing the leaf. *)
Definition set (cls : class) (i : nat) (value : pyval) : method unit :=
  run elem_type <- lift (item_elem_cls cls i);
  run fnode <- lift
    (match value with
     | PyView typ backing =>
         if decide (typ = View.type_name elem_type) then Ok backing
         else View.coerce_view elem_type value
     | _ => View.coerce_view elem_type value
     end);
  run backing <- get_backing;
  run next_backing <- lift (setter backing (2 ^ tree_depth cls + i) fnode);
  set_backing next_backing.

Definition __getattr__ (cls : class) (self : Node) (item : string) : result pyval :=
  do private <- is_private item;
  if private then Err (AttributeError_unknown_field item) else
  do (findex, ftyp, fopt) <-
    of_option (dict_get item (_field_indices cls)) (AttributeError_unknown_field item);
  do value <-
    match B cls with
    | StableBase b => stable_get (active_fields cls) self findex ftyp (StableContainer.N b)
    | ContainerBase _ =>
        do fnode <- get cls self findex;
        Ok (PyView (View.type_name ftyp) fnode)
    end;
  if negb (is_none value) || fopt then Ok value else Err AssertionError.

Definition __setattr__ (cls : class) (key : string) (value : pyval) : method unit :=
  run private <- lift (is_private key);
  if (private : bool) then raise (AttributeError_unknown_field key) else
  run (findex, ftyp, fopt) <-
    lift (of_option (dict_get key (_field_indices cls)) (AttributeError_unknown_field key));
  if is_none value && negb fopt then raise (ValueError_required_none key) else
  match B cls with
  | StableBase b => stable_set (active_fields cls) findex ftyp (StableContainer.N b) value
  | ContainerBase _ => set cls findex value
  end.

(** The first loop of [deserialize]; [optional_fields] is unbound
    while [None]. *)
Fixpoint deserialize_fields (fields : list (string * (nat * ViewType * bool)))
    (optional_fields : option Bitvector.t) (stream : list byte)
    (field_values : gmap string pyval) (dyn_fields : list FieldOffset)
    (fixed_size oindex : nat)
    : result (gmap string pyval * list FieldOffset * nat * nat * list byte) :=
  match fields with
  | [] => Ok (field_values, dyn_fields, fixed_size, oindex, stream)
  | (fkey, (_, ftyp, fopt)) :: rest =>
      do (has_field, oindex) <-
        (if (fopt : bool) then
           do optional_fields <- of_option optional_fields UnboundLocalError;
           do has_field <- Bitvector.get optional_fields oindex;
           Ok (has_field, S oindex)
         else Ok (true, oindex));
      if negb has_field
      then deserialize_fields rest optional_fields stream
             (<[fkey := PyNone]> field_values) dyn_fields fixed_size oindex
      else if View.is_fixed_byte_length ftyp then
        let fsize := View.type_byte_length ftyp in
        do (v, stream) <- View.deserialize ftyp stream fsize;
        deserialize_fields rest optional_fields stream
          (<[fkey := PyView (View.type_name ftyp) v]> field_values)
          dyn_fields (fixed_size + fsize) oindex
      else
        do (offset, stream) <- decode_offset stream;
        deserialize_fields rest optional_fields stream field_values
          (dyn_fields ++ [{| fo_key := fkey; fo_typ := ftyp; fo_offset := offset |}])
          (fixed_size + OFFSET_BYTE_LENGTH) oindex
  end.

Definition deserialize (cls : class) (stream : list byte) (scope : nat)
    : result (Node * list byte) :=
  do (optional_fields, stream, scope) <-
    (if decide (0 < _o cls) then
       let num_prefix_bytes := Bitvector.type_byte_length (_o cls) in
       if decide (scope < num_prefix_bytes) then Err ValueError_scope_too_small else
       do (optional_fields, stream) <-
         Bitvector.deserialize (_o cls) stream num_prefix_bytes;
       Ok (Some optional_fields, stream, scope - num_prefix_bytes)
     else Ok (None, stream, scope));
  do (field_values, dyn_fields, fixed_size, oindex, stream) <-
    deserialize_fields (_field_indices cls) optional_fields stream ∅ [] 0 0;
  if decide (oindex ≠ _o cls) then Err AssertionError else
  do (field_values, stream) <-
    deserialize_offsets dyn_fields fixed_size scope stream field_values;
  do self <- __new__ cls None field_values;
  Ok (self, stream).

(** The first loop of [serialize]. *)
Fixpoint serialize_sizes (fields : list (string * (nat * ViewType * bool)))
    (optional_fields : option Bitvector.t)
    (num_data_bytes : nat) (has_dyn_fields : bool) (oindex : nat)
    : result (nat * bool * nat) :=
  match fields with
  | [] => Ok (num_data_bytes, has_dyn_fields, oindex)
  | (_, (_, ftyp, fopt)) :: rest =>
      do (has_field, oindex) <-
        (if (fopt : bool) then
           do optional_fields <- of_option optional_fields UnboundLocalError;
           do has_field <- Bitvector.get optional_fields oindex;
           Ok (has_field, S oindex)
         else Ok (true, oindex));
      if negb has_field
      then serialize_sizes rest optional_fields num_data_bytes has_dyn_fields oindex
      else if View.is_fixed_byte_length ftyp
      then serialize_sizes rest optional_fields
             (num_data_bytes + View.type_byte_length ftyp) has_dyn_fields oindex
      else serialize_sizes rest optional_fields
             (num_data_bytes + OFFSET_BYTE_LENGTH) true oindex
  end.

(** The second loop of [serialize]; [active_fields] is [None] over a
    plain Container base. *)
Fixpoint serialize_fields (fields : list (string * (nat * ViewType * bool)))
    (active_fields : option Bitvector.t) (data : Node) (n : nat)
    (stream : list byte) (temp_dyn_stream : option (list byte)) (num_data_bytes : nat)
    : result (list byte * option (list byte) * nat) :=
  match fields with
  | [] => Ok (stream, temp_dyn_stream, num_data_bytes)
  | (_, (findex, ftyp, _)) :: rest =>
      do skip <-
        match active_fields with
        | Some active_fields =>
            do bit <- Bitvector.get active_fields findex; Ok (negb bit)
        | None => Ok false
        end;
      if (skip : bool)
      then serialize_fields rest active_fields data n stream temp_dyn_stream num_data_bytes
      else
        do fnode <- getter data (2 ^ get_depth n + findex);
        if View.is_fixed_byte_length ftyp then
          do bs <- View.serialize ftyp fnode;
          serialize_fields rest active_fields data n
            (stream ++ bs) temp_dyn_stream num_data_bytes
        else
          do off <- encode_offset num_data_bytes;
          do temp <- of_option temp_dyn_stream UnboundLocalError;
          do bs <- View.serialize ftyp fnode;
          serialize_fields rest active_fields data n
            (stream ++ off) (Some (temp ++ bs)) (num_data_bytes + length bs)
  end.

(** The state of [serialize] just before its last statement: the
    prefix length, what was written, the side buffer and the counter. *)
Definition serialize_state (cls : class) (self : Node)
    : result (nat * list byte * bool * option (list byte) * nat) :=
  do (optional_fields, prefix) <-
    (if decide (0 < _o cls) then
       do optional_fields <- optional_fields cls self;
       do prefix <- Bitvector.serialize optional_fields;
       Ok (Some optional_fields, prefix)
     else Ok (None, []));
  let num_prefix_bytes := length prefix in
  let stream := prefix in
  do (num_data_bytes, has_dyn_fields, oindex) <-
    serialize_sizes (_field_indices cls) optional_fields 0 false 0;
  if decide (oindex ≠ _o cls) then Err AssertionError else
  let temp_dyn_stream := if (has_dyn_fields : bool) then Some [] else None in
  do (data, active_fields, n) <-
    match B cls with
    | StableBase b =>
        do data <- get_left self;
        do active_fields <- active_fields cls self;
        Ok (data, Some active_fields, StableContainer.N b)
    | ContainerBase b => Ok (self, None, length (Container.fields b))
    end;
  do (stream, temp_dyn_stream, num_data_bytes) <-
    serialize_fields (_field_indices cls) active_fields data n
      stream temp_dyn_stream num_data_bytes;
  Ok (num_prefix_bytes, stream, has_dyn_fields, temp_dyn_stream, num_data_bytes).

(** [serialize(self, stream)]: the bytes written and the returned
    count; the side buffer is read back limited to [num_data_bytes]. *)
Definition serialize (cls : class) (self : Node) : result (list byte * nat) :=
  do (num_prefix_bytes, stream, has_dyn_fields, temp_dyn_stream, num_data_bytes) <-
    serialize_state cls self;
  do stream <-
    (if (has_dyn_fields : bool)
     then do temp <- of_option temp_dyn_stream UnboundLocalError;
          Ok (stream ++ take num_data_bytes temp)
     else Ok stream);
  Ok (stream, num_prefix_bytes + num_data_bytes).

Definition key_to_static_gindex (cls : class) (key : string) : result nat :=
  if decide (key = "__active_fields__") then Ok StableContainer.RIGHT_GINDEX else
  do (findex, _, _) <-
    of_option (dict_get key (_field_indices cls)) (AttributeError_unknown_field key);
  match B cls with
  | StableBase b => Ok (2 ^ get_depth (StableContainer.N b) * 2 + findex)
  | ContainerBase b =>
      let n := length (Container.fields b) in
      Ok (2 ^ get_depth n + findex)
  end.

(** [fields()]: name, type and optional marker of each field. *)
Definition fields (cls : class) : list (string * (ViewType * bool)) :=
  (fun '(fkey, (_, ftyp, fopt)) => (fkey, (ftyp, fopt))) <$> _field_indices cls.

Definition is_packed (cls : class) : bool := false.

Definition navigate_type (cls : class) (key : string) : nav_error + nav_type :=
  if decide (key = "__active_fields__") then
    match B cls with
    | StableBase b => inr (NavBitvector (StableContainer.N b))
    | ContainerBase _ => inl AttributeError_no_N
    end
  else
  match dict_get key (_field_indices cls) with
  | None => inl (KeyError key)
  | Some (_, ftyp, fopt) =>
      inr (NavField (if (fopt : bool) then Optional ftyp else Plain ftyp))
  end.

End Profile.

(** ** Two field types *)

(** Modelled from the spec: [uintN], a basic view of [byte_len] bytes,
    little-endian on the wire, backed by one chunk. *)
Definition uint (byte_len : nat) (name : string) : ViewType := {|
  View.type_name := name;
  View.profile_base := None;
  View.is_fixed_byte_length := true;
  View.type_byte_length := byte_len;
  View.min_byte_length := byte_len;
  View.max_byte_length := byte_len;
  View.serialize n :=
    match n with
    | RootNode r => Ok (le_bytes byte_len r)
    | PairNode _ _ => Err ViewError
    end;
  View.decode bs :=
    if decide (length bs = byte_len) then Ok (RootNode (le_value bs)) else Err ViewError;
  View.coerce_view v :=
    match v with
    | PyInt z =>
        if decide (0 ≤ z < 2 ^ (8 * Z.of_nat byte_len))%Z
        then Ok (RootNode (Z.to_N z)) else Err ViewError
    | PyView _ backing => Ok backing
    | _ => Err ViewError
    end;
  View.valid_backing n := ∃ r, n = RootNode r ∧ (r < 2 ^ (8 * N.of_nat byte_len))%N;
|}.

Definition uint8 : ViewType := uint 1 "uint8".
Definition uint16 : ViewType := uint 2 "uint16".
Definition uint32 : ViewType := uint 4 "uint32".

(** Modelled from the spec: [List[uint8, limit]] for a limit of at most
    32 bytes, which pack into one chunk: the backing pairs the packed
    bytes with the length. *)
Definition ByteList (limit : nat) (name : string) : ViewType := {|
  View.type_name := name;
  View.profile_base := None;
  View.is_fixed_byte_length := false;
  View.type_byte_length := 0;
  View.min_byte_length := 0;
  View.max_byte_length := limit;
  View.serialize n :=
    match n with
    | PairNode (RootNode contents) (RootNode len) => Ok (le_bytes (N.to_nat len) contents)
    | _ => Err ViewError
    end;
  View.decode bs :=
    if decide (length bs ≤ limit)
    then Ok (PairNode (RootNode (le_value bs)) (RootNode (N.of_nat (length bs))))
    else Err ViewError;
  View.coerce_view v :=
    match v with
    | PyBytes bs =>
        if decide (length bs ≤ limit)
        then Ok (PairNode (RootNode (le_value bs)) (RootNode (N.of_nat (length bs))))
        else Err ViewError
    | PyView _ backing => Ok backing
    | _ => Err ViewError
    end;
  View.valid_backing n :=
    ∃ contents len, n = PairNode (RootNode contents) (RootNode len) ∧
      (len ≤ N.of_nat limit)%N ∧ (contents < 2 ^ (8 * len))%N;
|}.

(** ** Well-formed classes and values *)

Module StableSpec.
Import StableContainer.

(** A class as [StableContainer[N]] declares it: positive capacity, at
    most [N] fields, each at its declaration position, no name twice. *)
Definition class_ok (cls : class) : Prop :=
  0 < N cls ∧
  length (_field_indices cls) ≤ N cls ∧
  NoDup (_field_indices cls).*1 ∧
  ∀ i fkey findex ftyp,
    _field_indices cls !! i = Some (fkey, (findex, ftyp)) → findex = i.

Definition fields_ok (cls : class) : Prop :=
  ∀ fkey findex ftyp, (fkey, (findex, ftyp)) ∈ _field_indices cls → View.ok ftyp.

(** Leaf [i] of the data subtree and bit [i] of the active fields. *)
Definition leaf (cls : class) (self : Node) (i : nat) : result Node :=
  do data <- get_left self;
  getter data (2 ^ get_depth (N cls) + i).

Definition bit (cls : class) (self : Node) (i : nat) : result bool :=
  do active_fields <- active_fields cls self;
  Bitvector.get active_fields i.

(** The layout of a value (Invariant A3): a data subtree with the row
    [row] at depth [ceil(log2 N)] next to the packed row of bits [bs]. *)
Definition laid_out (cls : class) (self : Node) (row : list Node) (bs : list bool) : Prop :=
  ∃ data, self = PairNode data (Bitvector.pack (N cls) bs) ∧
          length bs = N cls ∧
          level (get_depth (N cls)) data = Some row.

(** Bit 0 implies zero leaf, on a laid-out value. *)
Definition coherent (cls : class) (self : Node) : Prop :=
  ∃ row bs, laid_out cls self row bs ∧
    ∀ i, i < N cls → bs !! i = Some false → row !! i = Some (zero_node 0).

(** Well-formed values: Invariants A1 (in the direction that holds),
    A2 and A3, and every present field holds a backing of its type. *)
Definition well_formed (cls : class) (self : Node) : Prop :=
  ∃ row bs, laid_out cls self row bs ∧
    (∀ i, i < 2 ^ get_depth (N cls) → bs !! i ≠ Some true → row !! i = Some (zero_node 0)) ∧
    (∀ i, length (_field_indices cls) ≤ i → bs !! i ≠ Some true) ∧
    (∀ fkey findex ftyp fnode,
       (fkey, (findex, ftyp)) ∈ _field_indices cls →
       bs !! findex = Some true → row !! findex = Some fnode →
       View.valid_backing ftyp fnode).

(** The values a program can hold: built from a field map, then
    assigned to any number of times (a failed assignment included). *)
Inductive reachable (cls : class) : Node → Prop :=
  | reachable_new kwargs self :
      __new__ cls None kwargs = Ok self → reachable cls self
  | reachable_setattr self key value r self' :
      reachable cls self →
      __setattr__ cls key value self = (r, self') →
      reachable cls self'.

End StableSpec.

Module ProfileSpec.
Import Profile.

(** A class as [Profile[B]] declares it. *)
Definition class_ok (cls : class) : Prop :=
  NoDup (_field_indices cls).*1 ∧
  _o cls = length (filter (fun '(_, (_, _, fopt)) => fopt = true) (_field_indices cls)) ∧
  match B cls with
  | StableBase b =>
      StableSpec.class_ok b ∧
      ∀ fkey findex ftyp fopt,
        (fkey, (findex, ftyp, fopt)) ∈ _field_indices cls →
        ∃ btyp, dict_get fkey (StableContainer._field_indices b) = Some (findex, btyp)
  | ContainerBase b =>
      NoDup (Container.fields b).*1 ∧
      (∀ fkey findex ftyp fopt,
         (fkey, (findex, ftyp, fopt)) ∈ _field_indices cls →
         fopt = false ∧ ∃ btyp, Container.fields b !! findex = Some (fkey, btyp)) ∧
      (∀ i fkey btyp,
         Container.fields b !! i = Some (fkey, btyp) →
         ∃ ftyp, (fkey, (i, ftyp, false)) ∈ _field_indices cls)
  end.

Definition fields_ok (cls : class) : Prop :=
  ∀ fkey findex ftyp fopt,
    (fkey, (findex, ftyp, fopt)) ∈ _field_indices cls → View.ok ftyp.

(** Well-formed values.  Over a StableContainer base: the layout of the
    base, Invariant B1, no field present that the Profile does not
    declare, and each present field a backing of the Profile's type for
    it.  Over a plain Container: the bare data subtree, zero past the
    fields. *)
Definition well_formed (cls : class) (self : Node) : Prop :=
  match B cls with
  | StableBase b =>
      ∃ row bs, StableSpec.laid_out b self row bs ∧
        (∀ i, i < 2 ^ get_depth (StableContainer.N b) →
              bs !! i ≠ Some true → row !! i = Some (zero_node 0)) ∧
        (∀ i, bs !! i = Some true →
              ∃ fkey ftyp fopt, (fkey, (i, ftyp, fopt)) ∈ _field_indices cls) ∧
        (∀ fkey findex ftyp fopt fnode,
           (fkey, (findex, ftyp, fopt)) ∈ _field_indices cls →
           (fopt = false → bs !! findex = Some true) ∧
           (bs !! findex = Some true → row !! findex = Some fnode →
            View.valid_backing ftyp fnode))
  | ContainerBase b =>
      ∃ row, level (get_depth (length (Container.fields b))) self = Some row ∧
        (∀ i, length (Container.fields b) ≤ i →
              i < 2 ^ get_depth (length (Container.fields b)) →
              row !! i = Some (zero_node 0)) ∧
        (∀ fkey findex ftyp fopt fnode,
           (fkey, (findex, ftyp, fopt)) ∈ _field_indices cls →
           row !! findex = Some fnode → View.valid_backing ftyp fnode)
  end.

End ProfileSpec.

(** ** The wire layout of the present fields *)

Module Layout.

(** A present field: its name, its type and the node it holds. *)
Definition item : Type := string * ViewType * Node.

(** The present fields among [fs], in order: [present i] tells whether
    position [i] holds a field, [leaf i] is the node there. *)
Fixpoint present_items (present : nat → bool) (leaf : nat → Node)
    (fs : list (string * (nat * ViewType))) : list item :=
  match fs with
  | [] => []
  | (fkey, (findex, ftyp)) :: rest =>
      if present findex
      then (fkey, ftyp, leaf findex) :: present_items present leaf rest
      else present_items present leaf rest
  end.

(** [encodes its start fixed dyn offs]: [fixed] is the fixed section of
    the items (values of fixed-length fields, offsets of the others),
    [dyn] the variable section, [offs] the offsets written, the first
    of them [start]. *)
Inductive encodes : list item → nat → list byte → list byte → list FieldOffset → Prop :=
  | encodes_nil start : encodes [] start [] [] []
  | encodes_fixed fkey ftyp fnode its start bs fixed dyn offs :
      View.is_fixed_byte_length ftyp = true →
      View.serialize ftyp fnode = Ok bs →
      encodes its start fixed dyn offs →
      encodes ((fkey, ftyp, fnode) :: its) start (bs ++ fixed) dyn offs
  | encodes_dyn fkey ftyp fnode its start off bs fixed dyn offs :
      View.is_fixed_byte_length ftyp = false →
      encode_offset start = Ok off →
      View.serialize ftyp fnode = Ok bs →
      encodes its (start + length bs) fixed dyn offs →
      encodes ((fkey, ftyp, fnode) :: its) start (off ++ fixed) (bs ++ dyn)
        ({| fo_key := fkey; fo_typ := ftyp; fo_offset := start |} :: offs).


(** The size of the fixed section. *)
Definition fixed_cost (ftyp : ViewType) : nat :=
  if View.is_fixed_byte_length ftyp then View.type_byte_length ftyp
  else OFFSET_BYTE_LENGTH.

Definition fixed_size (its : list item) : nat :=
  sum_list ((fun '(_, ftyp, _) => fixed_cost ftyp) <$> its).

Definition has_dyn (its : list item) : bool :=
  existsb (fun '(_, ftyp, _) => negb (View.is_fixed_byte_length ftyp)) its.

(** The largest and smallest encodings of a field, offset included. *)
Definition max_cost (ftyp : ViewType) : nat :=
  (if View.is_fixed_byte_length ftyp then 0 else OFFSET_BYTE_LENGTH)
  + View.max_byte_length ftyp.

Definition min_cost (ftyp : ViewType) : nat :=
  (if View.is_fixed_byte_length ftyp then 0 else OFFSET_BYTE_LENGTH)
  + View.min_byte_length ftyp.

(** The most bytes the items add to the variable section. *)
Definition dyn_max (its : list item) : nat :=
  sum_list ((fun '(_, ftyp, _) =>
               if View.is_fixed_byte_length ftyp then 0 else View.max_byte_length ftyp)
            <$> its).

(** The entries a decoder records for the items, fixed-length ones
    first as they are decoded in the first pass. *)
Definition view_of (it : item) : string * pyval :=
  let '(fkey, ftyp, fnode) := it in (fkey, PyView (View.type_name ftyp) fnode).

Definition fixed_items (its : list item) : list item :=
  filter (fun '(_, ftyp, _) => View.is_fixed_byte_length ftyp = true) its.

Definition dyn_items (its : list item) : list item :=
  filter (fun '(_, ftyp, _) => View.is_fixed_byte_length ftyp = false) its.

Definition record (field_values : gmap string pyval) (entries : list (string * pyval))
    : gmap string pyval :=
  foldl (fun m '(k, v) => <[k := v]> m) field_values entries.

(** Every item holds a backing of its type, and its type keeps the
    View contract. *)
Definition items_ok (its : list item) : Prop :=
  ∀ fkey ftyp fnode, (fkey, ftyp, fnode) ∈ its →
    View.ok ftyp ∧ View.valid_backing ftyp fnode.

(** A field of a Profile without its optional marker, and a field of a
    StableContainer as a Profile would list it. *)
Definition strip (entry : string * (nat * ViewType * bool)) : string * (nat * ViewType) :=
  let '(fkey, (findex, ftyp, _)) := entry in (fkey, (findex, ftyp)).

Definition as_required (entry : string * (nat * ViewType)) : string * (nat * ViewType * bool) :=
  let '(fkey, (findex, ftyp)) := entry in (fkey, (findex, ftyp, false)).

(** The bits of the optional-fields bitvector: one per optional field,
    in order. *)
Definition optional_bits (present : nat → bool)
    (fs : list (string * (nat * ViewType * bool))) : list bool :=
  (fun '(_, (findex, _, _)) => present findex)
    <$> filter (fun '(_, (_, _, fopt)) => fopt = true) fs.

(** What the first pass of [Profile.deserialize] records: [None] for an
    absent field, the view of a present fixed-length one. *)
Fixpoint first_pass (present : nat → bool) (leaf : nat → Node)
    (fs : list (string * (nat * ViewType * bool))) : list (string * pyval) :=
  match fs with
  | [] => []
  | (fkey, (findex, ftyp, _)) :: rest =>
      if present findex then
        if View.is_fixed_byte_length ftyp
        then (fkey, PyView (View.type_name ftyp) (leaf findex))
             :: first_pass present leaf rest
        else first_pass present leaf rest
      else (fkey, PyNone) :: first_pass present leaf rest
  end.

(** What the second loop of [serialize] finds at each field of [fs]:
    whether it is present, and the node read for it. *)
Definition reads (present : nat → bool) (leaf : nat → Node)
    (active_fields : option Bitvector.t) (data : Node) (n : nat)
    (fs : list (string * (nat * ViewType * bool))) : Prop :=
  ∀ fkey findex ftyp fopt, (fkey, (findex, ftyp, fopt)) ∈ fs →
    match active_fields with
    | Some af => Bitvector.get af findex = Ok (present findex)
    | None => present findex = true
    end ∧
    getter data (2 ^ get_depth n + findex) = Ok (leaf findex).

End Layout.

(** ** Example classes and values *)

Module Examples.

Definition bytes8 : ViewType := ByteList 8 "List[uint8, 8]".

(** [class Shape(StableContainer[4]): a: Optional[uint16];
    b: Optional[List[uint8, 8]]] *)
Definition Shape_annotations : list (string * annotation) :=
  [("a", Optional uint16); ("b", Optional bytes8)].

Definition Shape : StableContainer.class :=
  {| StableContainer.N := 4;
     StableContainer._field_indices := [("a", (0, uint16)); ("b", (1, bytes8))] |}.

(** [class Wide(StableContainer[4])] with one more field at the end. *)
Definition Wide_annotations : list (string * annotation) :=
  [("x", Optional uint16); ("y", Optional bytes8); ("z", Optional uint8)].

Definition Wide : StableContainer.class :=
  {| StableContainer.N := 4;
     StableContainer._field_indices :=
       [("x", (0, uint16)); ("y", (1, bytes8)); ("z", (2, uint8))] |}.

(** [class Tagged(Profile[Shape]): a: uint16; b: Optional[List[uint8, 8]]] *)
Definition Tagged_annotations : list (string * annotation) :=
  [("a", Plain uint16); ("b", Optional bytes8)].

Definition Tagged : Profile.class :=
  {| Profile.B := Profile.StableBase Shape;
     Profile._field_indices := [("a", (0, uint16, false)); ("b", (1, bytes8, true))];
     Profile._o := 1 |}.

(** A plain Container with the same two fields, and a Profile over it. *)
Definition Pair : Container.class :=
  {| Container.fields := [("a", uint16); ("b", bytes8)] |}.

Definition Fixed_annotations : list (string * annotation) :=
  [("a", Plain uint16); ("b", Plain bytes8)].

Definition Fixed : Profile.class :=
  {| Profile.B := Profile.ContainerBase Pair;
     Profile._field_indices := [("a", (0, uint16, false)); ("b", (1, bytes8, false))];
     Profile._o := 0 |}.

Definition bytes_of (l : list N) : list byte := byte_of_N <$> l.

(** The node of [List[uint8, 8]([1, 2, 3])]. *)
Definition list_123 : Node := PairNode (RootNode 0x030201) (RootNode 3).

(** [Shape(a=7, b=[1, 2, 3])] *)
Definition shape_7_123 : Node :=
  PairNode
    (PairNode (PairNode (RootNode 7) list_123) (PairNode (RootNode 0) (RootNode 0)))
    (RootNode 3).

(** The leaves of its data subtree and its active bits. *)
Definition row_7_123 : list Node := [RootNode 7; list_123; RootNode 0; RootNode 0].
Definition bits_7_123 : list bool := [true; true; false; false].

(** [Shape(a=0)]: the field is present and its chunk is zero. *)
Definition shape_0 : Node :=
  PairNode
    (PairNode (PairNode (RootNode 0) (RootNode 0)) (PairNode (RootNode 0) (RootNode 0)))
    (RootNode 1).

(** [Shape(b=[1, 2, 3])]: field [a] is absent. *)
Definition shape_only_b : Node :=
  PairNode
    (PairNode (PairNode (RootNode 0) list_123) (PairNode (RootNode 0) (RootNode 0)))
    (RootNode 2).


(** [03 07 00 06 00 00 00 01 02 03], the encoding of [shape_7_123],
    the same with the offset moved to 7, and to 5. *)
Definition wire_7_123 : list byte := bytes_of [3; 7; 0; 6; 0; 0; 0; 1; 2; 3]%N.

(** Bit 2 set, past the two fields of [Shape]. *)
Definition wire_unknown : list byte := bytes_of [4]%N.


(** [Shape(a=7)] *)
Definition shape_7 : Node :=
  PairNode
    (PairNode (PairNode (RootNode 7) (RootNode 0)) (PairNode (RootNode 0) (RootNode 0)))
    (RootNode 1).

(** [class Narrow(Profile[Shape]): a: uint16], of fixed length. *)
Definition Narrow_annotations : list (string * annotation) := [("a", Plain uint16)].

Definition Narrow : Profile.class :=
  {| Profile.B := Profile.StableBase Shape;
     Profile._field_indices := [("a", (0, uint16, false))];
     Profile._o := 0 |}.

End Examples.

(** ** Vocabulary of the statements *)

(** The test both declaration loops make on an annotation: is it
    [Optional[T]]? *)
Definition is_optional (t : annotation) : bool :=
  match t with
  | Optional _ => true
  | Plain _ => false
  end.

(** The type an annotation wraps. *)
Definition annotated_type (t : annotation) : ViewType :=
  match t with
  | Optional t' => t'
  | Plain t' => t'
  end.



(** * Properties *)

(** ** The error monad *)

Lemma rbind_Ok {A B} (m : result A) (k : A → result B) (b : B) :
  rbind m k = Ok b → ∃ a, m = Ok a ∧ k a = Ok b.
Proof. destruct m as [a|e]; simpl; [eauto | discriminate]. Qed.

Ltac inv_bind H :=
  let a := fresh "a" in
  let Ha := fresh "Ha" in
  apply rbind_Ok in H; destruct H as (a & Ha & H).

(** ** Little-endian numbers *)

Lemma byte_of_N_to_N (n : N) : Byte.to_N (byte_of_N n) = (n mod 256)%N.
Proof.
  unfold byte_of_N.
  destruct (Byte.of_N (n mod 256)) as [b|] eqn:E.
  - simpl. by apply Byte.to_of_N.
  - exfalso.
    pose proof (Byte.to_of_N_option_map (n mod 256)) as H.
    rewrite E in H. simpl in H.
    assert (n mod 256 < 256)%N by (apply N.mod_lt; lia).
    destruct (N.leb_spec (n mod 256) 255); [discriminate | lia].
Qed.

Lemma length_le_bytes (k : nat) (n : N) : length (le_bytes k n) = k.
Proof. revert n; induction k as [|k IH]; intros n; simpl; [done | by rewrite IH]. Qed.

Lemma le_value_le_bytes (k : nat) (n : N) :
  le_value (le_bytes k n) = (n mod 2 ^ (8 * N.of_nat k))%N.
Proof.
  revert n; induction k as [|k IH]; intros n; simpl le_bytes; simpl le_value.
  - simpl. by rewrite N.mod_1_r.
  - rewrite byte_of_N_to_N, IH.
    replace (8 * N.of_nat (S k))%N with (8 + 8 * N.of_nat k)%N by lia.
    rewrite N.pow_add_r. change (2 ^ 8)%N with 256%N.
    rewrite (N.Div0.mod_mul_r n 256). lia.
Qed.

Lemma le_value_le_bytes_small (k : nat) (n : N) :
  (n < 2 ^ (8 * N.of_nat k))%N → le_value (le_bytes k n) = n.
Proof. intros H. rewrite le_value_le_bytes. by apply N.mod_small. Qed.

Lemma le_value_bound (bs : list byte) : (le_value bs < 2 ^ (8 * N.of_nat (length bs)))%N.
Proof.
  induction bs as [|b bs IH]; simpl le_value; simpl length.
  - simpl. lia.
  - replace (8 * N.of_nat (S (length bs)))%N with (8 + 8 * N.of_nat (length bs))%N by lia.
    rewrite N.pow_add_r. change (2 ^ 8)%N with 256%N.
    pose proof (Byte.to_N_bounded b). nia.
Qed.

Lemma le_bytes_le_value (bs : list byte) : le_bytes (length bs) (le_value bs) = bs.
Proof.
  induction bs as [|b bs IH]; simpl; [done|].
  pose proof (Byte.to_N_bounded b) as Hb.
  f_equal.
  - unfold byte_of_N.
    replace ((Byte.to_N b + 256 * le_value bs) mod 256)%N with (Byte.to_N b).
    + by rewrite Byte.of_to_N.
    + rewrite (N.mul_comm 256), N.Div0.mod_add. symmetry. apply N.mod_small. lia.
  - replace ((Byte.to_N b + 256 * le_value bs) / 256)%N with (le_value bs); [done|].
    rewrite (N.mul_comm 256), N.div_add by lia.
    rewrite (N.div_small (Byte.to_N b)) by lia. lia.
Qed.

(** ** Rows of bits *)

Lemma testbit_bits_value (bits : list bool) (i : nat) :
  N.testbit (bits_value bits) (N.of_nat i) = default false (bits !! i).
Proof.
  revert i; induction bits as [|b bits IH]; intros i; simpl bits_value.
  - by rewrite N.bits_0.
  - destruct i as [|i].
    + simpl. rewrite N.add_comm. apply N.testbit_0_r.
    + rewrite Nat2N.inj_succ. rewrite N.add_comm, N.testbit_succ_r. apply IH.
Qed.

Lemma bits_value_bound (bits : list bool) :
  (bits_value bits < 2 ^ N.of_nat (length bits))%N.
Proof.
  induction bits as [|b bits IH]; simpl bits_value; simpl length.
  - simpl. lia.
  - rewrite Nat2N.inj_succ, N.pow_succ_r'. destruct b; simpl N.b2n; lia.
Qed.

Lemma value_bits_bits_value (bits : list bool) :
  value_bits (length bits) (bits_value bits) = bits.
Proof.
  apply list_eq. intros i. unfold value_bits.
  rewrite list_lookup_fmap.
  destruct (decide (i < length bits)) as [Hi|Hi].
  - rewrite lookup_seq_lt by done. simpl.
    rewrite testbit_bits_value.
    destruct (lookup_lt_is_Some_2 bits i Hi) as [b Hb]. by rewrite Hb.
  - rewrite lookup_seq_ge by lia. simpl. symmetry. apply lookup_ge_None. lia.
Qed.

Lemma length_value_bits (k : nat) (n : N) : length (value_bits k n) = k.
Proof. unfold value_bits. by rewrite length_map, length_seq. Qed.

(** ** Streams and offsets *)

Lemma read_app (bs rest : list byte) : read (bs ++ rest) (length bs) = Ok (bs, rest).
Proof.
  unfold read. rewrite decide_True by (rewrite length_app; lia).
  by rewrite take_app_length, drop_app_length.
Qed.

Lemma read_app_eq (bs rest : list byte) (n : nat) :
  n = length bs → read (bs ++ rest) n = Ok (bs, rest).
Proof. intros ->. apply read_app. Qed.

Lemma encode_offset_Ok (offset : nat) (bs : list byte) :
  encode_offset offset = Ok bs →
  bs = le_bytes OFFSET_BYTE_LENGTH (N.of_nat offset) ∧ (N.of_nat offset < 2 ^ 32)%N.
Proof.
  unfold encode_offset. destruct (decide _) as [Hlt|?]; [|discriminate].
  intros H. split; [congruence | done].
Qed.

Lemma encode_offset_length (offset : nat) (bs : list byte) :
  encode_offset offset = Ok bs → length bs = OFFSET_BYTE_LENGTH.
Proof. intros [-> _]%encode_offset_Ok. apply length_le_bytes. Qed.


Lemma encode_offset_total (offset : nat) :
  (N.of_nat offset < 2 ^ 32)%N → ∃ bs, encode_offset offset = Ok bs.
Proof. intros H. unfold encode_offset. rewrite decide_True by done. eauto. Qed.

(** ** Levels of a tree *)

Lemma expand_merge_level (k : nat) (l : list Node) :
  length l = 2 * k → expand_level (merge_level l) = Some l.
Proof.
  revert l; induction k as [|k IH]; intros l Hl.
  - by destruct l.
  - destruct l as [|a [|b t]]; simpl in Hl; try lia.
    simpl. rewrite IH by lia. done.
Qed.

Lemma length_merge_level (k : nat) (l : list Node) :
  length l = 2 * k → length (merge_level l) = k.
Proof.
  revert l; induction k as [|k IH]; intros l Hl.
  - by destruct l.
  - destruct l as [|a [|b t]]; simpl in Hl; try lia.
    simpl. rewrite IH by lia. done.
Qed.

Lemma merge_expand_level (l' l : list Node) :
  expand_level l' = Some l → merge_level l = l' ∧ length l = 2 * length l'.
Proof.
  revert l; induction l' as [|[r|a b] t IH]; intros l H; simpl in H.
  - injection H as <-. done.
  - discriminate.
  - destruct (expand_level t) as [t'|] eqn:E; [|discriminate].
    simpl in H. injection H as <-.
    destruct (IH t' eq_refl) as [<- Hlen]. simpl. split; [done | lia].
Qed.

Lemma level_length (d : nat) (n : Node) (row : list Node) :
  level d n = Some row → length row = 2 ^ d.
Proof.
  revert row; induction d as [|d IH]; intros row H; simpl in H.
  - injection H as <-. done.
  - destruct (level d n) as [r'|] eqn:E; [|discriminate]. simpl in H.
    apply merge_expand_level in H as [_ ->]. rewrite (IH r' eq_refl).
    rewrite Nat.pow_succ_r'. done.
Qed.

Lemma level_fill_level (d : nat) (l : list Node) :
  length l = 2 ^ d → level d (fill_level d l) = Some l.
Proof.
  revert l; induction d as [|d IH]; intros l Hl.
  - destruct l as [|a [|]]; simpl in Hl; try lia. done.
  - rewrite Nat.pow_succ_r' in Hl. simpl.
    rewrite IH by (by apply length_merge_level).
    simpl. by eapply expand_merge_level.
Qed.


Lemma expand_level_lookup (l' l : list Node) (i : nat) (p : Node) :
  expand_level l' = Some l → l' !! i = Some p →
  ∃ a b, p = PairNode a b ∧ l !! (2 * i) = Some a ∧ l !! (2 * i + 1) = Some b.
Proof.
  revert l i; induction l' as [|[r|a b] t IH]; intros l i H Hi; simpl in H.
  - done.
  - discriminate.
  - destruct (expand_level t) as [t'|] eqn:E; [|discriminate].
    simpl in H. injection H as <-.
    destruct i as [|i]; simpl in Hi.
    + injection Hi as <-. by exists a, b.
    + destruct (IH t' i eq_refl Hi) as (a' & b' & -> & Ha & Hb).
      exists a', b'. split; [done|].
      replace (2 * S i) with (S (S (2 * i))) by lia.
      replace (S (S (2 * i)) + 1) with (S (S (2 * i + 1))) by lia. done.
Qed.

Lemma expand_level_insert_left (l' l : list Node) (i j : nat) (a b v : Node) :
  expand_level l' = Some l → l' !! i = Some (PairNode a b) → j = 2 * i →
  expand_level (<[i := PairNode v b]> l') = Some (<[j := v]> l).
Proof.
  revert l i j; induction l' as [|[r|a' b'] t IH]; intros l i j H Hi Hj; simpl in H.
  - done.
  - discriminate.
  - destruct (expand_level t) as [t'|] eqn:E; [|discriminate].
    simpl in H. injection H as <-.
    destruct i as [|i]; simpl in Hi.
    + injection Hi as -> ->. subst j. simpl. by rewrite E.
    + destruct j as [|[|j]]; try lia. simpl.
      by rewrite (IH t' i j eq_refl Hi) by lia.
Qed.

Lemma expand_level_insert_right (l' l : list Node) (i j : nat) (a b v : Node) :
  expand_level l' = Some l → l' !! i = Some (PairNode a b) → j = 2 * i + 1 →
  expand_level (<[i := PairNode a v]> l') = Some (<[j := v]> l).
Proof.
  revert l i j; induction l' as [|[r|a' b'] t IH]; intros l i j H Hi Hj; simpl in H.
  - done.
  - discriminate.
  - destruct (expand_level t) as [t'|] eqn:E; [|discriminate].
    simpl in H. injection H as <-.
    destruct i as [|i]; simpl in Hi.
    + injection Hi as -> ->. subst j. simpl. by rewrite E.
    + destruct j as [|[|j]]; try lia. simpl.
      by rewrite (IH t' i j eq_refl Hi) by lia.
Qed.

(** ** Navigation by generalized index *)

Lemma getter_even (n : Node) (g : nat) :
  0 < g → getter n (2 * g) = (do parent <- getter n g; get_left parent).
Proof.
  intros Hg. unfold getter.
  replace (N.of_nat (2 * g)) with (2 * N.of_nat g)%N by lia.
  destruct (N.of_nat g) as [|p] eqn:E; [lia|]. done.
Qed.

Lemma getter_odd (n : Node) (g : nat) :
  0 < g → getter n (2 * g + 1) = (do parent <- getter n g; get_right parent).
Proof.
  intros Hg. unfold getter.
  replace (N.of_nat (2 * g + 1)) with (2 * N.of_nat g + 1)%N by lia.
  destruct (N.of_nat g) as [|p] eqn:E; [lia|]. done.
Qed.

Lemma setter_even (n : Node) (g : nat) (v : Node) :
  0 < g →
  setter n (2 * g) v =
    (do parent <- getter n g; do parent' <- rebind_left parent v; setter n g parent').
Proof.
  intros Hg. unfold setter, getter.
  replace (N.of_nat (2 * g)) with (2 * N.of_nat g)%N by lia.
  destruct (N.of_nat g) as [|p] eqn:E; [lia|]. done.
Qed.

Lemma setter_odd (n : Node) (g : nat) (v : Node) :
  0 < g →
  setter n (2 * g + 1) v =
    (do parent <- getter n g; do parent' <- rebind_right parent v; setter n g parent').
Proof.
  intros Hg. unfold setter, getter.
  replace (N.of_nat (2 * g + 1)) with (2 * N.of_nat g + 1)%N by lia.
  destruct (N.of_nat g) as [|p] eqn:E; [lia|]. done.
Qed.

Lemma pow2_pos (d : nat) : 0 < 2 ^ d.
Proof. induction d; simpl; lia. Qed.

Lemma leaf_index_split (d i : nat) :
  2 ^ S d + i = 2 * (2 ^ d + i / 2) + i mod 2.
Proof. rewrite Nat.pow_succ_r'. pose proof (Nat.div_mod_eq i 2). lia. Qed.

(** The getter at leaf position [i] of depth [d] reads entry [i] of the
    level. *)
Lemma getter_level (d : nat) (n : Node) (row : list Node) (i : nat) :
  level d n = Some row → i < 2 ^ d →
  ∃ leaf, row !! i = Some leaf ∧ getter n (2 ^ d + i) = Ok leaf.
Proof.
  revert row i; induction d as [|d IH]; intros row i H Hi.
  - simpl in H, Hi. injection H as <-. assert (i = 0) as -> by lia.
    exists n. done.
  - simpl in H. destruct (level d n) as [r'|] eqn:E; [|discriminate]. simpl in H.
    assert (i / 2 < 2 ^ d) as Hi2.
    { apply Nat.Div0.div_lt_upper_bound. rewrite Nat.pow_succ_r' in Hi. lia. }
    destruct (IH r' (i / 2) eq_refl Hi2) as (p & Hp & Hg).
    destruct (expand_level_lookup _ _ _ _ H Hp) as (a & b & -> & Ha & Hb).
    pose proof (pow2_pos d) as Hpos.
    pose proof (Nat.div_mod_eq i 2) as Hdm.
    pose proof (Nat.mod_upper_bound i 2) as Hm.
    rewrite leaf_index_split.
    destruct (decide (i mod 2 = 0)) as [H0|H0].
    + rewrite H0, Nat.add_0_r, getter_even, Hg by lia.
      exists a. split; [|done]. replace i with (2 * (i / 2)) at 1 by lia. done.
    + replace (i mod 2) with 1 by lia. rewrite getter_odd, Hg by lia.
      exists b. split; [|done]. replace i with (2 * (i / 2) + 1) at 1 by lia. done.
Qed.

(** The setter at leaf position [i] of depth [d] rewrites entry [i] of
    the level and nothing else. *)
Lemma setter_level (d : nat) (n : Node) (row : list Node) (i : nat) (v : Node) :
  level d n = Some row → i < 2 ^ d →
  ∃ n', setter n (2 ^ d + i) v = Ok n' ∧ level d n' = Some (<[i := v]> row).
Proof.
  revert row i v; induction d as [|d IH]; intros row i v H Hi.
  - simpl in H, Hi. injection H as <-. assert (i = 0) as -> by lia.
    exists v. done.
  - simpl in H. destruct (level d n) as [r'|] eqn:E; [|discriminate]. simpl in H.
    assert (i / 2 < 2 ^ d) as Hi2.
    { apply Nat.Div0.div_lt_upper_bound. rewrite Nat.pow_succ_r' in Hi. lia. }
    destruct (getter_level d n r' (i / 2) E Hi2) as (p & Hp & Hg).
    destruct (expand_level_lookup _ _ _ _ H Hp) as (a & b & -> & Ha & Hb).
    pose proof (pow2_pos d) as Hpos.
    pose proof (Nat.div_mod_eq i 2) as Hdm.
    pose proof (Nat.mod_upper_bound i 2) as Hm.
    rewrite leaf_index_split.
    destruct (decide (i mod 2 = 0)) as [H0|H0].
    + rewrite H0, Nat.add_0_r, setter_even, Hg by lia. cbn [rbind rebind_left].
      destruct (IH r' (i / 2) (PairNode v b) eq_refl Hi2) as (n' & Hs & Hl).
      exists n'. split; [done|]. simpl. rewrite Hl. simpl.
      apply (expand_level_insert_left _ _ _ _ _ _ _ H Hp). lia.
    + replace (i mod 2) with 1 by lia. rewrite setter_odd, Hg by lia.
      cbn [rbind rebind_right].
      destruct (IH r' (i / 2) (PairNode a v) eq_refl Hi2) as (n' & Hs & Hl).
      exists n'. split; [done|]. simpl. rewrite Hl. simpl.
      apply (expand_level_insert_right _ _ _ _ _ _ _ H Hp). lia.
Qed.

Lemma length_fill_row (depth : nat) (nodes : list Node) :
  length nodes ≤ 2 ^ depth →
  length (nodes ++ replicate (2 ^ depth - length nodes) (zero_node 0)) = 2 ^ depth.
Proof. intros H. rewrite length_app, length_replicate. lia. Qed.

Lemma level_fill (depth : nat) (nodes : list Node) :
  length nodes ≤ 2 ^ depth →
  level depth (fill depth nodes) =
    Some (nodes ++ replicate (2 ^ depth - length nodes) (zero_node 0)).
Proof. intros H. apply level_fill_level. by apply length_fill_row. Qed.

Lemma get_depth_spec (n : nat) : n ≤ 2 ^ get_depth n.
Proof.
  unfold get_depth. destruct (decide (n ≤ 1)) as [Hn|Hn].
  - pose proof (pow2_pos (Nat.log2_up n)). lia.
  - apply Nat.log2_up_spec. lia.
Qed.

(** ** Bitvector *)

Lemma chunk_count_fits (K : nat) : Bitvector.chunk_count K ≤ 2 ^ Bitvector.tree_depth K.
Proof. apply get_depth_spec. Qed.

Lemma chunk_index_lt (K i : nat) : i < K → i / 256 < Bitvector.chunk_count K.
Proof.
  intros Hi. unfold Bitvector.chunk_count.
  apply Nat.Div0.div_lt_upper_bound.
  pose proof (Nat.div_mod_eq (K + 255) 256) as H.
  pose proof (Nat.mod_upper_bound (K + 255) 256). lia.
Qed.

Lemma bits_of_pack (K : nat) (bs : list bool) :
  length bs = K → Bitvector.bits_of K (Bitvector.pack K bs) = Ok bs.
Proof.
  intros Hlen. unfold Bitvector.bits_of, Bitvector.pack.
  set (chunks := map (fun c => bits_value (take 256 (drop (256 * c) bs)))
                     (seq 0 (Bitvector.chunk_count K))).
  assert (length chunks = Bitvector.chunk_count K) as Hc
    by (unfold chunks; by rewrite length_map, length_seq).
  pose proof (chunk_count_fits K) as Hfit.
  rewrite <- (map_map (fun c => bits_value (take 256 (drop (256 * c) bs))) RootNode).
  fold chunks.
  rewrite level_fill by (rewrite length_map; lia).
  cbn [of_option rbind].
  change (zero_node 0) with (RootNode 0%N).
  rewrite <- fmap_replicate, <- fmap_app.
  rewrite mapM_fmap_Some by done.
  cbn [of_option rbind]. f_equal.
  apply list_eq. intros i.
  rewrite list_lookup_fmap.
  destruct (decide (i < K)) as [Hi|Hi].
  - rewrite lookup_seq_lt by done. cbn [fmap option_fmap option_map].
    pose proof (chunk_index_lt K i Hi) as Hci.
    rewrite length_map in *.
    assert ((chunks ++ replicate (2 ^ Bitvector.tree_depth K - length chunks) 0%N)
              !! (i / 256)
            = Some (bits_value (take 256 (drop (256 * (i / 256)) bs)))) as Hl.
    { rewrite lookup_app_l by lia. unfold chunks. rewrite list_lookup_fmap.
      rewrite lookup_seq_lt by done. done. }
    rewrite (list_lookup_total_correct _ _ _ Hl).
    rewrite testbit_bits_value.
    pose proof (Nat.mod_upper_bound i 256).
    rewrite Nat.add_0_l. rewrite lookup_take_lt by lia. rewrite lookup_drop.
    replace (256 * (i / 256) + i mod 256) with i
      by (pose proof (Nat.div_mod_eq i 256); lia).
    destruct (lookup_lt_is_Some_2 bs i) as [b Hb]; [lia|]. by rewrite Hb.
  - rewrite lookup_seq_ge by lia. symmetry. apply lookup_ge_None. lia.
Qed.

Lemma Bitvector_get_pack (K : nat) (bs : list bool) (i : nat) :
  length bs = K → i < K →
  Bitvector.get (Bitvector.view_from_backing K (Bitvector.pack K bs)) i = Ok (bs !!! i).
Proof.
  intros Hlen Hi. unfold Bitvector.get. cbn [Bitvector.K Bitvector.get_backing].
  rewrite decide_True by done. by rewrite bits_of_pack.
Qed.

Lemma Bitvector_get_range (v : Bitvector.t) (i : nat) (b : bool) :
  Bitvector.get v i = Ok b → i < Bitvector.K v.
Proof. unfold Bitvector.get. by case_decide. Qed.

Lemma Bitvector_set_pack (K : nat) (bs : list bool) (i : nat) (v : bool) :
  length bs = K → i < K →
  Bitvector.set (Bitvector.view_from_backing K (Bitvector.pack K bs)) i v
  = Ok (Bitvector.view_from_backing K (Bitvector.pack K (<[i := v]> bs))).
Proof.
  intros Hlen Hi. unfold Bitvector.set. cbn [Bitvector.K Bitvector.get_backing].
  rewrite decide_True by done. by rewrite bits_of_pack.
Qed.

Lemma Bitvector_serialize_pack (K : nat) (bs : list bool) :
  length bs = K →
  Bitvector.serialize (Bitvector.view_from_backing K (Bitvector.pack K bs))
  = Ok (le_bytes (Bitvector.type_byte_length K) (bits_value bs)).
Proof.
  intros Hlen. unfold Bitvector.serialize. cbn [Bitvector.K Bitvector.get_backing].
  by rewrite bits_of_pack.
Qed.

Lemma type_byte_length_bits (K : nat) : K ≤ 8 * Bitvector.type_byte_length K.
Proof.
  unfold Bitvector.type_byte_length.
  pose proof (Nat.div_mod_eq (K + 7) 8).
  assert ((K + 7) mod 8 < 8) by (apply Nat.mod_upper_bound; lia). lia.
Qed.

Lemma Bitvector_decode_encode (K : nat) (bs : list bool) :
  length bs = K →
  Bitvector.decode K (le_bytes (Bitvector.type_byte_length K) (bits_value bs))
  = Ok (Bitvector.view_from_backing K (Bitvector.pack K bs)).
Proof.
  intros Hlen. unfold Bitvector.decode.
  pose proof (bits_value_bound bs) as Hb. rewrite Hlen in Hb.
  assert (bits_value bs < 2 ^ (8 * N.of_nat (Bitvector.type_byte_length K)))%N as Hb'.
  { eapply N.lt_le_trans; [exact Hb|].
    apply N.pow_le_mono_r; [lia|]. pose proof (type_byte_length_bits K). lia. }
  rewrite le_value_le_bytes_small by done.
  rewrite decide_True by (split; [apply length_le_bytes | done]).
  subst K. by rewrite value_bits_bits_value.
Qed.

Lemma Bitvector_decode_valid (K : nat) (bytes : list byte) (v : Bitvector.t) :
  Bitvector.decode K bytes = Ok v →
  ∃ bs, length bs = K ∧ v = Bitvector.view_from_backing K (Bitvector.pack K bs) ∧
        length bytes = Bitvector.type_byte_length K.
Proof.
  unfold Bitvector.decode. case_decide as H; [|discriminate]. intros [= <-].
  exists (value_bits K (le_value bytes)). split; [apply length_value_bits|]. tauto.
Qed.

(** ** Dictionaries *)

Lemma dict_get_lookup {A} (d : list (string * A)) (i : nat) (key : string) (a : A) :
  NoDup d.*1 → d !! i = Some (key, a) → dict_get key d = Some a.
Proof.
  revert i; induction d as [|[k a'] d IH]; intros i Hnd Hi; [done|].
  simpl in Hnd. apply NoDup_cons in Hnd as [Hk Hnd].
  destruct i as [|i]; simpl in Hi.
  - injection Hi as -> ->. simpl. by rewrite decide_True.
  - simpl. rewrite decide_False; [by eapply IH|].
    intros ->. apply Hk. apply list_elem_of_fmap. exists (key, a).
    split; [done|]. by eapply list_elem_of_lookup_2.
Qed.

Lemma dict_get_elem_of {A} (d : list (string * A)) (key : string) (a : A) :
  NoDup d.*1 → (key, a) ∈ d → dict_get key d = Some a.
Proof.
  intros Hnd [i Hi]%list_elem_of_lookup_1. by eapply dict_get_lookup.
Qed.

Lemma dict_get_Some {A} (d : list (string * A)) (key : string) (a : A) :
  dict_get key d = Some a → (key, a) ∈ d.
Proof.
  induction d as [|[k a'] d IH]; simpl; [done|].
  case_decide as Hk.
  - intros [= ->]. subst k. apply list_elem_of_here.
  - intros H. apply list_elem_of_further. by apply IH.
Qed.

Lemma dict_get_None {A} (d : list (string * A)) (key : string) :
  dict_get key d = None ↔ key ∉ d.*1.
Proof.
  induction d as [|[k a'] d IH]; simpl.
  - split; [intros _; apply not_elem_of_nil | done].
  - case_decide as Hk.
    + subst k. split; [done|]. intros H. exfalso. apply H. apply list_elem_of_here.
    + rewrite IH. cbn [fmap list_fmap fst]. rewrite not_elem_of_cons.
      split; [intros ?; split; [congruence | done] | by intros [_ ?]].
Qed.

(** ** Generalized indices *)

(** C7, first part: a field of [StableContainer[N]] at position [i] has
    generalized index [2^(D+1) + i], [D = get_depth N]. *)
Lemma StableContainer_field_gindex (cls : StableContainer.class)
    (i : nat) (key : string) (findex : nat) (ftyp : ViewType) :
  StableSpec.class_ok cls →
  StableContainer._field_indices cls !! i = Some (key, (findex, ftyp)) →
  key ≠ "__active_fields__" →
  StableContainer.key_to_static_gindex cls key
  = Ok (2 ^ (get_depth (StableContainer.N cls) + 1) + i).
Proof.
  intros (_ & _ & Hnd & Hpos) Hi Hkey.
  unfold StableContainer.key_to_static_gindex.
  rewrite decide_False by done.
  rewrite (dict_get_lookup _ _ _ _ Hnd Hi). cbn [of_option rbind].
  rewrite (Hpos _ _ _ _ Hi). by rewrite Nat.pow_add_r.
Qed.

Lemma Profile_container_field_gindex (cls : Profile.class) (b : Container.class)
    (i : nat) (key : string) (btyp : ViewType) :
  ProfileSpec.class_ok cls →
  Profile.B cls = Profile.ContainerBase b →
  Container.fields b !! i = Some (key, btyp) →
  key ≠ "__active_fields__" →
  Profile.key_to_static_gindex cls key
  = Ok (2 ^ get_depth (length (Container.fields b)) + i).
Proof.
  intros (Hnd & _ & Hb) HB Hi Hkey. rewrite HB in Hb.
  destruct Hb as (_ & _ & Hall).
  destruct (Hall _ _ _ Hi) as [ftyp Hin].
  unfold Profile.key_to_static_gindex.
  rewrite decide_False by done.
  rewrite (dict_get_elem_of _ _ _ Hnd Hin). cbn [of_option rbind].
  by rewrite HB.
Qed.

(** C7: [key_to_static_gindex] sends the field at position [i] of a
    [StableContainer[N]] to [2^(D+1) + i] with [D = ceil(log2 N)], the
    key [__active_fields__] to 3, and the field at position [i] of the
    plain Container base of a Profile to [2^D + i] with
    [D = ceil(log2 (field count of the base))]; two classes of the same
    capacity give a position the same index whatever their fields. *)
Theorem key_to_static_gindex_spec :
  (∀ cls i key findex ftyp,
     StableSpec.class_ok cls →
     StableContainer._field_indices cls !! i = Some (key, (findex, ftyp)) →
     key ≠ "__active_fields__" →
     StableContainer.key_to_static_gindex cls key
     = Ok (2 ^ (Nat.log2_up (StableContainer.N cls) + 1) + i)) ∧
  (∀ cls, StableContainer.key_to_static_gindex cls "__active_fields__" = Ok 3) ∧
  (∀ cls, Profile.key_to_static_gindex cls "__active_fields__" = Ok 3) ∧
  (∀ cls b i key btyp,
     ProfileSpec.class_ok cls →
     Profile.B cls = Profile.ContainerBase b →
     Container.fields b !! i = Some (key, btyp) →
     key ≠ "__active_fields__" →
     Profile.key_to_static_gindex cls key
     = Ok (2 ^ Nat.log2_up (length (Container.fields b)) + i)) ∧
  (∀ cls cls' i key key' findex findex' ftyp ftyp',
     StableSpec.class_ok cls → StableSpec.class_ok cls' →
     StableContainer.N cls = StableContainer.N cls' →
     StableContainer._field_indices cls !! i = Some (key, (findex, ftyp)) →
     StableContainer._field_indices cls' !! i = Some (key', (findex', ftyp')) →
     key ≠ "__active_fields__" → key' ≠ "__active_fields__" →
     StableContainer.key_to_static_gindex cls key
     = StableContainer.key_to_static_gindex cls' key').
Proof.
  split; [|split; [|split; [|split]]].
  - intros. by eapply StableContainer_field_gindex.
  - done.
  - done.
  - intros. by eapply Profile_container_field_gindex.
  - intros cls cls' i key key' findex findex' ftyp ftyp' Hok Hok' HN Hi Hi' Hk Hk'.
    rewrite (StableContainer_field_gindex _ _ _ _ _ Hok Hi Hk).
    rewrite (StableContainer_field_gindex _ _ _ _ _ Hok' Hi' Hk').
    by rewrite HN.
Qed.

(** ** Class declaration *)

Lemma enumerate_fields_inv (findex : nat) (annotations : list (string * annotation))
    (fields : list (string * (nat * ViewType))) :
  StableContainer.enumerate_fields findex annotations = Ok fields →
  fields.*1 = annotations.*1 ∧
  ∀ i fkey j ftyp, fields !! i = Some (fkey, (j, ftyp)) → j = findex + i.
Proof.
  revert findex fields; induction annotations as [|[fkey [t|t]] rest IH];
    intros findex fields H; simpl in H.
  - injection H as <-. split; [done|]. intros i ??? Hi. by rewrite lookup_nil in Hi.
  - inv_bind H. injection H as <-.
    destruct (IH _ _ Ha) as [Hk Hp]. split; [cbn [fmap list_fmap]; by rewrite <- Hk|].
    intros [|i] fkey' j ftyp Hi; simpl in Hi.
    + injection Hi as _ <- _. lia.
    + rewrite (Hp _ _ _ _ Hi). lia.
  - discriminate.
Qed.

(** A declared class is well formed. *)
Lemma declare_class_ok (n : Z) (annotations : list (string * annotation))
    (cls : StableContainer.class) :
  NoDup annotations.*1 →
  StableContainer.declare n annotations = Ok cls →
  StableSpec.class_ok cls.
Proof.
  intros Hnd H. unfold StableContainer.declare in H. inv_bind H.
  unfold StableContainer.__class_getitem__ in Ha.
  case_decide as Hn; [discriminate|]. injection Ha as <-.
  unfold StableContainer.__init_subclass__ in H. inv_bind H.
  case_decide as Hlen; [discriminate|]. injection H as <-.
  destruct (enumerate_fields_inv _ _ _ Ha) as [Hk Hp].
  repeat split; simpl.
  - lia.
  - lia.
  - by rewrite Hk.
  - intros i fkey findex ftyp Hi. by rewrite (Hp _ _ _ _ Hi).
Qed.

(** ** Field access *)


(** An assignment that raises leaves the backing as it was. *)
Lemma stable_set_raise (active_fields : Node → result Bitvector.t)
    (findex : nat) (ftyp : ViewType) (n : nat) (value : pyval) (self self' : Node) (e : exn) :
  stable_set active_fields findex ftyp n value self = (Err e, self') → self' = self.
Proof.
  unfold stable_set, mbind_method, get_backing, set_backing, lift.
  repeat (match goal with
          | |- context [match ?r with Ok _ => _ | Err _ => _ end] => destruct r
          end; try (intros [= _ <-]; done)).
Qed.

Lemma StableContainer_setattr_raise (cls : StableContainer.class)
    (key : string) (value : pyval) (self self' : Node) (e : exn) :
  StableContainer.__setattr__ cls key value self = (Err e, self') → self' = self.
Proof.
  unfold StableContainer.__setattr__, mbind_method, lift, raise.
  destruct (is_private key) as [[|]|]; try (intros [= _ <-]; done).
  destruct (of_option _ _) as [[findex ftyp]|]; try (intros [= _ <-]; done).
  apply stable_set_raise.
Qed.


(** ** Declared Profiles are well formed *)

Section profile_declared.
Import Profile.

Lemma container_field_indices_lookup (l : list (string * ViewType))
    (fkey : string) (findex : nat) :
  dict_get fkey (imap (fun i '(k, _) => (k, i)) l) = Some findex →
  ∃ btyp, l !! findex = Some (fkey, btyp).
Proof.
  intros [i Hi]%dict_get_Some%list_elem_of_lookup_1.
  rewrite list_lookup_imap in Hi.
  destruct (l !! i) as [[k btyp]|] eqn:Hl; [|done].
  simpl in Hi. injection Hi as -> ->. by exists btyp.
Qed.

Lemma bind_fields_inv (B : base) (annotations : list (string * annotation))
    (fields : list (string * (nat * ViewType * bool))) (o : nat)
    (fields' : list (string * (nat * ViewType * bool))) (o' : nat) :
  bind_fields B annotations fields o = Ok (fields', o') →
  ∃ new, fields' = fields ++ new ∧ new.*1 = annotations.*1 ∧
    o' = o + length (filter (fun '(_, (_, _, fopt)) => fopt = true) new) ∧
    ∀ fkey findex ftyp fopt, (fkey, (findex, ftyp, fopt)) ∈ new →
      (fopt = true → is_stable B = true) ∧
      ∃ btyp, base_field B fkey = Some (findex, btyp).
Proof.
  revert fields o; induction annotations as [|[fkey t] rest IH]; intros fields o H.
  - simpl in H. injection H as <- <-. exists []. rewrite app_nil_r, Nat.add_0_r.
    split; [done|]. split; [done|]. split; [done|].
    by intros ???? ?%not_elem_of_nil.
  - cbn [bind_fields] in H. inv_bind H. destruct a as [findex btyp].
    inv_bind H. destruct a as [ftyp fopt].
    destruct (compatible ftyp btyp); [|discriminate].
    apply IH in H as (new & -> & Hk & -> & Hall).
    exists ((fkey, (findex, ftyp, fopt)) :: new).
    split; [by rewrite <- app_assoc|]. split; [cbn [fmap list_fmap]; by rewrite Hk|].
    assert ((fopt = true → is_stable B = true)) as Hopt.
    { destruct t as [t|t]; [|by injection Ha0 as _ <-].
      destruct (is_stable B); [done | discriminate]. }
    split.
    + destruct fopt.
      * rewrite filter_cons_True by done. simpl. lia.
      * rewrite filter_cons_False by done. lia.
    + intros fkey' findex' ftyp' fopt' [[= -> -> -> ->]|Hin]%elem_of_cons;
        [|by eapply Hall].
      split; [done|]. exists btyp.
      destruct (base_field B fkey) as [[i b']|]; [|discriminate].
      simpl in Ha. by injection Ha as -> ->.
Qed.

Lemma check_base_fields_Ok (keys : list string)
    (fields : list (string * (nat * ViewType * bool))) :
  check_base_fields keys fields = Ok tt → ∀ k, k ∈ keys → k ∈ fields.*1.
Proof.
  induction keys as [|key keys IH]; intros H k Hk; [by apply not_elem_of_nil in Hk|].
  simpl in H. destruct (dict_get key fields) as [entry|] eqn:Hget; [|discriminate].
  apply elem_of_cons in Hk as [->|Hk]; [|by apply IH].
  apply dict_get_Some in Hget. apply list_elem_of_fmap. by exists (key, entry).
Qed.

(** A class that [Profile[B]] accepts, over a well-formed base, is well
    formed. *)
Lemma init_subclass_class_ok (base_cls : base) (annotations : list (string * annotation))
    (cls : class) :
  NoDup annotations.*1 →
  match base_cls with
  | StableBase b => StableSpec.class_ok b
  | ContainerBase b => NoDup (Container.fields b).*1
  end →
  __init_subclass__ base_cls annotations = Ok cls →
  ProfileSpec.class_ok cls.
Proof.
  intros Hnd Hbase H. unfold __init_subclass__ in H.
  inv_bind H. destruct a as [fields o]. inv_bind H. injection H as <-.
  apply bind_fields_inv in Ha as (new & Hf & Hk & -> & Hall). simpl in Hf. subst new.
  split; [by rewrite <- Hk in Hnd|]. split; [done|]. cbn [B _field_indices _o].
  destruct base_cls as [b|c]; cbn [is_stable negb andb base_keys base_field] in *.
  - split; [done|]. intros fkey findex ftyp fopt Hin.
    by destruct (Hall _ _ _ _ Hin) as [_ ?].
  - assert (∀ fkey findex ftyp fopt, (fkey, (findex, ftyp, fopt)) ∈ fields →
              fopt = false ∧ ∃ btyp, Container.fields c !! findex = Some (fkey, btyp))
      as Hin.
    { intros fkey findex ftyp fopt Hin. destruct (Hall _ _ _ _ Hin) as [Hopt [btyp Hb]].
      split; [destruct fopt; [by specialize (Hopt eq_refl) | done]|].
      destruct (dict_get fkey (Container._field_indices c)) as [i|] eqn:Hi; [|done].
      simpl in Hb. destruct (dict_get fkey (Container.fields c)); [|done].
      injection Hb as -> _. by apply container_field_indices_lookup. }
    split; [done|]. split; [done|].
    assert (∀ k, k ∈ (Container.fields c).*1 → k ∈ fields.*1) as Hsub.
    { destruct (bool_decide (length fields = length (Container.fields c).*1)) eqn:Hlen.
      - apply bool_decide_eq_true in Hlen. intros k Hkin.
        assert (fields.*1 ≡ₚ (Container.fields c).*1) as Hperm.
        { apply submseteq_length_Permutation.
          - apply NoDup_submseteq; [by rewrite Hk|].
            intros x ([key [[i t] o]] & -> & Hx)%list_elem_of_fmap.
            destruct (Hin _ _ _ _ Hx) as [_ [btyp Hl]]. simpl.
            apply list_elem_of_fmap. exists (key, btyp). split; [done|].
            by eapply list_elem_of_lookup_2.
          - rewrite !length_fmap in *. lia. }
        by rewrite Hperm.
      - cbn [negb] in Ha0. destruct a. by apply check_base_fields_Ok. }
    intros i fkey btyp Hi.
    assert (fkey ∈ fields.*1) as ([key [[j t] o]] & Hkey & Hx)%list_elem_of_fmap.
    { apply Hsub. apply list_elem_of_fmap. exists (fkey, btyp). split; [done|].
      by eapply list_elem_of_lookup_2. }
    simpl in Hkey. subst key. destruct (Hin _ _ _ _ Hx) as [-> [btyp' Hj]].
    assert (j = i) as ->.
    { eapply NoDup_lookup; [exact Hbase| |].
      - rewrite list_lookup_fmap, Hj. done.
      - rewrite list_lookup_fmap, Hi. done. }
    by exists t.
Qed.

End profile_declared.

(** ** Deserialization errors *)

Lemma check_unknown_spec (af : Bitvector.t) (findices : list nat) :
  (∀ i, i ∈ findices → ∃ b, Bitvector.get af i = Ok b) →
  (StableContainer.check_unknown af findices = Ok tt ∧
   ∀ i, i ∈ findices → Bitvector.get af i = Ok false) ∨
  (∃ j, j ∈ findices ∧ Bitvector.get af j = Ok true ∧
        StableContainer.check_unknown af findices = Err (Exception_unknown_field_index j)).
Proof.
  induction findices as [|findex rest IH]; intros Hget.
  - left. split; [done|]. intros i Hi. by apply not_elem_of_nil in Hi.
  - destruct (Hget findex) as [b Hb]; [apply list_elem_of_here|].
    simpl. rewrite Hb. cbn [rbind]. destruct b.
    + right. exists findex. split; [apply list_elem_of_here | done].
    + destruct IH as [[Hok Hall]|(j & Hj & Hbit & Herr)].
      * intros i Hi. apply Hget. by apply list_elem_of_further.
      * left. split; [done|]. intros i [->|Hi]%elem_of_cons; [done | by apply Hall].
      * right. exists j. split; [by apply list_elem_of_further | done].
Qed.

Lemma Bitvector_deserialize_valid (K : nat) (stream : list byte) (scope : nat)
    (v : Bitvector.t) (stream' : list byte) :
  Bitvector.deserialize K stream scope = Ok (v, stream') →
  ∃ bs, length bs = K ∧ v = Bitvector.view_from_backing K (Bitvector.pack K bs).
Proof.
  unfold Bitvector.deserialize. intros H. inv_bind H. destruct a as [bytes rest].
  inv_bind H. injection H as <- <-.
  apply Bitvector_decode_valid in Ha0 as (bs & Hlen & -> & _). eauto.
Qed.

(** C5: once the active-fields bitvector is read, a set bit at an index
    from [field_count] up to [N] makes [deserialize] raise the
    unknown-field error for the first such index; with none set,
    decoding goes on with the fields. *)
Theorem deserialize_unknown_bits (cls : StableContainer.class)
    (stream : list byte) (scope : nat) (active_fields : Bitvector.t) (stream' : list byte) :
  let field_count := length (StableContainer._field_indices cls) in
  let num_prefix_bytes := Bitvector.type_byte_length (StableContainer.N cls) in
  num_prefix_bytes ≤ scope →
  Bitvector.deserialize (StableContainer.N cls) stream num_prefix_bytes
    = Ok (active_fields, stream') →
  ((∃ i, field_count ≤ i < StableContainer.N cls ∧ Bitvector.get active_fields i = Ok true) →
   ∃ j, field_count ≤ j < StableContainer.N cls ∧
        Bitvector.get active_fields j = Ok true ∧
        StableContainer.deserialize cls stream scope
        = Err (Exception_unknown_field_index j)) ∧
  ((∀ i, field_count ≤ i < StableContainer.N cls →
         Bitvector.get active_fields i ≠ Ok true) →
   StableContainer.deserialize cls stream scope
   = StableContainer.deserialize_known cls active_fields stream' (scope - num_prefix_bytes)).
Proof.
  intros field_count num_prefix_bytes Hscope Hbits.
  destruct (Bitvector_deserialize_valid _ _ _ _ _ Hbits) as (bs & Hlen & ->).
  unfold StableContainer.deserialize.
  fold num_prefix_bytes. rewrite decide_False by lia. rewrite Hbits. cbn [rbind].
  fold field_count.
  destruct (check_unknown_spec
              (Bitvector.view_from_backing (StableContainer.N cls)
                 (Bitvector.pack (StableContainer.N cls) bs))
              (seq field_count (StableContainer.N cls - field_count)))
    as [[Hok Hall]|(j & Hj & Hbit & Herr)].
  { intros i [Hi1 Hi2]%elem_of_seq. rewrite Bitvector_get_pack by (done || lia). eauto. }
  - split.
    + intros (i & Hi & Hset). rewrite Hall in Hset; [discriminate|].
      apply elem_of_seq. lia.
    + intros _. by rewrite Hok.
  - apply elem_of_seq in Hj. split.
    + intros _. exists j. rewrite Herr. split; [lia | done].
    + intros Hnone. exfalso. apply (Hnone j); [lia | done].
Qed.


(** ** Assignment on a laid-out value *)

Section laid_out.
Import StableContainer StableSpec.
Context (cls : class).

Let D := get_depth (N cls).

Lemma capacity_fits : N cls ≤ 2 ^ D.
Proof. apply get_depth_spec. Qed.

Lemma laid_out_length (self : Node) (row : list Node) (bs : list bool) :
  laid_out cls self row bs → length row = 2 ^ D ∧ length bs = N cls.
Proof. intros (data & -> & Hbs & Hrow). split; [by eapply level_length | done]. Qed.

Lemma laid_out_leaf (self : Node) (row : list Node) (bs : list bool) (i : nat) :
  laid_out cls self row bs → i < 2 ^ D →
  ∃ fnode, row !! i = Some fnode ∧ leaf cls self i = Ok fnode.
Proof.
  intros (data & -> & Hbs & Hrow) Hi. unfold leaf. cbn [get_left rbind].
  by apply getter_level.
Qed.

Lemma laid_out_bit (self : Node) (row : list Node) (bs : list bool) (i : nat) :
  laid_out cls self row bs → i < N cls →
  ∃ b, bs !! i = Some b ∧ bit cls self i = Ok b.
Proof.
  intros (data & -> & Hbs & Hrow) Hi. unfold bit, active_fields. cbn [get_right rbind].
  rewrite Bitvector_get_pack by done.
  destruct (lookup_lt_is_Some_2 bs i) as [b Hb]; [lia|].
  exists b. split; [done|]. by rewrite (list_lookup_total_correct _ _ _ Hb).
Qed.

Lemma laid_out_bit_range (self : Node) (i : nat) (b : bool) :
  bit cls self i = Ok b → i < N cls.
Proof.
  unfold bit, active_fields. intros H. inv_bind H. inv_bind Ha. injection Ha as <-.
  by apply Bitvector_get_range in H.
Qed.

Lemma stable_set_laid_out (self : Node) (row : list Node) (bs : list bool)
    (findex : nat) (ftyp : ViewType) (value : pyval) (fnode : Node) :
  laid_out cls self row bs → findex < N cls →
  value_node ftyp value = Ok fnode →
  ∃ self',
    stable_set (active_fields cls) findex ftyp (N cls) value self = (Ok tt, self') ∧
    laid_out cls self' (<[findex := fnode]> row) (<[findex := negb (is_none value)]> bs).
Proof.
  intros (data & -> & Hbs & Hrow) Hi Hval.
  pose proof capacity_fits as Hfit.
  destruct (setter_level D data row findex fnode Hrow) as (data' & Hset & Hrow'); [lia|].
  exists (PairNode data' (Bitvector.pack (N cls) (<[findex := negb (is_none value)]> bs))).
  split.
  - unfold stable_set, mbind_method, get_backing, set_backing, lift, active_fields.
    cbn [get_right rbind]. rewrite Bitvector_set_pack by done.
    cbn [rebind_right Bitvector.get_backing]. rewrite Hval.
    cbn [get_left]. fold D. rewrite Hset. done.
  - exists data'. split; [done|]. split; [by rewrite length_insert | done].
Qed.

(** A successful [stable_set] stored some node for the value, at an
    index below the capacity. *)
Lemma stable_set_Ok (self self' : Node) (findex : nat) (ftyp : ViewType) (value : pyval) :
  stable_set (active_fields cls) findex ftyp (N cls) value self = (Ok tt, self') →
  findex < N cls ∧ ∃ fnode, value_node ftyp value = Ok fnode.
Proof.
  unfold stable_set, mbind_method, get_backing, set_backing, lift.
  destruct (active_fields cls self) as [af|] eqn:Haf; [|discriminate].
  destruct (Bitvector.set af findex _) as [af'|] eqn:Hset; [|discriminate].
  destruct (rebind_right self _) as [nb|]; [|discriminate].
  destruct (value_node ftyp value) as [fnode|]; [|discriminate].
  intros _. split; [|by eauto].
  unfold active_fields in Haf. inv_bind Haf. injection Haf as <-.
  unfold Bitvector.set in Hset. by case_decide.
Qed.

End laid_out.

Lemma StableContainer_field_index (cls : StableContainer.class)
    (key : string) (findex : nat) (ftyp : ViewType) :
  StableSpec.class_ok cls →
  dict_get key (StableContainer._field_indices cls) = Some (findex, ftyp) →
  findex < length (StableContainer._field_indices cls) ∧
  StableContainer._field_indices cls !! findex = Some (key, (findex, ftyp)).
Proof.
  intros (_ & _ & _ & Hpos) [i Hi]%dict_get_Some%list_elem_of_lookup_1.
  pose proof (Hpos _ _ _ _ Hi) as ->. split; [by eapply lookup_lt_Some | done].
Qed.


(** ** Presence coherence *)

Section coherence.
Import StableContainer StableSpec.
Context (cls : class).

Lemma new_fields_coherent (fs : list (string * (nat * ViewType)))
    (kwargs : gmap string pyval) (nodes : list Node) (bs : list bool)
    (kw' : gmap string pyval) (nodes' : list Node) (af' : Bitvector.t) :
  length bs = N cls →
  (∀ j fkey findex ftyp,
     fs !! j = Some (fkey, (findex, ftyp)) → findex = length nodes + j) →
  (∀ i, i < length nodes → bs !! i = Some false → nodes !! i = Some (zero_node 0)) →
  new_fields cls fs kwargs nodes
    (Bitvector.view_from_backing (N cls) (Bitvector.pack (N cls) bs))
    = Ok (kw', nodes', af') →
  ∃ bs', af' = Bitvector.view_from_backing (N cls) (Bitvector.pack (N cls) bs') ∧
    length bs' = N cls ∧
    length nodes' = length nodes + length fs ∧
    ∀ i, i < length nodes' → bs' !! i = Some false → nodes' !! i = Some (zero_node 0).
Proof.
  revert kwargs nodes bs.
  induction fs as [|[fkey [findex ftyp]] fs IH]; intros kwargs nodes bs Hbs Hpos Hinv H.
  - simpl in H. injection H as <- <- <-. exists bs.
    rewrite Nat.add_0_r. done.
  - cbn [new_fields] in H. inv_bind H. destruct a as [fnode af].
    assert (findex = length nodes) as ->
      by (rewrite (Hpos 0 fkey findex ftyp eq_refl); lia).
    assert (∃ b, af = Bitvector.view_from_backing (N cls)
                        (Bitvector.pack (N cls) (<[length nodes := b]> bs)) ∧
                 length nodes < N cls ∧ (b = false → fnode = zero_node 0))
      as (b & -> & Hlt & Hzero).
    { assert (∀ b af0,
                Bitvector.set (Bitvector.view_from_backing (N cls)
                  (Bitvector.pack (N cls) bs)) (length nodes) b = Ok af0 →
                af0 = Bitvector.view_from_backing (N cls)
                        (Bitvector.pack (N cls) (<[length nodes := b]> bs)) ∧
                length nodes < N cls) as Hset.
      { intros b af0 Hs.
        assert (length nodes < N cls) as Hlt
          by (unfold Bitvector.set in Hs; by case_decide).
        rewrite Bitvector_set_pack in Hs by done. split; [congruence | done]. }
      destruct (default PyNone (kwargs !! fkey)) as [|typ backing|z|raw].
      - inv_bind Ha. injection Ha as <- <-.
        destruct (Hset _ _ Ha0) as [-> Hlt]. by exists false.
      - inv_bind Ha. injection Ha as <- <-.
        destruct (Hset _ _ Ha0) as [-> Hlt]. by exists true.
      - inv_bind Ha. inv_bind Ha. injection Ha as <- <-.
        destruct (Hset _ _ Ha1) as [-> Hlt]. by exists true.
      - inv_bind Ha. inv_bind Ha. injection Ha as <- <-.
        destruct (Hset _ _ Ha1) as [-> Hlt]. by exists true. }
    apply IH in H as (bs' & -> & Hbs' & Hlen & Hinv').
    + exists bs'. split; [done|]. split; [done|]. split; [|done].
      rewrite Hlen, length_app. simpl. lia.
    + by rewrite length_insert.
    + intros j fkey' findex' ftyp' Hj.
      rewrite (Hpos (S j) fkey' findex' ftyp' Hj), length_app. simpl. lia.
    + intros i Hi Hbit. rewrite length_app in Hi. simpl in Hi.
      destruct (decide (i = length nodes)) as [->|Hne].
      * rewrite list_lookup_insert_eq in Hbit by lia. injection Hbit as ->.
        rewrite lookup_app_r by lia. rewrite Nat.sub_diag. simpl.
        by rewrite Hzero.
      * rewrite list_lookup_insert_ne in Hbit by done.
        rewrite lookup_app_l by lia. apply Hinv; [lia | done].
Qed.

Lemma new_coherent (kwargs : gmap string pyval) (self : Node) :
  class_ok cls → __new__ cls None kwargs = Ok self → coherent cls self.
Proof.
  intros (Hpos0 & Hcount & Hnd & Hpos) H. unfold __new__ in H.
  inv_bind H. destruct a as [[kw' nodes'] af'].
  case_decide; [discriminate|]. inv_bind H. injection H as <-.
  unfold Bitvector.new in Ha.
  apply new_fields_coherent in Ha as (bs' & -> & Hbs' & Hlen & Hinv).
  - simpl in Hlen. pose proof (capacity_fits cls) as Hfit.
    unfold subtree_fill_to_contents in Ha0.
    case_decide as Hfill; [|discriminate]. injection Ha0 as <-.
    exists (nodes' ++ replicate (2 ^ get_depth (N cls) - length nodes') (zero_node 0)), bs'.
    split.
    + eexists. split; [done|]. split; [done|]. by apply level_fill.
    + intros i Hi Hbit. destruct (decide (i < length nodes')) as [Hlt|Hge].
      * rewrite lookup_app_l by done. by apply Hinv.
      * rewrite lookup_app_r by lia. apply lookup_replicate_2. lia.
  - apply length_replicate.
  - intros j fkey findex ftyp Hj. simpl. by eapply Hpos.
  - simpl. lia.
Qed.

Lemma setattr_coherent (self self' : Node) (key : string) (value : pyval) (r : result unit) :
  coherent cls self → __setattr__ cls key value self = (r, self') → coherent cls self'.
Proof.
  intros Hinv H. destruct r as [[]|e].
  2: { by rewrite (StableContainer_setattr_raise _ _ _ _ _ _ H). }
  unfold __setattr__, mbind_method, lift, raise in H.
  destruct (is_private key) as [[|]|]; try discriminate.
  destruct (of_option _ _) as [[findex ftyp]|]; try discriminate.
  destruct (stable_set_Ok cls _ _ _ _ _ H) as (Hlt & fnode & Hval).
  destruct Hinv as (row & bs & Hlaid & Hinv).
  destruct (stable_set_laid_out cls self row bs findex ftyp value fnode Hlaid Hlt Hval)
    as (self'' & Hset & Hlaid').
  rewrite Hset in H. injection H as <-.
  destruct (laid_out_length _ _ _ _ Hlaid) as [Hrow Hbs].
  pose proof (capacity_fits cls) as Hfit.
  exists (<[findex := fnode]> row), (<[findex := negb (is_none value)]> bs).
  split; [done|]. intros i Hi Hbit.
  destruct (decide (i = findex)) as [->|Hne].
  - rewrite list_lookup_insert_eq in Hbit by lia.
    rewrite list_lookup_insert_eq by lia.
    destruct value; simpl in Hbit; try discriminate.
    unfold value_node in Hval. by injection Hval as <-.
  - rewrite list_lookup_insert_ne in Hbit by done.
    rewrite list_lookup_insert_ne by done. by apply Hinv.
Qed.

Lemma reachable_coherent (self : Node) :
  class_ok cls → reachable cls self → coherent cls self.
Proof.
  intros Hok Hreach. induction Hreach as [kwargs self Hnew|self key value r self' _ IH Hset].
  - by eapply new_coherent.
  - by eapply setattr_coherent.
Qed.

End coherence.

(** C2 (as the code has it): on a StableContainer built from a field map
    and assigned to any number of times, for every index [i] below [N],
    if bit [i] of the active fields is 0 then leaf [i] of the data
    subtree is [zero_node(0)].  The converse is not claimed: a present
    field whose backing is the zero chunk has bit 1 and a zero leaf. *)
Theorem presence_coherence (cls : StableContainer.class) (self : Node) (i : nat) :
  StableSpec.class_ok cls →
  StableSpec.reachable cls self →
  i < StableContainer.N cls →
  ∃ b fnode,
    StableSpec.bit cls self i = Ok b ∧
    StableSpec.leaf cls self i = Ok fnode ∧
    (b = false → fnode = zero_node 0).
Proof.
  intros Hok Hreach Hi.
  destruct (reachable_coherent cls self Hok Hreach) as (row & bs & Hlaid & Hinv).
  pose proof (capacity_fits cls) as Hfit.
  destruct (laid_out_bit cls self row bs i Hlaid Hi) as (b & Hb & Hbit).
  destruct (laid_out_leaf cls self row bs i Hlaid) as (fnode & Hf & Hleaf); [lia|].
  exists b, fnode. split; [done|]. split; [done|]. intros ->.
  specialize (Hinv i Hi Hb). congruence.
Qed.

(** ** The side buffer of [Profile.serialize] *)

Lemma Profile_serialize_fields_buffer (fs : list (string * (nat * ViewType * bool)))
    (active_fields : option Bitvector.t) (data : Node) (n : nat)
    (stream : list byte) (temp : list byte) (num_data_bytes : nat)
    (stream' : list byte) (temp_dyn_stream' : option (list byte)) (num_data_bytes' : nat) :
  Profile.serialize_fields fs active_fields data n stream (Some temp) num_data_bytes
    = Ok (stream', temp_dyn_stream', num_data_bytes') →
  ∃ temp', temp_dyn_stream' = Some temp' ∧
           num_data_bytes' + length temp = num_data_bytes + length temp'.
Proof.
  revert stream temp num_data_bytes.
  induction fs as [|[fkey [[findex ftyp] fopt]] fs IH]; intros stream temp ndb H.
  - simpl in H. injection H as <- <- <-. by exists temp.
  - cbn [Profile.serialize_fields] in H. inv_bind H. destruct a as [|].
    + by apply IH in H.
    + inv_bind H. destruct (View.is_fixed_byte_length ftyp).
      * inv_bind H. by apply IH in H.
      * inv_bind H. inv_bind H. inv_bind H. simpl in Ha2. injection Ha2 as <-.
        apply IH in H as (temp' & -> & Hlen). exists temp'. split; [done|].
        rewrite length_app in Hlen. lia.
Qed.

(** C9: when [Profile.serialize] has a dynamic field to write, the read
    of the side buffer limited to [num_data_bytes] returns the whole
    buffer, since [num_data_bytes] is by then at least its length; the
    output ends with the entire side buffer. *)
Theorem Profile_serialize_writes_whole_buffer (cls : Profile.class) (self : Node)
    (num_prefix_bytes : nat) (stream : list byte)
    (temp_dyn_stream : option (list byte)) (num_data_bytes : nat) :
  Profile.serialize_state cls self
    = Ok (num_prefix_bytes, stream, true, temp_dyn_stream, num_data_bytes) →
  ∃ temp, temp_dyn_stream = Some temp ∧
          length temp ≤ num_data_bytes ∧
          take num_data_bytes temp = temp ∧
          Profile.serialize cls self = Ok (stream ++ temp, num_prefix_bytes + num_data_bytes).
Proof.
  intros H. unfold Profile.serialize. rewrite H. cbn [rbind].
  unfold Profile.serialize_state in H.
  inv_bind H. destruct a as [optional_fields prefix].
  inv_bind H. destruct a as [[ndb0 has_dyn] oindex].
  case_decide; [discriminate|].
  inv_bind H. destruct a as [[data active_fields] n].
  inv_bind H. destruct a as [[stream1 temp1] ndb1].
  injection H as <- <- -> <- <-.
  apply Profile_serialize_fields_buffer in Ha2 as (temp & -> & Hlen).
  simpl in Hlen. exists temp. split; [done|].
  assert (length temp ≤ ndb1) as Hle by lia.
  split; [done|]. cbn [of_option rbind]. by rewrite take_ge by done.
Qed.

(** ** The wire layout *)

Section layout.
Import Layout.

Lemma items_ok_cons (it : item) (its : list item) :
  items_ok (it :: its) →
  (View.ok it.1.2 ∧ View.valid_backing it.1.2 it.2) ∧ items_ok its.
Proof.
  intros H. split.
  - destruct it as [[fkey ftyp] fnode]. apply (H fkey). apply list_elem_of_here.
  - intros fkey ftyp fnode Hin. apply (H fkey ftyp fnode). by apply list_elem_of_further.
Qed.

(** What the View contract gives for the bytes of an item. *)
Lemma serialize_ok (ftyp : ViewType) (fnode : Node) (bs : list byte) :
  View.ok ftyp → View.valid_backing ftyp fnode →
  View.serialize ftyp fnode = Ok bs →
  View.decode ftyp bs = Ok fnode ∧
  View.min_byte_length ftyp ≤ length bs ≤ View.max_byte_length ftyp ∧
  (View.is_fixed_byte_length ftyp = true → length bs = View.type_byte_length ftyp).
Proof.
  intros [Hfix Hrt] Hvalid Hser.
  destruct (Hrt fnode Hvalid) as (bs' & Hser' & Hdec & Hlen).
  assert (bs' = bs) as -> by congruence.
  split; [done|]. split; [done|]. intros Hf. destruct (Hfix Hf). lia.
Qed.

Lemma serialize_total (ftyp : ViewType) (fnode : Node) :
  View.ok ftyp → View.valid_backing ftyp fnode →
  ∃ bs, View.serialize ftyp fnode = Ok bs.
Proof. intros [_ Hrt] Hvalid. destruct (Hrt fnode Hvalid) as (bs & ? & _). eauto. Qed.

Lemma encodes_fixed_length its start fixed dyn offs :
  encodes its start fixed dyn offs → items_ok its → length fixed = fixed_size its.
Proof.
  induction 1 as [|fkey ftyp fnode its start bs fixed dyn offs Hfix Hser _ IH
                  |fkey ftyp fnode its start off bs fixed dyn offs Hfix Hoff Hser _ IH];
    intros Hok.
  - done.
  - apply items_ok_cons in Hok as [[Hv Hb] Hok]. simpl in Hv, Hb.
    destruct (serialize_ok _ _ _ Hv Hb Hser) as (_ & _ & Hlen).
    rewrite length_app, IH, Hlen by done.
    unfold fixed_size. cbn [fmap list_fmap sum_list]. unfold fixed_cost at 2.
    by rewrite Hfix.
  - apply items_ok_cons in Hok as [_ Hok].
    rewrite length_app, IH, (encode_offset_length _ _ Hoff) by done.
    unfold fixed_size. cbn [fmap list_fmap sum_list]. unfold fixed_cost at 2.
    by rewrite Hfix.
Qed.


Lemma encodes_no_dyn its start fixed dyn offs :
  encodes its start fixed dyn offs → has_dyn its = false → dyn = [].
Proof.
  induction 1 as [| |fkey ftyp fnode its start off bs fixed dyn offs Hfix]; intros Hd.
  - done.
  - simpl in Hd. apply orb_false_iff in Hd as [_ Hd]. auto.
  - simpl in Hd. rewrite Hfix in Hd. discriminate.
Qed.

Lemma encodes_has_dyn its start fixed dyn offs :
  encodes its start fixed dyn offs → has_dyn its = true → offs ≠ [].
Proof.
  induction 1 as [|fkey ftyp fnode its start bs fixed dyn offs Hfix| ]; intros Hd.
  - done.
  - simpl in Hd. rewrite Hfix in Hd. simpl in Hd. auto.
  - done.
Qed.

Lemma encodes_size its start fixed dyn offs :
  encodes its start fixed dyn offs → items_ok its →
  sum_list ((fun '(_, ftyp, _) => min_cost ftyp) <$> its)
    ≤ length fixed + length dyn
    ≤ sum_list ((fun '(_, ftyp, _) => max_cost ftyp) <$> its).
Proof.
  induction 1 as [|fkey ftyp fnode its start bs fixed dyn offs Hfix Hser _ IH
                  |fkey ftyp fnode its start off bs fixed dyn offs Hfix Hoff Hser _ IH];
    intros Hok.
  - simpl. lia.
  - apply items_ok_cons in Hok as [[Hv Hb] Hok]. simpl in Hv, Hb.
    destruct (serialize_ok _ _ _ Hv Hb Hser) as (_ & Hlen & _).
    specialize (IH Hok). rewrite length_app.
    cbn [fmap list_fmap sum_list]. unfold min_cost at 1, max_cost at 1.
    rewrite Hfix. simpl in *. lia.
  - apply items_ok_cons in Hok as [[Hv Hb] Hok]. simpl in Hv, Hb.
    destruct (serialize_ok _ _ _ Hv Hb Hser) as (_ & Hlen & _).
    specialize (IH Hok). rewrite !length_app, (encode_offset_length _ _ Hoff).
    cbn [fmap list_fmap sum_list]. unfold min_cost at 1, max_cost at 1.
    rewrite Hfix. simpl in *. lia.
Qed.


Lemma record_app (fv : gmap string pyval) (l1 l2 : list (string * pyval)) :
  record fv (l1 ++ l2) = record (record fv l1) l2.
Proof. apply foldl_app. Qed.



End layout.

(** ** Serialization of the fields *)

Section serialize_fields.
Import Layout.
Context (present : nat → bool) (leaf : nat → Node).
Context (active_fields : option Bitvector.t) (data : Node) (n : nat).

Local Abbreviation reads := (Layout.reads present leaf active_fields data n).

Lemma reads_cons entry fs : reads (entry :: fs) → reads fs.
Proof.
  intros H fkey findex ftyp fopt Hin.
  apply (H fkey findex ftyp fopt). by apply list_elem_of_further.
Qed.

Lemma Profile_serialize_fields_encodes (fs : list (string * (nat * ViewType * bool)))
    (stream : list byte) (temp : option (list byte)) (ndb : nat)
    (stream' : list byte) (temp' : option (list byte)) (ndb' : nat) :
  reads fs →
  Profile.serialize_fields fs active_fields data n stream temp ndb
    = Ok (stream', temp', ndb') →
  ∃ fixed dyn offs,
    encodes (present_items present leaf (strip <$> fs)) ndb fixed dyn offs ∧
    stream' = stream ++ fixed ∧
    ndb' = ndb + length dyn ∧
    temp' = (fun t => t ++ dyn) <$> temp.
Proof.
  revert stream temp ndb.
  induction fs as [|[fkey [[findex ftyp] fopt]] fs IH]; intros stream temp ndb Hreads H.
  - simpl in H. injection H as <- <- <-.
    exists [], [], []. split; [constructor|]. rewrite app_nil_r, Nat.add_0_r.
    split; [done|]. split; [done|]. destruct temp; simpl; by rewrite ?app_nil_r.
  - destruct (Hreads fkey findex ftyp fopt) as [Hskip Hget]; [apply list_elem_of_here|].
    apply reads_cons in Hreads.
    cbn [Profile.serialize_fields] in H.
    assert (match active_fields with
            | Some af => do bit <- Bitvector.get af findex; Ok (negb bit)
            | None => Ok false
            end = Ok (negb (present findex))) as Hs.
    { destruct active_fields; [by rewrite Hskip | by rewrite Hskip]. }
    rewrite Hs in H. cbn [rbind] in H.
    cbn [fmap list_fmap strip present_items].
    destruct (present findex); cbn [negb] in H.
    + rewrite Hget in H. cbn [rbind] in H.
      destruct (View.is_fixed_byte_length ftyp) eqn:Hfix.
      * inv_bind H. apply IH in H as (fixed & dyn & offs & Henc & -> & -> & ->); [|done].
        exists (a ++ fixed), dyn, offs. split; [by constructor|].
        by rewrite app_assoc.
      * inv_bind H. inv_bind H. inv_bind H.
        apply IH in H as (fixed & dyn & offs & Henc & -> & -> & ->); [|done].
        exists (a ++ fixed), (a1 ++ dyn), ({| fo_key := fkey; fo_typ := ftyp; fo_offset := ndb |} :: offs).
        split; [by constructor|]. rewrite app_assoc, length_app.
        split; [done|]. split; [lia|].
        destruct temp as [t|]; [|discriminate]. simpl in Ha0. injection Ha0 as <-.
        simpl. by rewrite app_assoc.
    + by apply IH in H.
Qed.

Lemma strip_as_required (fs : list (string * (nat * ViewType))) :
  strip <$> (as_required <$> fs) = fs.
Proof.
  induction fs as [|[fkey [findex ftyp]] fs IH]; [done|].
  cbn [fmap list_fmap] in *. by rewrite IH.
Qed.

End serialize_fields.

Section stable_fields.
Import Layout.
Context (cls : StableContainer.class) (present : nat → bool) (leaf : nat → Node).
Context (af : Bitvector.t).

(** The bit read for each field of [fs]. *)
Local Abbreviation bits_read fs :=
  (∀ fkey findex ftyp, (fkey, (findex, ftyp)) ∈ fs →
     Bitvector.get af findex = Ok (present findex)).

Lemma StableContainer_serialize_fields_as_Profile
    (fs : list (string * (nat * ViewType))) (data : Node)
    (stream : list byte) (temp : option (list byte)) (ndb : nat) :
  StableContainer.serialize_fields cls fs af data stream temp ndb
  = Profile.serialize_fields (as_required <$> fs) (Some af) data
      (StableContainer.N cls) stream temp ndb.
Proof.
  revert stream temp ndb.
  induction fs as [|[fkey [findex ftyp]] fs IH]; intros stream temp ndb; [done|].
  cbn [fmap list_fmap as_required StableContainer.serialize_fields
       Profile.serialize_fields].
  destruct (Bitvector.get af findex) as [[|]|]; cbn [rbind negb]; [|by rewrite IH|done].
  destruct (getter _ _); cbn [rbind]; [|done].
  destruct (View.is_fixed_byte_length ftyp).
  - destruct (View.serialize _ _); cbn [rbind]; [by rewrite IH | done].
  - destruct (encode_offset _); cbn [rbind]; [|done].
    destruct (of_option _ _); cbn [rbind]; [|done].
    destruct (View.serialize _ _); cbn [rbind]; [by rewrite IH | done].
Qed.

Lemma StableContainer_serialize_sizes (fs : list (string * (nat * ViewType)))
    (ndb : nat) (hd : bool) :
  bits_read fs →
  StableContainer.serialize_sizes fs af ndb hd
  = Ok (ndb + fixed_size (present_items present leaf fs),
        hd || has_dyn (present_items present leaf fs)).
Proof.
  revert ndb hd.
  induction fs as [|[fkey [findex ftyp]] fs IH]; intros ndb hd Hbits.
  - simpl. by rewrite Nat.add_0_r, orb_false_r.
  - cbn [StableContainer.serialize_sizes present_items].
    rewrite (Hbits fkey findex ftyp) by apply list_elem_of_here. cbn [rbind].
    assert (bits_read fs) as Hbits'
      by (intros ??? Hin; eapply Hbits; by apply list_elem_of_further).
    destruct (present findex); cbn [negb].
    + unfold fixed_size, has_dyn. cbn [fmap list_fmap sum_list existsb].
      unfold fixed_cost at 1.
      destruct (View.is_fixed_byte_length ftyp); rewrite IH by done;
        cbn [negb orb]; unfold fixed_size, has_dyn.
      * unfold id. by rewrite Nat.add_assoc.
      * unfold id. by rewrite Nat.add_assoc, orb_true_r.
    + by apply IH.
Qed.


End stable_fields.

Section serialize_total.
Import Layout.
Context (present : nat → bool) (leaf : nat → Node).
Context (active_fields : option Bitvector.t) (data : Node) (n : nat).

(** The second loop of [serialize] succeeds when every offset fits in
    four bytes. *)
Lemma Profile_serialize_fields_total (fs : list (string * (nat * ViewType * bool)))
    (stream : list byte) (temp : option (list byte)) (ndb : nat) :
  reads present leaf active_fields data n fs →
  items_ok (present_items present leaf (strip <$> fs)) →
  (has_dyn (present_items present leaf (strip <$> fs)) = true → is_Some temp) →
  (N.of_nat (ndb + dyn_max (present_items present leaf (strip <$> fs))) < 2 ^ 32)%N →
  ∃ r, Profile.serialize_fields fs active_fields data n stream temp ndb = Ok r.
Proof.
  revert stream temp ndb.
  induction fs as [|[fkey [[findex ftyp] fopt]] fs IH];
    intros stream temp ndb Hreads Hok Htemp Hfit.
  - simpl. eauto.
  - destruct (Hreads fkey findex ftyp fopt) as [Hskip Hget]; [apply list_elem_of_here|].
    assert (reads present leaf active_fields data n fs) as Hreads'.
    { intros k i t o Hin. apply (Hreads k i t o). by apply list_elem_of_further. }
    cbn [Profile.serialize_fields].
    assert (match active_fields with
            | Some af => do bit <- Bitvector.get af findex; Ok (negb bit)
            | None => Ok false
            end = Ok (negb (present findex))) as ->.
    { destruct active_fields; [by rewrite Hskip | by rewrite Hskip]. }
    cbn [rbind]. cbn [fmap list_fmap strip present_items] in Hok, Htemp, Hfit.
    destruct (present findex); cbn [negb].
    + apply items_ok_cons in Hok as [[Hv Hb] Hok]. simpl in Hv, Hb.
      destruct (serialize_total _ _ Hv Hb) as [bs Hser].
      destruct (serialize_ok _ _ _ Hv Hb Hser) as (_ & Hlen & _).
      rewrite Hget. cbn [rbind].
      unfold dyn_max in Hfit. cbn [fmap list_fmap sum_list] in Hfit.
      unfold has_dyn in Htemp. cbn [existsb] in Htemp.
      destruct (View.is_fixed_byte_length ftyp) eqn:Hfix.
      * rewrite Hser. cbn [rbind]. apply IH; [done | done | done |].
        unfold dyn_max, sum_list, id in *. lia.
      * destruct (encode_offset_total ndb) as [off ->].
        { unfold sum_list, id in Hfit. lia. }
        destruct Htemp as [t ->]; [done|]. cbn [rbind of_option]. rewrite Hser.
        cbn [rbind]. apply IH; [done | done | by eauto |].
        unfold dyn_max, sum_list, id in *. lia.
    + by apply IH.
Qed.

Lemma fixed_size_dyn_max (its : list item) :
  items_ok its →
  fixed_size its + dyn_max its
  = sum_list ((fun '(_, ftyp, _) => max_cost ftyp) <$> its).
Proof.
  induction its as [|[[fkey ftyp] fnode] its IH]; intros Hok; [done|].
  apply items_ok_cons in Hok as [[[Hfix _] _] Hok]. simpl in Hfix.
  specialize (IH Hok). unfold fixed_size, dyn_max in *.
  cbn [fmap list_fmap sum_list]. unfold fixed_cost at 1, max_cost at 1.
  destruct (View.is_fixed_byte_length ftyp).
  - destruct (Hfix eq_refl) as [_ ->]. unfold sum_list, id in *. lia.
  - unfold sum_list, id in *. lia.
Qed.

End serialize_total.

(** ** Rebuilding a value from the decoded fields *)

Section items.
Import Layout.

Lemma present_items_elem present leaf (fs : list (string * (nat * ViewType)))
    fkey ftyp fnode :
  (fkey, ftyp, fnode) ∈ present_items present leaf fs ↔
  ∃ findex, (fkey, (findex, ftyp)) ∈ fs ∧ present findex = true ∧ fnode = leaf findex.
Proof.
  induction fs as [|[k [i t]] fs IH]; cbn [present_items].
  - split; [by intros ?%not_elem_of_nil | by intros (? & ?%not_elem_of_nil & _)].
  - destruct (present i) eqn:Hp.
    + rewrite elem_of_cons, IH. split.
      * intros [[= -> -> ->]|(j & Hin & ? & ?)].
        -- exists i. split; [apply list_elem_of_here | done].
        -- exists j. split; [by apply list_elem_of_further | done].
      * intros (j & [[= -> -> ->]|Hin]%elem_of_cons & Hj & ->); [by left|].
        right. by exists j.
    + rewrite IH. split.
      * intros (j & Hin & ? & ?). exists j. split; [by apply list_elem_of_further | done].
      * intros (j & [[= -> -> ->]|Hin]%elem_of_cons & Hj & ->); [congruence|].
        by exists j.
Qed.





End items.

Section rebuild.
Context (cls : StableContainer.class) (present : nat → bool) (leaf : nat → Node).

(** What [__new__] must find in [kwargs] for the fields of [fs] to
    come out as they are in the value. *)
Local Abbreviation inputs_of kwargs fs :=
  (∀ fkey findex ftyp, (fkey, (findex, ftyp)) ∈ fs →
     findex < StableContainer.N cls ∧
     if present findex
     then ∃ typ, (kwargs : gmap string pyval) !! fkey = Some (PyView typ (leaf findex))
     else default PyNone (kwargs !! fkey) = PyNone).

Lemma new_fields_rebuild (fs : list (string * (nat * ViewType)))
    (kwargs : gmap string pyval) (nodes : list Node) (bsx : list bool) :
  NoDup fs.*1 → length bsx = StableContainer.N cls → inputs_of kwargs fs →
  StableContainer.new_fields cls fs kwargs nodes
    (Bitvector.view_from_backing (StableContainer.N cls)
       (Bitvector.pack (StableContainer.N cls) bsx))
  = Ok (foldl (fun m '(k, _) => delete k m) kwargs fs,
        nodes ++ ((fun '(_, (i, _)) => if present i then leaf i else zero_node 0) <$> fs),
        Bitvector.view_from_backing (StableContainer.N cls)
          (Bitvector.pack (StableContainer.N cls)
             (foldl (fun b '(_, (i, _)) => <[i := present i]> b) bsx fs))).
Proof.
  revert kwargs nodes bsx.
  induction fs as [|[fkey [findex ftyp]] fs IH]; intros kwargs nodes bsx Hnd Hlen Hin.
  - simpl. by rewrite app_nil_r.
  - cbn [fmap list_fmap fst] in Hnd. apply NoDup_cons in Hnd as [Hk Hnd].
    destruct (Hin fkey findex ftyp) as [Hlt Hinput]; [apply list_elem_of_here|].
    assert (inputs_of (delete fkey kwargs) fs) as Hin'.
    { intros fkey' findex' ftyp' Hin'.
      destruct (Hin fkey' findex' ftyp') as [Hlt' Hinput']; [by apply list_elem_of_further|].
      split; [done|]. rewrite lookup_delete_ne; [done|].
      intros ->. apply Hk. apply list_elem_of_fmap. by exists (fkey', (findex', ftyp')). }
    cbn [StableContainer.new_fields].
    destruct (present findex) eqn:Hp.
    + destruct Hinput as [typ ->]. unfold default. cbn [from_option id].
      rewrite Bitvector_set_pack by done. cbn [rbind].
      rewrite (IH (delete fkey kwargs) (nodes ++ [leaf findex]) (<[findex:=true]> bsx) Hnd).
      2: by rewrite length_insert. 2: done.
      cbn [fmap list_fmap foldl]. rewrite Hp. by rewrite <- app_assoc.
    + rewrite Hinput.
      rewrite Bitvector_set_pack by done. cbn [rbind].
      rewrite (IH (delete fkey kwargs) (nodes ++ [zero_node 0]) (<[findex:=false]> bsx) Hnd).
      2: by rewrite length_insert. 2: done.
      cbn [fmap list_fmap foldl]. rewrite Hp. by rewrite <- app_assoc.
Qed.

Lemma foldl_delete_lookup {A} (fs : list (string * A)) (kwargs : gmap string pyval)
    (k : string) :
  foldl (fun m '(k, _) => delete k m) kwargs fs !! k
  = if decide (k ∈ fs.*1) then None else kwargs !! k.
Proof.
  revert kwargs; induction fs as [|[k' a] fs IH]; intros kwargs.
  - cbn [foldl fmap list_fmap]. by rewrite decide_False by apply not_elem_of_nil.
  - cbn [foldl fmap list_fmap fst]. rewrite IH.
    destruct (decide (k ∈ fs.*1)) as [Hin|Hin].
    + by rewrite decide_True by (by apply list_elem_of_further).
    + destruct (decide (k = k')) as [->|Hne].
      * rewrite decide_True by apply list_elem_of_here. apply lookup_delete_eq.
      * rewrite decide_False by (rewrite not_elem_of_cons; done).
        by apply lookup_delete_ne.
Qed.

Lemma foldl_delete_empty {A} (fs : list (string * A)) (kwargs : gmap string pyval) :
  (∀ k, k ∉ fs.*1 → kwargs !! k = None) →
  foldl (fun m '(k, _) => delete k m) kwargs fs = ∅.
Proof.
  intros H. apply map_eq. intros k. rewrite foldl_delete_lookup, lookup_empty.
  case_decide; [done | by apply H].
Qed.


End rebuild.

(** ** The codec of StableContainer *)

Section stable_codec.
Import Layout StableContainer StableSpec.
Context (cls : class) (self : Node) (row : list Node) (bs : list bool).
Hypothesis Hcls : class_ok cls.
Hypothesis Hfok : fields_ok cls.
Hypothesis Hlaid : laid_out cls self row bs.
Hypothesis HA1 :
  ∀ i, i < 2 ^ get_depth (N cls) → bs !! i ≠ Some true → row !! i = Some (zero_node 0).
Hypothesis HA2 : ∀ i, length (_field_indices cls) ≤ i → bs !! i ≠ Some true.
Hypothesis Hvalid :
  ∀ fkey findex ftyp fnode,
    (fkey, (findex, ftyp)) ∈ _field_indices cls →
    bs !! findex = Some true → row !! findex = Some fnode →
    View.valid_backing ftyp fnode.

Let present : nat → bool := fun i => bs !!! i.
Let leaf : nat → Node := fun i => row !!! i.
Let its : list item := present_items present leaf (_field_indices cls).
Let af : Bitvector.t := Bitvector.view_from_backing (N cls) (Bitvector.pack (N cls) bs).
Let prefix : list byte := le_bytes (Bitvector.type_byte_length (N cls)) (bits_value bs).

Lemma stable_field_range fkey findex ftyp :
  (fkey, (findex, ftyp)) ∈ _field_indices cls →
  findex < length (_field_indices cls) ∧ findex < N cls ∧
  findex < 2 ^ get_depth (N cls) ∧
  _field_indices cls !! findex = Some (fkey, (findex, ftyp)).
Proof.
  intros [i Hi]%list_elem_of_lookup_1.
  destruct Hcls as (_ & Hcount & _ & Hpos).
  pose proof (Hpos _ _ _ _ Hi) as ->.
  pose proof (lookup_lt_Some _ _ _ Hi). pose proof (capacity_fits cls). 
  repeat split; (done || lia).
Qed.

Lemma stable_lookups (i : nat) :
  i < N cls → bs !! i = Some (present i) ∧ row !! i = Some (leaf i).
Proof.
  intros Hi. destruct (laid_out_length _ _ _ _ Hlaid) as [Hrow Hbs].
  pose proof (capacity_fits cls). split.
  - apply list_lookup_lookup_total_lt. lia.
  - apply list_lookup_lookup_total_lt. lia.
Qed.

Lemma stable_items_ok : items_ok its.
Proof.
  intros fkey ftyp fnode (findex & Hin & Hp & ->)%present_items_elem.
  destruct (stable_field_range _ _ _ Hin) as (_ & Hlt & _).
  destruct (stable_lookups findex Hlt) as [Hb Hr]. rewrite Hp in Hb.
  split; [by eapply Hfok | by eapply Hvalid].
Qed.

Lemma stable_bits_read fkey findex ftyp :
  (fkey, (findex, ftyp)) ∈ _field_indices cls →
  Bitvector.get af findex = Ok (present findex).
Proof.
  intros Hin. destruct (stable_field_range _ _ _ Hin) as (_ & Hlt & _).
  destruct (laid_out_length _ _ _ _ Hlaid) as [_ Hbs].
  by apply Bitvector_get_pack.
Qed.

Lemma stable_reads (data : Node) :
  level (get_depth (N cls)) data = Some row →
  reads present leaf (Some af) data (N cls) (as_required <$> _field_indices cls).
Proof.
  intros Hrow fkey findex ftyp fopt ([k [i t]] & [= -> -> -> ->] & Hin)%list_elem_of_fmap.
  split; [by eapply stable_bits_read|].
  destruct (stable_field_range _ _ _ Hin) as (_ & _ & Hlt & _).
  destruct (getter_level _ _ _ _ Hrow Hlt) as (fnode & Hf & ->).
  f_equal. symmetry. by apply list_lookup_total_correct.
Qed.

(** The shape of what [serialize] writes. *)
Lemma StableContainer_serialize_inv (out : list byte) (n : nat) :
  serialize cls self = Ok (out, n) →
  ∃ fixed dyn offs,
    encodes its (fixed_size its) fixed dyn offs ∧
    out = prefix ++ fixed ++ dyn ∧ n = length out.
Proof.
  intros H. pose proof Hlaid as (data & Hself & Hbs & Hrow).
  unfold serialize, active_fields in H. rewrite Hself in H.
  cbn [get_right get_left rbind] in H.
  rewrite Bitvector_serialize_pack in H by done. cbn [rbind] in H.
  rewrite (StableContainer_serialize_sizes present leaf) in H
    by (intros; by eapply stable_bits_read).
  cbn [rbind orb] in H. rewrite Nat.add_0_l in H.
  inv_bind H. destruct a as [[stream temp] ndb].
  rewrite StableContainer_serialize_fields_as_Profile in Ha.
  eapply (Profile_serialize_fields_encodes present leaf) in Ha
    as (fixed & dyn & offs & Henc & -> & -> & ->); [|by apply stable_reads].
  rewrite strip_as_required in Henc. fold its in Henc, H.
  exists fixed, dyn, offs. split; [done|].
  pose proof (encodes_fixed_length _ _ _ _ _ Henc stable_items_ok) as Hfl.
  destruct (has_dyn its) eqn:Hd; cbn [fmap option_fmap option_map of_option rbind] in H.
  - injection H as <- <-. unfold prefix. split; [by rewrite <- app_assoc|].
    rewrite !length_app. simpl. lia.
  - injection H as <- <-. rewrite (encodes_no_dyn _ _ _ _ _ Henc Hd).
    unfold prefix. split; [by rewrite app_nil_r|].
    rewrite !length_app. simpl. lia.
Qed.

Lemma stable_max_byte_length_sum (fs : list (string * (nat * ViewType))) (init : nat) :
  fold_left
    (fun total '(_, (_, ftyp)) =>
       let total :=
         if negb (View.is_fixed_byte_length ftyp)
         then total + OFFSET_BYTE_LENGTH else total in
       total + View.max_byte_length ftyp)
    fs init
  = init + sum_list ((fun '(_, (_, ftyp)) => max_cost ftyp) <$> fs).
Proof.
  revert init; induction fs as [|[fkey [findex ftyp]] fs IH]; intros init.
  - simpl. lia.
  - cbn [fold_left fmap list_fmap sum_list]. rewrite IH. unfold max_cost at 2.
    destruct (View.is_fixed_byte_length ftyp); cbn [negb]; unfold id; lia.
Qed.

Lemma present_items_sum_le (f : ViewType → nat) (p : nat → bool) (lf : nat → Node)
    (fs : list (string * (nat * ViewType))) :
  sum_list ((fun '(_, ftyp, _) => f ftyp) <$> present_items p lf fs)
  ≤ sum_list ((fun '(_, (_, ftyp)) => f ftyp) <$> fs).
Proof.
  induction fs as [|[fkey [findex ftyp]] fs IH]; [done|].
  cbn [present_items fmap list_fmap sum_list].
  destruct (p findex); cbn [fmap list_fmap sum_list]; unfold sum_list, id in *; lia.
Qed.

(** C4 for StableContainer. *)
Lemma StableContainer_size_bounds (out : list byte) (n : nat) :
  serialize cls self = Ok (out, n) →
  n = length out ∧ min_byte_length cls ≤ n ≤ max_byte_length cls.
Proof.
  intros H. apply StableContainer_serialize_inv in H
    as (fixed & dyn & offs & Henc & -> & ->).
  split; [done|].
  pose proof (encodes_size _ _ _ _ _ Henc stable_items_ok) as [_ Hmax].
  pose proof (present_items_sum_le max_cost present leaf (_field_indices cls)) as Hle.
  fold its in Hle.
  unfold min_byte_length, max_byte_length. rewrite stable_max_byte_length_sum.
  rewrite !length_app. unfold prefix. rewrite length_le_bytes. lia.
Qed.

(** [serialize] succeeds when the type is small enough for its offsets. *)
Lemma StableContainer_serialize_total :
  (N.of_nat (max_byte_length cls) < 2 ^ 32)%N →
  ∃ out n, serialize cls self = Ok (out, n).
Proof.
  intros Hsmall. pose proof Hlaid as (data & Hself & Hbs & Hrow).
  unfold serialize, active_fields. rewrite Hself.
  cbn [get_right get_left rbind].
  rewrite Bitvector_serialize_pack by done. cbn [rbind].
  rewrite (StableContainer_serialize_sizes present leaf)
    by (intros; by eapply stable_bits_read).
  cbn [rbind orb]. rewrite Nat.add_0_l. fold its.
  rewrite StableContainer_serialize_fields_as_Profile.
  pose proof (present_items_sum_le max_cost present leaf (_field_indices cls)) as Hle.
  fold its in Hle.
  pose proof (fixed_size_dyn_max its stable_items_ok) as Hsum.
  unfold max_byte_length in Hsmall. rewrite stable_max_byte_length_sum in Hsmall.
  destruct (Profile_serialize_fields_total present leaf (Some af) data (N cls)
              (as_required <$> _field_indices cls)
              (le_bytes (Bitvector.type_byte_length (N cls)) (bits_value bs))
              (if has_dyn its then Some [] else None) (fixed_size its))
    as [[[stream temp] ndb] Hser].
  - by apply stable_reads.
  - rewrite strip_as_required. apply stable_items_ok.
  - rewrite strip_as_required. fold its. intros ->. eauto.
  - rewrite strip_as_required. fold its. lia.
  - pose proof Hser as Hser'.
    eapply (Profile_serialize_fields_encodes present leaf) in Hser'
      as (fixed & dyn & offs & Henc & -> & -> & ->); [|by apply stable_reads].
    unfold af in Hser. rewrite Hser. cbn [rbind].
    destruct (has_dyn its); cbn [fmap option_fmap option_map of_option rbind]; eauto.
Qed.



(** The field values recovered by [deserialize]. *)
Let field_values : gmap string pyval :=
  record (record ∅ (view_of <$> fixed_items its)) (view_of <$> dyn_items its).






End stable_codec.

(** ** The loops of Profile *)

Section optional_bits.
Import Layout.
Context (present : nat → bool).

Lemma optional_bits_app (l1 l2 : list (string * (nat * ViewType * bool))) :
  optional_bits present (l1 ++ l2) = optional_bits present l1 ++ optional_bits present l2.
Proof. unfold optional_bits. by rewrite filter_app, fmap_app. Qed.

Lemma optional_bits_cons fkey findex ftyp fopt (fs : list (string * (nat * ViewType * bool))) :
  optional_bits present ((fkey, (findex, ftyp, fopt)) :: fs)
  = if fopt then present findex :: optional_bits present fs
    else optional_bits present fs.
Proof.
  unfold optional_bits. destruct fopt.
  - by rewrite filter_cons_True.
  - by rewrite filter_cons_False.
Qed.

(** [optional_fields] collects the presence of the optional fields. *)
Lemma optional_fields_loop_spec (af : Bitvector.t)
    (fs : list (string * (nat * ViewType * bool))) (K : nat) (bits : list bool) (k : nat) :
  (∀ fkey findex ftyp fopt, (fkey, (findex, ftyp, fopt)) ∈ fs →
     Bitvector.get af findex = Ok (present findex)) →
  length bits = K → k + length (optional_bits present fs) ≤ K →
  Profile.optional_fields_loop fs af
    (Bitvector.view_from_backing K (Bitvector.pack K bits)) k
  = Ok (Bitvector.view_from_backing K
          (Bitvector.pack K
             (take k bits ++ optional_bits present fs
              ++ drop (k + length (optional_bits present fs)) bits))).
Proof.
  revert bits k.
  induction fs as [|[fkey [[findex ftyp] fopt]] fs IH]; intros bits k Hget Hlen Hk.
  - simpl. by rewrite Nat.add_0_r, take_drop.
  - assert (∀ fkey findex ftyp fopt, (fkey, (findex, ftyp, fopt)) ∈ fs →
              Bitvector.get af findex = Ok (present findex)) as Hget'
      by (intros ???? Hin; eapply Hget; by apply list_elem_of_further).
    cbn [Profile.optional_fields_loop]. rewrite optional_bits_cons in Hk |- *.
    destruct fopt.
    + simpl in Hk. rewrite (Hget fkey findex ftyp true) by apply list_elem_of_here.
      cbn [rbind]. rewrite Bitvector_set_pack by (done || lia). cbn [rbind].
      rewrite IH by (done || (rewrite length_insert; lia) || lia).
      do 3 f_equal.
      rewrite (take_S_r _ _ (present findex))
        by (apply list_lookup_insert_eq; lia).
      rewrite take_insert_ge by lia.
      rewrite drop_insert_lt by lia.
      rewrite <- app_assoc. simpl. by rewrite Nat.add_succ_r.
    + by apply IH.
Qed.

End optional_bits.

Section profile_fields.
Import Layout.
Context (present : nat → bool) (leaf : nat → Node).
Context (all : list (string * (nat * ViewType * bool))).

Let obits : list bool := optional_bits present all.
Let o : nat := length obits.
Let optional_fields : option Bitvector.t :=
  if decide (0 < o)
  then Some (Bitvector.view_from_backing o (Bitvector.pack o obits))
  else None.

(** Reading the presence of the field that follows [pre]. *)
Lemma has_field_read (pre fs : list (string * (nat * ViewType * bool)))
    fkey findex ftyp fopt :
  all = pre ++ (fkey, (findex, ftyp, fopt)) :: fs →
  (fopt = false → present findex = true) →
  (if fopt then
     do optional_fields <- of_option optional_fields UnboundLocalError;
     do has_field <- Bitvector.get optional_fields (length (optional_bits present pre));
     Ok (has_field, S (length (optional_bits present pre)))
   else Ok (true, length (optional_bits present pre)))
  = Ok (present findex,
        length (optional_bits present (pre ++ [(fkey, (findex, ftyp, fopt))]))).
Proof.
  intros Hall Hreq.
  rewrite optional_bits_app, optional_bits_cons, length_app.
  destruct fopt.
  - assert (obits = optional_bits present pre ++ present findex :: optional_bits present fs)
      as Hobits.
    { unfold obits. by rewrite Hall, optional_bits_app, optional_bits_cons. }
    assert (length (optional_bits present pre) < o) as Hlt.
    { unfold o. rewrite Hobits, length_app. simpl. lia. }
    unfold optional_fields. rewrite decide_True by lia. cbn [of_option rbind].
    rewrite Bitvector_get_pack by done. cbn [rbind].
    rewrite Hobits at 1. rewrite list_lookup_total_middle by done.
    simpl. do 2 f_equal. lia.
  - rewrite Hreq by done. simpl. by rewrite Nat.add_0_r.
Qed.

Lemma Profile_serialize_sizes_spec (pre fs : list (string * (nat * ViewType * bool)))
    (ndb : nat) (hd : bool) :
  all = pre ++ fs →
  (∀ fkey findex ftyp, (fkey, (findex, ftyp, false)) ∈ fs → present findex = true) →
  Profile.serialize_sizes fs optional_fields ndb hd (length (optional_bits present pre))
  = Ok (ndb + fixed_size (present_items present leaf (strip <$> fs)),
        hd || has_dyn (present_items present leaf (strip <$> fs)),
        length (optional_bits present all)).
Proof.
  revert pre ndb hd.
  induction fs as [|[fkey [[findex ftyp] fopt]] fs IH]; intros pre ndb hd Hall Hreq.
  - simpl. rewrite Hall, app_nil_r. by rewrite Nat.add_0_r, orb_false_r.
  - cbn [Profile.serialize_sizes].
    rewrite (has_field_read pre fs fkey findex ftyp fopt) by
      (done || (intros ->; eapply Hreq; apply list_elem_of_here)).
    cbn [rbind].
    assert (all = (pre ++ [(fkey, (findex, ftyp, fopt))]) ++ fs) as Hall'
      by (by rewrite <- app_assoc).
    assert (∀ fkey findex ftyp, (fkey, (findex, ftyp, false)) ∈ fs → present findex = true)
      as Hreq' by (intros ??? Hin; eapply Hreq; by apply list_elem_of_further).
    cbn [fmap list_fmap strip present_items].
    destruct (present findex); cbn [negb].
    + unfold fixed_size, has_dyn. cbn [fmap list_fmap sum_list existsb].
      unfold fixed_cost at 1.
      destruct (View.is_fixed_byte_length ftyp); rewrite (IH _ _ _ Hall' Hreq');
        cbn [negb orb]; unfold fixed_size, has_dyn.
      * unfold id. by rewrite Nat.add_assoc.
      * unfold id. by rewrite Nat.add_assoc, orb_true_r.
    + by apply IH.
Qed.


End profile_fields.

(** ** The codec of Profile *)

Section profile_codec.
Import Layout Profile.
Context (cls : class) (self : Node) (present : nat → bool) (leaf : nat → Node).
Context (active_fields : option Bitvector.t) (data : Node) (n : nat).

Let fs := _field_indices cls.
Let its : list item := present_items present leaf (strip <$> fs).
Let obits : list bool := optional_bits present fs.
Let prefix : list byte :=
  if decide (0 < _o cls)
  then le_bytes (Bitvector.type_byte_length (_o cls)) (bits_value obits)
  else [].
Let field_values : gmap string pyval :=
  record (record ∅ (first_pass present leaf fs)) (view_of <$> dyn_items its).

Hypothesis Ho : _o cls = length obits.
Hypothesis Hbase :
  match B cls with
  | StableBase b =>
      do data <- get_left self;
      do active_fields <- Profile.active_fields cls self;
      Ok (data, Some active_fields, StableContainer.N b)
  | ContainerBase b => Ok (self, None, length (Container.fields b))
  end = Ok (data, active_fields, n).
Hypothesis Hopt :
  0 < _o cls →
  optional_fields cls self
  = Ok (Bitvector.view_from_backing (_o cls) (Bitvector.pack (_o cls) obits)).
Hypothesis Hreads : reads present leaf active_fields data n fs.
Hypothesis Hreq :
  ∀ fkey findex ftyp, (fkey, (findex, ftyp, false)) ∈ fs → present findex = true.
Hypothesis Hitems : items_ok its.

Lemma profile_prefix_length :
  length prefix = if decide (0 < _o cls) then Bitvector.type_byte_length (_o cls) else 0.
Proof. unfold prefix. case_decide; [apply length_le_bytes | done]. Qed.

(** The shape of what [serialize] writes. *)
Lemma Profile_serialize_inv (out : list byte) (n' : nat) :
  serialize cls self = Ok (out, n') →
  ∃ fixed dyn offs,
    encodes its (fixed_size its) fixed dyn offs ∧
    out = prefix ++ fixed ++ dyn ∧ n' = length out.
Proof.
  intros H. unfold serialize, serialize_state in H.
  inv_bind H. destruct a as [[[[npb stream] hd] temp] ndb].
  inv_bind Ha. destruct a as [ofs pre].
  assert (ofs = (if decide (0 < length (optional_bits present fs))
                 then Some (Bitvector.view_from_backing (length (optional_bits present fs))
                              (Bitvector.pack (length (optional_bits present fs))
                                 (optional_bits present fs)))
                 else None) ∧ pre = prefix) as [-> ->].
  { unfold prefix. fold obits. rewrite <- Ho. destruct (decide (0 < _o cls)) as [Hlt|Hge].
    - rewrite (Hopt Hlt) in Ha0. cbn [rbind] in Ha0.
      rewrite Bitvector_serialize_pack in Ha0 by done. by injection Ha0 as <- <-.
    - by injection Ha0 as <- <-. }
  fold fs in Ha.
  rewrite (Profile_serialize_sizes_spec present leaf fs [] fs) in Ha by done.
  cbn [rbind orb] in Ha. rewrite Nat.add_0_l in Ha. fold obits in Ha.
  rewrite decide_False in Ha by (intros Hne; by apply Hne).
  rewrite Hbase in Ha. cbn [rbind] in Ha.
  inv_bind Ha. destruct a as [[stream1 temp1] ndb1]. injection Ha as <- <- <- <- <-.
  eapply (Profile_serialize_fields_encodes present leaf) in Ha1
    as (fixed & dyn & offs & Henc & -> & -> & ->); [|done].
  fold its in Henc, H.
  exists fixed, dyn, offs. split; [done|].
  pose proof (encodes_fixed_length _ _ _ _ _ Henc Hitems) as Hfl.
  destruct (has_dyn its) eqn:Hd; cbn [fmap option_fmap option_map of_option rbind] in H.
  - rewrite take_ge in H by (simpl; lia). injection H as <- <-.
    split; [by rewrite <- app_assoc|]. rewrite !length_app. simpl. lia.
  - injection H as <- <-. rewrite (encodes_no_dyn _ _ _ _ _ Henc Hd).
    split; [by rewrite app_nil_r|]. rewrite !length_app. simpl. lia.
Qed.


Lemma profile_min_byte_length_sum (l : list (string * (nat * ViewType * bool))) (init : nat) :
  fold_left
    (fun total '(_, (_, ftyp, fopt)) =>
       if (fopt : bool) then total else
       let total :=
         if negb (View.is_fixed_byte_length ftyp)
         then total + OFFSET_BYTE_LENGTH else total in
       total + View.min_byte_length ftyp)
    l init
  = init + sum_list ((fun '(_, (_, ftyp, fopt)) =>
                        if (fopt : bool) then 0 else min_cost ftyp) <$> l).
Proof.
  revert init; induction l as [|[fkey [[findex ftyp] fopt]] l IH]; intros init.
  - simpl. lia.
  - cbn [fold_left fmap list_fmap sum_list]. rewrite IH. unfold min_cost at 2.
    destruct fopt, (View.is_fixed_byte_length ftyp); cbn [negb]; unfold id; lia.
Qed.

Lemma profile_max_byte_length_sum (l : list (string * (nat * ViewType * bool))) (init : nat) :
  fold_left
    (fun total '(_, (_, ftyp, _)) =>
       let total :=
         if negb (View.is_fixed_byte_length ftyp)
         then total + OFFSET_BYTE_LENGTH else total in
       total + View.max_byte_length ftyp)
    l init
  = init + sum_list ((fun '(_, (_, ftyp, _)) => max_cost ftyp) <$> l).
Proof.
  revert init; induction l as [|[fkey [[findex ftyp] fopt]] l IH]; intros init.
  - simpl. lia.
  - cbn [fold_left fmap list_fmap sum_list]. rewrite IH. unfold max_cost at 2.
    destruct (View.is_fixed_byte_length ftyp); cbn [negb]; unfold id; lia.
Qed.

Lemma profile_items_max_le (l : list (string * (nat * ViewType * bool))) :
  sum_list ((fun '(_, ftyp, _) => max_cost ftyp)
              <$> present_items present leaf (strip <$> l))
  ≤ sum_list ((fun '(_, (_, ftyp, _)) => max_cost ftyp) <$> l).
Proof.
  induction l as [|[fkey [[findex ftyp] fopt]] l IH]; [done|].
  cbn [present_items fmap list_fmap sum_list strip].
  destruct (present findex); cbn [fmap list_fmap sum_list]; unfold sum_list, id in *; lia.
Qed.

Lemma profile_items_min_ge (l : list (string * (nat * ViewType * bool))) :
  (∀ fkey findex ftyp, (fkey, (findex, ftyp, false)) ∈ l → present findex = true) →
  sum_list ((fun '(_, (_, ftyp, fopt)) => if (fopt : bool) then 0 else min_cost ftyp) <$> l)
  ≤ sum_list ((fun '(_, ftyp, _) => min_cost ftyp)
                <$> present_items present leaf (strip <$> l)).
Proof.
  induction l as [|[fkey [[findex ftyp] fopt]] l IH]; intros Hr; [done|].
  assert (∀ fkey findex ftyp, (fkey, (findex, ftyp, false)) ∈ l → present findex = true)
    as Hr' by (intros ??? Hin; eapply Hr; by apply list_elem_of_further).
  specialize (IH Hr').
  cbn [present_items fmap list_fmap sum_list strip].
  destruct fopt.
  - destruct (present findex); cbn [fmap list_fmap sum_list];
      unfold sum_list, id in *; lia.
  - rewrite (Hr fkey findex ftyp) by apply list_elem_of_here.
    cbn [fmap list_fmap sum_list]. unfold sum_list, id in *. lia.
Qed.

(** [serialize] succeeds when the type is small enough for its offsets. *)
Lemma Profile_serialize_total :
  (N.of_nat (max_byte_length cls) < 2 ^ 32)%N →
  ∃ out n', serialize cls self = Ok (out, n').
Proof.
  intros Hsmall.
  pose proof (profile_items_max_le fs) as Hle. fold its in Hle.
  pose proof (fixed_size_dyn_max its Hitems) as Hsum.
  unfold max_byte_length in Hsmall. rewrite profile_max_byte_length_sum in Hsmall.
  fold fs in Hsmall.
  destruct (Profile_serialize_fields_total present leaf active_fields data n fs
              prefix (if has_dyn its then Some [] else None) (fixed_size its))
    as [[[stream temp] ndb] Hser]; [done | done | | |].
  { fold its. intros ->. eauto. }
  { fold its. lia. }
  pose proof Hser as Hser'.
  eapply (Profile_serialize_fields_encodes present leaf) in Hser'
    as (fixed & dyn & offs & Henc & -> & -> & ->); [|done].
  unfold serialize, serialize_state.
  assert ((if decide (0 < _o cls)
           then
             do optional_fields <- optional_fields cls self;
             do prefix <- Bitvector.serialize optional_fields;
             Ok (Some optional_fields, prefix)
           else Ok (None, []))
          = Ok (if decide (0 < length (optional_bits present fs))
                then Some (Bitvector.view_from_backing (length (optional_bits present fs))
                             (Bitvector.pack (length (optional_bits present fs))
                                (optional_bits present fs)))
                else None, prefix)) as ->.
  { unfold prefix. fold obits. rewrite <- Ho. destruct (decide (0 < _o cls)) as [Hlt|Hge].
    - rewrite (Hopt Hlt). cbn [rbind].
      by rewrite Bitvector_serialize_pack by done.
    - done. }
  cbn [rbind]. fold fs.
  rewrite (Profile_serialize_sizes_spec present leaf fs [] fs) by done.
  cbn [rbind orb]. rewrite Nat.add_0_l. fold obits.
  rewrite decide_False by (intros Hne; by apply Hne).
  rewrite Hbase. cbn [rbind]. fold its. rewrite Hser. cbn [rbind].
  destruct (has_dyn its); cbn [fmap option_fmap option_map of_option rbind]; eauto.
Qed.

(** C4 for Profile. *)
Lemma Profile_size_bounds (out : list byte) (n' : nat) :
  serialize cls self = Ok (out, n') →
  n' = length out ∧ min_byte_length cls ≤ n' ≤ max_byte_length cls.
Proof.
  intros H. apply Profile_serialize_inv in H as (fixed & dyn & offs & Henc & -> & ->).
  split; [done|].
  pose proof (encodes_size _ _ _ _ _ Henc Hitems) as [Hmin Hmax].
  pose proof (profile_items_max_le fs) as Hle.
  pose proof (profile_items_min_ge fs Hreq) as Hge.
  fold its in Hle, Hge.
  unfold min_byte_length, max_byte_length.
  rewrite profile_min_byte_length_sum, profile_max_byte_length_sum.
  rewrite !length_app, profile_prefix_length. fold fs. lia.
Qed.


End profile_codec.

(** ** The field values recovered by [Profile.deserialize] *)

Section profile_values.
Import Layout.
Context (present : nat → bool) (leaf : nat → Node).
Context (fs : list (string * (nat * ViewType * bool))).
Hypothesis Hnd : NoDup fs.*1.

Let its : list item := present_items present leaf (strip <$> fs).
Let field_values : gmap string pyval :=
  record (record ∅ (first_pass present leaf fs)) (view_of <$> dyn_items its).


Lemma strip_elem fkey findex ftyp (l : list (string * (nat * ViewType * bool))) :
  (fkey, (findex, ftyp)) ∈ strip <$> l ↔ ∃ fopt, (fkey, (findex, ftyp, fopt)) ∈ l.
Proof.
  rewrite list_elem_of_fmap. split.
  - intros ([k [[i t] o]] & [= -> -> ->] & Hin). by exists o.
  - intros [fopt Hin]. by exists (fkey, (findex, ftyp, fopt)).
Qed.











End profile_values.

(** ** Profile over a StableContainer *)

Section profile_stable.
Import Layout Profile.
Context (cls : class) (b : StableContainer.class).
Context (self : Node) (row : list Node) (bs : list bool).
Hypothesis HB : B cls = StableBase b.
Hypothesis Hcls : ProfileSpec.class_ok cls.
Hypothesis Hfok : ProfileSpec.fields_ok cls.
Hypothesis Hlaid : StableSpec.laid_out b self row bs.
Hypothesis HA1 :
  ∀ i, i < 2 ^ get_depth (StableContainer.N b) →
       bs !! i ≠ Some true → row !! i = Some (zero_node 0).
Hypothesis Hdecl :
  ∀ i, bs !! i = Some true →
       ∃ fkey ftyp fopt, (fkey, (i, ftyp, fopt)) ∈ _field_indices cls.
Hypothesis Hfield :
  ∀ fkey findex ftyp fopt fnode,
    (fkey, (findex, ftyp, fopt)) ∈ _field_indices cls →
    (fopt = false → bs !! findex = Some true) ∧
    (bs !! findex = Some true → row !! findex = Some fnode →
     View.valid_backing ftyp fnode).

Let present : nat → bool := fun i => bs !!! i.
Let leaf : nat → Node := fun i => row !!! i.
Let fs := _field_indices cls.
Let af : Bitvector.t :=
  Bitvector.view_from_backing (StableContainer.N b)
    (Bitvector.pack (StableContainer.N b) bs).

Lemma ps_class :
  NoDup fs.*1 ∧ _o cls = length (optional_bits present fs) ∧ StableSpec.class_ok b ∧
  ∀ fkey findex ftyp fopt, (fkey, (findex, ftyp, fopt)) ∈ fs →
    ∃ btyp, dict_get fkey (StableContainer._field_indices b) = Some (findex, btyp).
Proof.
  destruct Hcls as (Hnd & Ho & Hb). rewrite HB in Hb. destruct Hb as [Hbok Hin].
  split; [done|]. split; [|done].
  unfold optional_bits. by rewrite length_fmap.
Qed.

Lemma ps_range fkey findex ftyp fopt :
  (fkey, (findex, ftyp, fopt)) ∈ fs →
  findex < length (StableContainer._field_indices b) ∧
  findex < StableContainer.N b ∧ findex < 2 ^ get_depth (StableContainer.N b) ∧
  bs !! findex = Some (present findex) ∧ row !! findex = Some (leaf findex).
Proof.
  intros Hin. destruct ps_class as (_ & _ & Hbok & Hbase).
  destruct (Hbase _ _ _ _ Hin) as [btyp Hget].
  destruct (StableContainer_field_index _ _ _ _ Hbok Hget) as [Hlt _].
  destruct Hbok as (_ & Hcount & _).
  pose proof (capacity_fits b) as Hfit.
  destruct (laid_out_length _ _ _ _ Hlaid) as [Hrow Hbs].
  repeat split; try lia; apply list_lookup_lookup_total_lt; lia.
Qed.

Lemma ps_base :
  ∃ data, level (get_depth (StableContainer.N b)) data = Some row ∧
    match B cls with
    | StableBase b =>
        do data <- get_left self;
        do active_fields <- Profile.active_fields cls self;
        Ok (data, Some active_fields, StableContainer.N b)
    | ContainerBase b => Ok (self, None, length (Container.fields b))
    end = Ok (data, Some af, StableContainer.N b).
Proof.
  destruct Hlaid as (data & Hself & Hbs & Hrow). exists data. split; [done|].
  unfold Profile.active_fields. rewrite HB, Hself. done.
Qed.

Lemma ps_bits_read fkey findex ftyp fopt :
  (fkey, (findex, ftyp, fopt)) ∈ fs → Bitvector.get af findex = Ok (present findex).
Proof.
  intros Hin. destruct (ps_range _ _ _ _ Hin) as (_ & Hlt & _).
  destruct (laid_out_length _ _ _ _ Hlaid) as [_ Hbs].
  by apply Bitvector_get_pack.
Qed.

Lemma ps_optional_fields :
  0 < _o cls →
  optional_fields cls self
  = Ok (Bitvector.view_from_backing (_o cls)
          (Bitvector.pack (_o cls) (optional_bits present fs))).
Proof.
  intros Ho. destruct ps_class as (_ & Hoeq & _).
  destruct Hlaid as (data & Hself & Hbs & Hrow).
  unfold optional_fields. rewrite HB. cbn [is_stable negb].
  rewrite decide_False by lia.
  unfold Profile.active_fields. rewrite HB, Hself. cbn [get_right rbind].
  unfold Bitvector.new. fold af. fold fs.
  rewrite (optional_fields_loop_spec present af fs)
    by (apply ps_bits_read || apply length_replicate || (simpl; lia)).
  do 3 f_equal. rewrite take_0, app_nil_l, drop_ge, app_nil_r; [done|].
  rewrite length_replicate. simpl. lia.
Qed.

Lemma ps_reads data :
  level (get_depth (StableContainer.N b)) data = Some row →
  reads present leaf (Some af) data (StableContainer.N b) fs.
Proof.
  intros Hrow fkey findex ftyp fopt Hin. split; [by eapply ps_bits_read|].
  destruct (ps_range _ _ _ _ Hin) as (_ & _ & Hlt & _ & Hr).
  destruct (getter_level _ _ _ _ Hrow Hlt) as (fnode & Hf & ->). congruence.
Qed.

Lemma ps_required fkey findex ftyp :
  (fkey, (findex, ftyp, false)) ∈ fs → present findex = true.
Proof.
  intros Hin. destruct (Hfield _ _ _ _ (zero_node 0) Hin) as [Hreq _].
  destruct (ps_range _ _ _ _ Hin) as (_ & _ & _ & Hb & _).
  rewrite Hreq in Hb by done. congruence.
Qed.

Lemma ps_items_ok : items_ok (present_items present leaf (strip <$> fs)).
Proof.
  intros fkey ftyp fnode (findex & [fopt Hin]%strip_elem & Hp & ->)%present_items_elem.
  destruct (ps_range _ _ _ _ Hin) as (_ & _ & _ & Hb & Hr). rewrite Hp in Hb.
  split; [by eapply Hfok|]. by eapply Hfield.
Qed.



Lemma Profile_stable_size_bounds (out : list byte) (n : nat) :
  serialize cls self = Ok (out, n) →
  n = length out ∧ min_byte_length cls ≤ n ≤ max_byte_length cls.
Proof.
  intros H. destruct ps_class as (_ & Ho & _). destruct ps_base as (data & Hrow & Hbase).
  eapply (Profile_size_bounds cls self present leaf (Some af) data (StableContainer.N b));
    eauto using ps_optional_fields, ps_reads, ps_required, ps_items_ok.
Qed.

Lemma Profile_stable_serialize_total :
  (N.of_nat (max_byte_length cls) < 2 ^ 32)%N →
  ∃ out n, serialize cls self = Ok (out, n).
Proof.
  intros H. destruct ps_class as (_ & Ho & _). destruct ps_base as (data & Hrow & Hbase).
  eapply (Profile_serialize_total cls self present leaf (Some af) data (StableContainer.N b));
    eauto using ps_optional_fields, ps_reads, ps_required, ps_items_ok.
Qed.

End profile_stable.

(** ** Profile over a plain Container *)

Section profile_container.
Import Layout Profile.
Context (cls : class) (c : Container.class) (self : Node) (row : list Node).
Hypothesis HB : B cls = ContainerBase c.
Hypothesis Hcls : ProfileSpec.class_ok cls.
Hypothesis Hfok : ProfileSpec.fields_ok cls.
Hypothesis Hrow : level (get_depth (length (Container.fields c))) self = Some row.
Hypothesis Hzero :
  ∀ i, length (Container.fields c) ≤ i →
       i < 2 ^ get_depth (length (Container.fields c)) →
       row !! i = Some (zero_node 0).
Hypothesis Hvalid :
  ∀ fkey findex ftyp fopt fnode,
    (fkey, (findex, ftyp, fopt)) ∈ _field_indices cls →
    row !! findex = Some fnode → View.valid_backing ftyp fnode.

Let present : nat → bool := fun _ => true.
Let leaf : nat → Node := fun i => row !!! i.
Let fs := _field_indices cls.
Let D := get_depth (length (Container.fields c)).

Lemma pc_class :
  NoDup fs.*1 ∧ _o cls = length (optional_bits present fs) ∧ _o cls = 0 ∧
  NoDup (Container.fields c).*1 ∧
  (∀ fkey findex ftyp fopt, (fkey, (findex, ftyp, fopt)) ∈ fs →
     fopt = false ∧ ∃ btyp, Container.fields c !! findex = Some (fkey, btyp)) ∧
  (∀ i fkey btyp, Container.fields c !! i = Some (fkey, btyp) →
     ∃ ftyp, (fkey, (i, ftyp, false)) ∈ fs).
Proof.
  destruct Hcls as (Hnd & Ho & Hb). rewrite HB in Hb. destruct Hb as (Hbnd & Hin & Hall).
  assert (filter (fun '(_, (_, _, fopt)) => fopt = true) fs = []) as Hnil.
  { destruct (filter _ fs) as [|[k [[i t] o]] l] eqn:Hf; [done|].
    assert ((k, (i, t, o)) ∈ filter (fun '(_, (_, _, fopt)) => fopt = true) fs) as Hx
      by (rewrite Hf; apply list_elem_of_here).
    apply list_elem_of_filter in Hx as [Ho' Hx]. simpl in Ho'.
    destruct (Hin _ _ _ _ Hx) as [-> _]. done. }
  fold fs in Ho. rewrite Hnil in Ho.
  split; [done|]. split; [unfold optional_bits; by rewrite Hnil|].
  split; [done|]. split; [done|]. split; done.
Qed.

Lemma pc_range fkey findex ftyp fopt :
  (fkey, (findex, ftyp, fopt)) ∈ fs →
  findex < length (Container.fields c) ∧ findex < 2 ^ D ∧
  row !! findex = Some (leaf findex).
Proof.
  intros Hin. destruct pc_class as (_ & _ & _ & _ & Hbase & _).
  destruct (Hbase _ _ _ _ Hin) as [_ [btyp Hl]].
  pose proof (lookup_lt_Some _ _ _ Hl) as Hlt.
  pose proof (get_depth_spec (length (Container.fields c))) as Hfit. fold D in Hfit.
  pose proof (level_length _ _ _ Hrow) as Hlen. fold D in Hlen.
  repeat split; try lia. apply list_lookup_lookup_total_lt. lia.
Qed.

Lemma pc_reads : reads present leaf None self (length (Container.fields c)) fs.
Proof.
  intros fkey findex ftyp fopt Hin. split; [done|].
  destruct (pc_range _ _ _ _ Hin) as (_ & Hlt & Hr).
  destruct (getter_level _ _ _ _ Hrow Hlt) as (fnode & Hf & ->). congruence.
Qed.

Lemma pc_items_ok : items_ok (present_items present leaf (strip <$> fs)).
Proof.
  intros fkey ftyp fnode (findex & [fopt Hin]%strip_elem & Hp & ->)%present_items_elem.
  destruct (pc_range _ _ _ _ Hin) as (_ & _ & Hr).
  split; [by eapply Hfok | by eapply Hvalid].
Qed.



Lemma pc_base :
  match B cls with
  | StableBase b =>
      do data <- get_left self;
      do active_fields <- Profile.active_fields cls self;
      Ok (data, Some active_fields, StableContainer.N b)
  | ContainerBase b => Ok (self, None, length (Container.fields b))
  end = Ok (self, None, length (Container.fields c)).
Proof. by rewrite HB. Qed.

Lemma pc_optional_fields :
  0 < _o cls →
  optional_fields cls self
  = Ok (Bitvector.view_from_backing (_o cls)
          (Bitvector.pack (_o cls) (optional_bits present fs))).
Proof. destruct pc_class as (_ & _ & -> & _). lia. Qed.


Lemma Profile_container_size_bounds (out : list byte) (n : nat) :
  serialize cls self = Ok (out, n) →
  n = length out ∧ min_byte_length cls ≤ n ≤ max_byte_length cls.
Proof.
  intros H. destruct pc_class as (_ & Ho & _).
  eapply (Profile_size_bounds cls self present leaf None self
            (length (Container.fields c)));
    eauto using pc_base, pc_optional_fields, pc_reads, pc_items_ok.
Qed.

Lemma Profile_container_serialize_total :
  (N.of_nat (max_byte_length cls) < 2 ^ 32)%N →
  ∃ out n, serialize cls self = Ok (out, n).
Proof.
  intros H. destruct pc_class as (_ & Ho & _).
  eapply (Profile_serialize_total cls self present leaf None self
            (length (Container.fields c)));
    eauto using pc_base, pc_optional_fields, pc_reads, pc_items_ok.
Qed.

End profile_container.

(** ** The two claims about the codec *)


(** C4: the number of bytes [serialize] writes for a well-formed value,
    which is the number it returns, lies between [min_byte_length] and
    [max_byte_length] of the type.  The last two parts say that
    [serialize] does write them when the type is small enough for its
    four-byte offsets. *)
Theorem serialize_size_bounds :
  (∀ cls self out n,
     StableSpec.class_ok cls → StableSpec.fields_ok cls →
     StableSpec.well_formed cls self →
     StableContainer.serialize cls self = Ok (out, n) →
     n = length out ∧
     StableContainer.min_byte_length cls ≤ length out ≤ StableContainer.max_byte_length cls) ∧
  (∀ cls self out n,
     ProfileSpec.class_ok cls → ProfileSpec.fields_ok cls →
     ProfileSpec.well_formed cls self →
     Profile.serialize cls self = Ok (out, n) →
     n = length out ∧
     Profile.min_byte_length cls ≤ length out ≤ Profile.max_byte_length cls) ∧
  (∀ cls self,
     StableSpec.class_ok cls → StableSpec.fields_ok cls →
     StableSpec.well_formed cls self →
     (N.of_nat (StableContainer.max_byte_length cls) < 2 ^ 32)%N →
     ∃ out,
       StableContainer.serialize cls self = Ok (out, length out) ∧
       StableContainer.min_byte_length cls ≤ length out ≤ StableContainer.max_byte_length cls) ∧
  (∀ cls self,
     ProfileSpec.class_ok cls → ProfileSpec.fields_ok cls →
     ProfileSpec.well_formed cls self →
     (N.of_nat (Profile.max_byte_length cls) < 2 ^ 32)%N →
     ∃ out,
       Profile.serialize cls self = Ok (out, length out) ∧
       Profile.min_byte_length cls ≤ length out ≤ Profile.max_byte_length cls).
Proof.
  assert (Hstable : ∀ cls self out n,
     StableSpec.class_ok cls → StableSpec.fields_ok cls →
     StableSpec.well_formed cls self →
     StableContainer.serialize cls self = Ok (out, n) →
     n = length out ∧
     StableContainer.min_byte_length cls ≤ length out ≤ StableContainer.max_byte_length cls).
  { intros cls self out n Hcls Hfok (row & bs & Hlaid & HA1 & HA2 & Hvalid) H.
    destruct (StableContainer_size_bounds cls self row bs Hcls Hfok Hlaid Hvalid out n H)
      as [-> Hb]. done. }
  assert (Hprofile : ∀ cls self out n,
     ProfileSpec.class_ok cls → ProfileSpec.fields_ok cls →
     ProfileSpec.well_formed cls self →
     Profile.serialize cls self = Ok (out, n) →
     n = length out ∧
     Profile.min_byte_length cls ≤ length out ≤ Profile.max_byte_length cls).
  { intros cls self out n Hcls Hfok Hwf H. unfold ProfileSpec.well_formed in Hwf.
    destruct (Profile.B cls) as [b|c] eqn:HB.
    + destruct Hwf as (row & bs & Hlaid & HA1 & Hdecl & Hfield).
      destruct (Profile_stable_size_bounds cls b self row bs HB Hcls Hfok Hlaid Hfield out n H)
        as [-> Hb]. done.
    + destruct Hwf as (row & Hrow & Hzero & Hvalid).
      destruct (Profile_container_size_bounds cls c self row HB Hcls Hfok Hrow Hvalid out n H)
        as [-> Hb]. done. }
  split; [done|]. split; [done|]. split.
  - intros cls self Hcls Hfok Hwf Hsmall.
    assert (∃ out n, StableContainer.serialize cls self = Ok (out, n))
      as (out & n & H).
    { destruct Hwf as (row & bs & Hlaid & HA1 & HA2 & Hvalid).
      by eapply (StableContainer_serialize_total cls self row bs). }
    destruct (Hstable cls self out n Hcls Hfok Hwf H) as [-> Hb]. by exists out.
  - intros cls self Hcls Hfok Hwf Hsmall.
    assert (∃ out n, Profile.serialize cls self = Ok (out, n))
      as (out & n & H).
    { pose proof Hwf as Hwf'. unfold ProfileSpec.well_formed in Hwf'.
      destruct (Profile.B cls) as [b|c] eqn:HB.
      + destruct Hwf' as (row & bs & Hlaid & HA1 & Hdecl & Hfield).
        by eapply (Profile_stable_serialize_total cls b self row bs).
      + destruct Hwf' as (row & Hrow & Hzero & Hvalid).
        by eapply (Profile_container_serialize_total cls c self row). }
    destruct (Hprofile cls self out n Hcls Hfok Hwf H) as [-> Hb]. by exists out.
Qed.

(** ** The two field types keep the View contract *)

Lemma uint_ok (byte_len : nat) (name : string) : View.ok (uint byte_len name).
Proof.
  split; [done|]. intros n (r & -> & Hr).
  exists (le_bytes byte_len r). simpl. rewrite length_le_bytes.
  rewrite decide_True by done. rewrite le_value_le_bytes_small by done. auto.
Qed.

Lemma ByteList_ok (limit : nat) (name : string) : View.ok (ByteList limit name).
Proof.
  split; [done|]. intros n (contents & len & -> & Hlen & Hc).
  exists (le_bytes (N.to_nat len) contents). simpl. rewrite length_le_bytes.
  rewrite decide_True by lia.
  rewrite le_value_le_bytes_small by (by rewrite N2Nat.id).
  rewrite N2Nat.id. split; [done|]. split; [done|]. lia.
Qed.

(** ** The examples are well formed *)

Section examples.
Import Examples.

Example Shape_declared : StableContainer.declare 4 Shape_annotations = Ok Shape.
Proof. reflexivity. Qed.

Example Tagged_declared :
  Profile.__init_subclass__ (Profile.StableBase Shape) Tagged_annotations = Ok Tagged.
Proof. reflexivity. Qed.

Example Fixed_declared :
  Profile.__init_subclass__ (Profile.ContainerBase Pair) Fixed_annotations = Ok Fixed.
Proof. reflexivity. Qed.

Lemma NoDup_a_b : NoDup ["a"; "b"].
Proof. apply NoDup_cons. split; [|apply NoDup_singleton]. by intros ?%list_elem_of_singleton. Qed.

Lemma Shape_class_ok : StableSpec.class_ok Shape.
Proof. eapply declare_class_ok; [|exact Shape_declared]. exact NoDup_a_b. Qed.

Example Wide_declared : StableContainer.declare 4 Wide_annotations = Ok Wide.
Proof. reflexivity. Qed.

Lemma Wide_class_ok : StableSpec.class_ok Wide.
Proof.
  eapply declare_class_ok; [|exact Wide_declared].
  by apply (bool_decide_unpack _).
Qed.

Lemma Shape_fields_ok : StableSpec.fields_ok Shape.
Proof.
  intros fkey findex ftyp Hin. simpl in Hin.
  apply elem_of_cons in Hin as [[= _ _ ->]|Hin]; [apply uint_ok|].
  apply list_elem_of_singleton in Hin as [= _ _ ->]. apply ByteList_ok.
Qed.

Lemma valid_7 : View.valid_backing uint16 (RootNode 7).
Proof. exists 7%N. split; [done|]. simpl. lia. Qed.

Lemma valid_123 : View.valid_backing bytes8 list_123.
Proof. exists 0x030201%N, 3%N. split; [done|]. simpl. lia. Qed.

Lemma shape_7_123_laid_out :
  StableSpec.laid_out Shape shape_7_123 row_7_123 bits_7_123.
Proof. eexists. split; [reflexivity|]. split; reflexivity. Qed.

Lemma shape_7_123_well_formed : StableSpec.well_formed Shape shape_7_123.
Proof.
  exists row_7_123, bits_7_123.
  split; [apply shape_7_123_laid_out|]. split; [|split].
  - intros [|[|[|[|i]]]] Hi Hb; cbn in *; try done; lia.
  - intros [|[|[|[|i]]]] Hi Hb; cbn in *; try done; lia.
  - intros fkey findex ftyp fnode Hin Hb Hr. simpl in Hin.
    apply elem_of_cons in Hin as [[= _ -> ->]|Hin].
    + injection Hr as <-. apply valid_7.
    + apply list_elem_of_singleton in Hin as [= _ -> ->].
      injection Hr as <-. apply valid_123.
Qed.

Lemma Tagged_class_ok : ProfileSpec.class_ok Tagged.
Proof.
  eapply init_subclass_class_ok; [| |exact Tagged_declared].
  - exact NoDup_a_b.
  - exact Shape_class_ok.
Qed.

Lemma Tagged_fields_ok : ProfileSpec.fields_ok Tagged.
Proof.
  intros fkey findex ftyp fopt Hin. simpl in Hin.
  apply elem_of_cons in Hin as [[= _ _ -> _]|Hin]; [apply uint_ok|].
  apply list_elem_of_singleton in Hin as [= _ _ -> _]. apply ByteList_ok.
Qed.

Lemma shape_7_123_Tagged : ProfileSpec.well_formed Tagged shape_7_123.
Proof.
  exists row_7_123, bits_7_123.
  split; [apply shape_7_123_laid_out|]. split; [|split].
  - intros [|[|[|[|i]]]] Hi Hb; cbn in *; try done; lia.
  - intros [|[|[|[|i]]]] Hb; simpl in *; try done.
    + exists "a", uint16, false. apply list_elem_of_here.
    + exists "b", bytes8, true. apply list_elem_of_further, list_elem_of_here.
  - intros fkey findex ftyp fopt fnode Hin. simpl in Hin.
    apply elem_of_cons in Hin as [[= _ -> -> _]|Hin].
    + split; [done|]. intros _ [= <-]. apply valid_7.
    + apply list_elem_of_singleton in Hin as [= _ -> -> _].
      split; [done|]. intros _ [= <-]. apply valid_123.
Qed.

Lemma Fixed_class_ok : ProfileSpec.class_ok Fixed.
Proof.
  eapply init_subclass_class_ok; [| |exact Fixed_declared].
  - exact NoDup_a_b.
  - exact NoDup_a_b.
Qed.



End examples.

(** ** The claims on the examples *)

Section witnesses.
Import Examples.


Lemma serialize_size_bounds_witness :
  (StableContainer.min_byte_length Shape ≤ length wire_7_123
     ≤ StableContainer.max_byte_length Shape) ∧
  (Profile.min_byte_length Tagged
     ≤ length (bytes_of [1; 7; 0; 6; 0; 0; 0; 1; 2; 3]%N)
     ≤ Profile.max_byte_length Tagged).
Proof.
  split.
  - apply (proj1 serialize_size_bounds Shape shape_7_123 wire_7_123 10
             Shape_class_ok Shape_fields_ok shape_7_123_well_formed).
    vm_compute. reflexivity.
  - apply (proj1 (proj2 serialize_size_bounds) Tagged shape_7_123 _ 10
             Tagged_class_ok Tagged_fields_ok shape_7_123_Tagged).
    vm_compute. reflexivity.
Defined.

Lemma shape_only_b_reachable : StableSpec.reachable Shape shape_only_b.
Proof.
  eapply (StableSpec.reachable_setattr Shape shape_7_123 "a" PyNone (Ok tt)).
  - eapply (StableSpec.reachable_new Shape
              (<["a" := PyInt 7]> {["b" := PyBytes (bytes_of [1; 2; 3]%N)]})).
    vm_compute. reflexivity.
  - vm_compute. reflexivity.
Qed.

Lemma presence_coherence_witness :
  ∃ b fnode,
    StableSpec.bit Shape shape_only_b 0 = Ok b ∧
    StableSpec.leaf Shape shape_only_b 0 = Ok fnode ∧
    (b = false → fnode = zero_node 0).
Proof.
  apply (presence_coherence Shape shape_only_b 0 Shape_class_ok shape_only_b_reachable).
  simpl. lia.
Defined.

(** C2 as stated fails: in [Shape(a=0)] leaf 0 is the zero leaf, and
    bit 0 is 1. *)
Lemma presence_coherence_converse_fails :
  StableSpec.reachable Shape shape_0 ∧
  StableSpec.leaf Shape shape_0 0 = Ok (zero_node 0) ∧
  StableSpec.bit Shape shape_0 0 = Ok true ∧
  ¬ (StableSpec.leaf Shape shape_0 0 = Ok (zero_node 0)
     ↔ StableSpec.bit Shape shape_0 0 = Ok false).
Proof.
  assert (StableSpec.leaf Shape shape_0 0 = Ok (zero_node 0)) as Hleaf
    by (vm_compute; reflexivity).
  assert (StableSpec.bit Shape shape_0 0 = Ok true) as Hbit
    by (vm_compute; reflexivity).
  split; [|split; [done|split; [done|]]].
  - eapply (StableSpec.reachable_new Shape {["a" := PyInt 0]}). vm_compute. reflexivity.
  - intros [H _]. rewrite Hbit in H. specialize (H Hleaf). discriminate.
Qed.



Lemma deserialize_unknown_bits_witness :
  ∃ j, 2 ≤ j < 4 ∧
       Bitvector.get (Bitvector.view_from_backing 4 (RootNode 4)) j = Ok true ∧
       StableContainer.deserialize Shape wire_unknown 1
       = Err (Exception_unknown_field_index j).
Proof.
  refine (proj1 (deserialize_unknown_bits Shape wire_unknown 1
            (Bitvector.view_from_backing 4 (RootNode 4)) [] _ _) _).
  - vm_compute. lia.
  - vm_compute. reflexivity.
  - exists 2. split; [simpl; lia|]. vm_compute. reflexivity.
Defined.


Lemma key_to_static_gindex_witness :
  StableContainer.key_to_static_gindex Shape "b" = Ok 9 ∧
  StableContainer.key_to_static_gindex Shape "__active_fields__" = Ok 3 ∧
  Profile.key_to_static_gindex Fixed "b" = Ok 3 ∧
  StableContainer.key_to_static_gindex Shape "b"
  = StableContainer.key_to_static_gindex Wide "y".
Proof.
  destruct key_to_static_gindex_spec as (Hfield & Hactive & _ & Hplain & Hsame).
  split; [|split; [|split]].
  - apply (Hfield Shape 1 "b" 1 bytes8 Shape_class_ok); [reflexivity | discriminate].
  - apply Hactive.
  - apply (Hplain Fixed Pair 1 "b" bytes8 Fixed_class_ok); [reflexivity.. | discriminate].
  - apply (Hsame Shape Wide 1 "b" "y" 1 1 bytes8 bytes8 Shape_class_ok Wide_class_ok);
      try reflexivity; discriminate.
Defined.


Lemma Profile_serialize_writes_whole_buffer_witness :
  ∃ temp,
    Some (bytes_of [1; 2; 3]%N) = Some temp ∧
    length temp ≤ 9 ∧
    take 9 temp = temp ∧
    Profile.serialize Tagged shape_7_123
    = Ok (bytes_of [1; 7; 0; 6; 0; 0; 0]%N ++ temp, 1 + 9).
Proof.
  apply (Profile_serialize_writes_whole_buffer Tagged shape_7_123 1
           (bytes_of [1; 7; 0; 6; 0; 0; 0]%N) (Some (bytes_of [1; 2; 3]%N)) 9).
  vm_compute. reflexivity.
Defined.


End witnesses.

(** * Further properties *)

(** ** Declaring a class *)

Lemma enumerate_fields_lookup (findex : nat) (annotations : list (string * annotation))
    (fields : list (string * (nat * ViewType))) :
  StableContainer.enumerate_fields findex annotations = Ok fields →
  length fields = length annotations ∧
  ∀ i fkey j ftyp,
    fields !! i = Some (fkey, (j, ftyp)) ↔
    j = findex + i ∧ annotations !! i = Some (fkey, Optional ftyp).
Proof.
  revert findex fields; induction annotations as [|[fkey [t|t]] rest IH];
    intros findex fields H; simpl in H.
  - injection H as <-. split; [done|]. intros i ???. rewrite !lookup_nil. split; [done | by intros [_ ?]].
  - inv_bind H. injection H as <-. destruct (IH _ _ Ha) as [Hlen Hp].
    split; [simpl; by rewrite Hlen|].
    intros [|i] fkey' j ftyp; simpl.
    + split.
      * intros [= <- <- <-]. split; [lia | done].
      * intros [-> [= <- <-]]. by rewrite Nat.add_0_r.
    + rewrite Hp. split; intros [-> ?]; (split; [lia | done]).
  - discriminate.
Qed.

(** X1: a class that [StableContainer[n]] accepts has the capacity [n],
    which is positive, holds no more fields than that, and lists the
    annotations in order: the field at position [i] carries the index
    [i], the name of annotation [i] and the type its [Optional] wraps. *)
Theorem StableContainer_declare_fields (n : Z) (annotations : list (string * annotation))
    (cls : StableContainer.class) :
  StableContainer.declare n annotations = Ok cls →
  (0 < n)%Z ∧ StableContainer.N cls = Z.to_nat n ∧
  length (StableContainer._field_indices cls) = length annotations ∧
  length annotations ≤ StableContainer.N cls ∧
  StableContainer.fields cls = (fun '(fkey, t) => (fkey, annotated_type t)) <$> annotations ∧
  ∀ i fkey findex ftyp,
    StableContainer._field_indices cls !! i = Some (fkey, (findex, ftyp)) ↔
    findex = i ∧ annotations !! i = Some (fkey, Optional ftyp).
Proof.
  intros H. unfold StableContainer.declare in H. inv_bind H.
  unfold StableContainer.__class_getitem__ in Ha.
  case_decide as Hn; [discriminate|]. injection Ha as <-.
  unfold StableContainer.__init_subclass__ in H. inv_bind H.
  case_decide as Hlen; [discriminate|]. injection H as <-.
  destruct (enumerate_fields_lookup _ _ _ Ha) as [Hl Hp].
  cbn [StableContainer.N StableContainer._field_indices].
  split; [lia|]. split; [done|]. split; [done|]. split; [lia|]. split; [|done].
  unfold StableContainer.fields. cbn [StableContainer._field_indices].
  apply list_eq. intros i. rewrite !list_lookup_fmap.
  destruct (a !! i) as [[fkey [j ftyp]]|] eqn:Hi.
  - apply Hp in Hi as [_ ->]. done.
  - destruct (annotations !! i) as [[fkey t]|] eqn:Hai; [|done].
    apply lookup_ge_None in Hi. apply lookup_lt_Some in Hai. lia.
Qed.


Section profile_declare_fields.
Import Profile.

Lemma bind_fields_lookup (B : base) (annotations : list (string * annotation))
    (fields : list (string * (nat * ViewType * bool))) (o : nat)
    (fields' : list (string * (nat * ViewType * bool))) (o' : nat) :
  bind_fields B annotations fields o = Ok (fields', o') →
  ∃ new, fields' = fields ++ new ∧ length new = length annotations ∧
    o' = o + length (filter (fun a => is_optional a.2 = true) annotations) ∧
    ∀ i fkey findex ftyp fopt,
      new !! i = Some (fkey, (findex, ftyp, fopt)) →
      ∃ t btyp, annotations !! i = Some (fkey, t) ∧
        ftyp = annotated_type t ∧ fopt = is_optional t ∧
        base_field B fkey = Some (findex, btyp) ∧
        compatible ftyp btyp = true ∧
        (fopt = true → is_stable B = true).
Proof.
  revert fields o; induction annotations as [|[fkey t] rest IH]; intros fields o H.
  - simpl in H. injection H as <- <-. exists []. rewrite app_nil_r, Nat.add_0_r.
    split; [done|]. split; [done|]. split; [done|]. intros i ????. by rewrite lookup_nil.
  - cbn [bind_fields] in H. inv_bind H. destruct a as [findex btyp].
    inv_bind H. destruct a as [ftyp fopt].
    destruct (compatible ftyp btyp) eqn:Hcompat; [|discriminate].
    apply IH in H as (new & -> & Hlen & -> & Hall).
    exists ((fkey, (findex, ftyp, fopt)) :: new).
    split; [by rewrite <- app_assoc|]. split; [simpl; by rewrite Hlen|].
    assert (ftyp = annotated_type t ∧ fopt = is_optional t ∧
            (fopt = true → is_stable B = true)) as (Ht & Ho & Hs).
    { destruct t as [t|t]; simpl.
      - destruct (is_stable B); [|discriminate]. by injection Ha0 as <- <-.
      - by injection Ha0 as <- <-. }
    split.
    + destruct (is_optional t) eqn:Hopt; subst fopt.
      * rewrite filter_cons_True by done. simpl. lia.
      * rewrite filter_cons_False by (simpl; congruence). lia.
    + intros [|i] fkey' findex' ftyp' fopt' Hi; simpl in Hi.
      * injection Hi as <- <- <- <-. exists t, btyp.
        destruct (base_field B fkey) as [[j b']|]; [|discriminate].
        simpl in Ha. by injection Ha as -> ->.
      * by apply Hall.
Qed.

End profile_declare_fields.

(** X3: a class that [Profile[B]] accepts lists its annotations in
    order; each field takes its index from the base field of the same
    name, its type from the annotation, which is compatible with the
    type of the base field, and is optional when the annotation is
    [Optional[T]], which only a StableContainer base allows; [_o] counts
    the optional fields. *)
Theorem Profile_declare_fields (base_cls : Profile.base)
    (annotations : list (string * annotation)) (cls : Profile.class) :
  Profile.__init_subclass__ base_cls annotations = Ok cls →
  Profile.B cls = base_cls ∧
  length (Profile._field_indices cls) = length annotations ∧
  Profile._o cls = length (filter (fun a => is_optional a.2 = true) annotations) ∧
  Profile.fields cls
    = (fun '(fkey, t) => (fkey, (annotated_type t, is_optional t))) <$> annotations ∧
  ∀ i fkey findex ftyp fopt,
    Profile._field_indices cls !! i = Some (fkey, (findex, ftyp, fopt)) →
    ∃ btyp,
      Profile.base_field base_cls fkey = Some (findex, btyp) ∧
      Profile.compatible ftyp btyp = true ∧
      (fopt = true → Profile.is_stable base_cls = true).
Proof.
  intros H. unfold Profile.__init_subclass__ in H.
  inv_bind H. destruct a as [fields o]. inv_bind H. injection H as <-.
  apply bind_fields_lookup in Ha as (new & Hf & Hlen & -> & Hall).
  simpl in Hf. subst new. cbn [Profile.B Profile._field_indices Profile._o].
  split; [done|]. split; [done|]. split; [done|]. split.
  - unfold Profile.fields. cbn [Profile._field_indices].
    apply list_eq. intros i. rewrite !list_lookup_fmap.
    destruct (fields !! i) as [[fkey [[j ftyp] fopt]]|] eqn:Hi.
    + destruct (Hall _ _ _ _ _ Hi) as (t & btyp & -> & -> & -> & _). done.
    + destruct (annotations !! i) as [[fkey t]|] eqn:Hai; [|done].
      apply lookup_ge_None in Hi. apply lookup_lt_Some in Hai. lia.
  - intros i fkey findex ftyp fopt Hi.
    destruct (Hall _ _ _ _ _ Hi) as (t & btyp & _ & _ & _ & Hb & Hc & Hs). eauto.
Qed.

(** X4: a Profile over a plain Container declares every field of its
    base: when one is left out, the declaration is refused. *)
Theorem Profile_declare_container_complete (b : Container.class)
    (annotations : list (string * annotation)) (fkey : string) :
  NoDup annotations.*1 →
  NoDup (Container.fields b).*1 →
  fkey ∈ (Container.fields b).*1 →
  fkey ∉ annotations.*1 →
  ∃ e, Profile.__init_subclass__ (Profile.ContainerBase b) annotations = Err e.
Proof.
  intros Hnd Hbnd Hin Hout.
  destruct (Profile.__init_subclass__ (Profile.ContainerBase b) annotations)
    as [cls|e] eqn:H; [|by eauto].
  exfalso. apply Hout.
  pose proof (init_subclass_class_ok (Profile.ContainerBase b) _ _ Hnd Hbnd H) as (_ & _ & Hb).
  unfold Profile.__init_subclass__ in H.
  inv_bind H. destruct a as [fields o]. inv_bind H. injection H as <-.
  apply bind_fields_inv in Ha as (new & Hf & Hk & _). simpl in Hf. subst new.
  cbn [Profile.B Profile._field_indices] in Hb. destruct Hb as (_ & _ & Hall).
  apply list_elem_of_fmap in Hin as ([k btyp] & -> & [i Hi]%list_elem_of_lookup_1).
  destruct (Hall _ _ _ Hi) as [ftyp Hf]. rewrite <- Hk.
  apply list_elem_of_fmap. by exists (k, (i, ftyp, false)).
Qed.

(** ** Constructing and reading *)

Section new_spec.
Import StableContainer StableSpec.
Context (cls : class).

Lemma new_fields_kwargs (fs : list (string * (nat * ViewType)))
    (kwargs : gmap string pyval) (nodes : list Node) (af : Bitvector.t)
    (kw' : gmap string pyval) (nodes' : list Node) (af' : Bitvector.t) :
  new_fields cls fs kwargs nodes af = Ok (kw', nodes', af') →
  kw' = foldl (fun m '(k, _) => delete k m) kwargs fs.
Proof.
  revert kwargs nodes af.
  induction fs as [|[fkey [findex ftyp]] fs IH]; intros kwargs nodes af H.
  - simpl in H. by injection H as <- _ _.
  - cbn [new_fields] in H. inv_bind H. destruct a as [fnode af1].
    cbn [foldl]. by eapply IH.
Qed.



End new_spec.

Section access.
Import StableContainer StableSpec.
Context (cls : class).


End access.

(** X5: [StableContainer.__new__] builds no value from a field map that
    names a field the class does not declare. *)
Theorem StableContainer_new_unknown_key (cls : StableContainer.class)
    (kwargs : gmap string pyval) (k : string) (v : pyval) :
  kwargs !! k = Some v →
  k ∉ (StableContainer._field_indices cls).*1 →
  ∃ e, StableContainer.__new__ cls None kwargs = Err e.
Proof.
  intros Hk Hnotin.
  destruct (StableContainer.__new__ cls None kwargs) as [self|e] eqn:H; [|by eauto].
  exfalso. unfold StableContainer.__new__ in H.
  inv_bind H. destruct a as [[kw' nodes'] af'].
  case_decide as Hsize; [discriminate|].
  apply new_fields_kwargs in Ha.
  assert (kw' = ∅) as Hempty by (apply map_size_empty_iff; lia).
  assert (kw' !! k = Some v) as Hkw.
  { rewrite Ha, foldl_delete_lookup. by rewrite decide_False by done. }
  by rewrite Hempty, lookup_empty in Hkw.
Qed.



(** ** Assignments and the constructor of a Profile *)

Lemma Profile_set_raise (cls : Profile.class) (i : nat) (value : pyval)
    (self self' : Node) (e : exn) :
  Profile.set cls i value self = (Err e, self') → self' = self.
Proof.
  unfold Profile.set, mbind_method, get_backing, set_backing, lift.
  repeat (match goal with
          | |- context [match ?r with Ok _ => _ | Err _ => _ end] => destruct r
          end; try (intros [= _ <-]; done)).
  all: discriminate.
Qed.


(** X8: an assignment that raises leaves the object as it was: the
    backing is replaced in the last step only, after every check and
    every coercion. *)
Theorem setattr_failure_keeps_backing :
  (∀ (cls : StableContainer.class) key value self e self',
     StableContainer.__setattr__ cls key value self = (Err e, self') → self' = self) ∧
  (∀ (cls : Profile.class) key value self e self',
     Profile.__setattr__ cls key value self = (Err e, self') → self' = self).
Proof.
  split.
  - intros cls key value self e self'.
    unfold StableContainer.__setattr__, mbind_method, lift, raise.
    destruct (is_private key) as [[|]|]; try (intros [= _ <-]; done).
    destruct (of_option _ _) as [[findex ftyp]|]; try (intros [= _ <-]; done).
    apply stable_set_raise.
  - intros cls key value self e self'.
    unfold Profile.__setattr__, mbind_method, lift, raise.
    destruct (is_private key) as [[|]|]; try (intros [= _ <-]; done).
    destruct (of_option _ _) as [[[findex ftyp] fopt]|]; try (intros [= _ <-]; done).
    destruct (is_none value && negb fopt); try (intros [= _ <-]; done).
    destruct (Profile.B cls) as [b|c].
    + apply stable_set_raise.
    + apply Profile_set_raise.
Qed.

Section profile_required.
Import Profile.
Context (cls : class) (b : StableContainer.class).
Hypothesis HB : B cls = StableBase b.
Hypothesis Hcls : ProfileSpec.class_ok cls.

Lemma profile_base_index fkey findex ftyp fopt :
  (fkey, (findex, ftyp, fopt)) ∈ _field_indices cls →
  findex < StableContainer.N b ∧
  ∃ btyp, StableContainer._field_indices b !! findex = Some (fkey, (findex, btyp)).
Proof.
  intros Hin. destruct Hcls as (_ & _ & Hb). rewrite HB in Hb. destruct Hb as [Hbok Hall].
  destruct (Hall _ _ _ _ Hin) as [btyp Hget].
  destruct (StableContainer_field_index _ _ _ _ Hbok Hget) as [Hlt Hpos].
  destruct Hbok as (_ & Hcount & _). split; [lia | eauto].
Qed.


End profile_required.



Lemma check_kwargs_inv (l : list (string * (nat * ViewType * bool)))
    (kwargs extra_kw : gmap string pyval) :
  NoDup l.*1 →
  Profile.check_kwargs l kwargs = Ok extra_kw →
  extra_kw = foldl (fun m '(k, _) => delete k m) kwargs l ∧
  ∀ fkey findex ftyp, (fkey, (findex, ftyp, false)) ∈ l → is_Some (kwargs !! fkey).
Proof.
  revert kwargs; induction l as [|[k [[i t] o]] l IH]; intros kwargs Hnd H.
  - simpl in H. injection H as <-. split; [done|]. by intros ??? ?%not_elem_of_nil.
  - cbn [fmap list_fmap fst] in Hnd. apply NoDup_cons in Hnd as [Hk Hnd].
    cbn [Profile.check_kwargs foldl] in *.
    assert (∀ fkey findex ftyp fopt, (fkey, (findex, ftyp, fopt)) ∈ l → fkey ≠ k) as Hne.
    { intros fkey findex ftyp fopt Hin ->. apply Hk. apply list_elem_of_fmap.
      by exists (k, (findex, ftyp, fopt)). }
    case_decide as Hsome.
    + destruct (IH _ Hnd H) as [-> Hall]. split; [done|].
      intros fkey findex ftyp [[= -> -> -> <-]|Hin]%elem_of_cons; [done|].
      specialize (Hall _ _ _ Hin). rewrite lookup_delete_ne in Hall; [done|].
      intros <-. by eapply Hne.
    + destruct o; cbn [negb] in H; [|discriminate].
      destruct (IH _ Hnd H) as [-> Hall]. split.
      * f_equal. symmetry. apply delete_id.
        destruct (kwargs !! k) eqn:E; [|done]. exfalso. apply Hsome. eauto.
      * intros fkey findex ftyp [[=]|Hin]%elem_of_cons. by eapply Hall.
Qed.

(** X11: [Profile.__new__] builds a value only from a field map that
    names every required field and names nothing the Profile does not
    declare; the value is then the one its base builds from that
    map. *)
Theorem Profile_new_checks (cls : Profile.class) (kwargs : gmap string pyval) (self : Node) :
  NoDup (Profile._field_indices cls).*1 →
  Profile.__new__ cls None kwargs = Ok self →
  (∀ fkey findex ftyp,
     (fkey, (findex, ftyp, false)) ∈ Profile._field_indices cls →
     is_Some (kwargs !! fkey)) ∧
  (∀ k, is_Some (kwargs !! k) → k ∈ (Profile._field_indices cls).*1) ∧
  Profile.base_new (Profile.B cls) None kwargs = Ok self.
Proof.
  intros Hnd H. unfold Profile.__new__ in H. inv_bind H.
  case_decide as Hsize; [discriminate|].
  destruct (check_kwargs_inv _ _ _ Hnd Ha) as [Hkw Hreq].
  split; [done|]. split; [|done].
  intros k Hk. destruct (decide (k ∈ (Profile._field_indices cls).*1)) as [|Hnotin]; [done|].
  exfalso. assert (a = ∅) as Hempty by (apply map_size_empty_iff; lia).
  assert (a !! k = None) as Hnone by (by rewrite Hempty, lookup_empty).
  rewrite Hkw, foldl_delete_lookup, decide_False in Hnone by done.
  rewrite Hnone in Hk. by destruct Hk.
Qed.

(** ** Decoding any stream *)

Section decode_loops.
Import Layout.

Lemma read_inv (stream : list byte) (n : nat) (bs rest : list byte) :
  read stream n = Ok (bs, rest) → stream = bs ++ rest ∧ length bs = n.
Proof.
  unfold read. case_decide as Hn; [|discriminate]. intros [= <- <-].
  split; [by rewrite take_drop | by rewrite length_take_le].
Qed.

Lemma View_deserialize_inv (ftyp : ViewType) (stream : list byte) (scope : nat)
    (v : Node) (rest : list byte) :
  View.deserialize ftyp stream scope = Ok (v, rest) →
  ∃ bs, stream = bs ++ rest ∧ length bs = scope ∧ View.decode ftyp bs = Ok v.
Proof.
  unfold View.deserialize. intros H. inv_bind H. destruct a as [bs rest'].
  inv_bind H. injection H as <- <-.
  destruct (read_inv _ _ _ _ Ha) as [-> Hlen]. eauto.
Qed.



(** The second loop, on any stream: the offsets it accepts, what it
    consumes and what it records. *)
Lemma deserialize_dyn_fields_inv (i0 : nat) (dyn : list FieldOffset) (scope : nat)
    (stream : list byte) (fv fv' : gmap string pyval) (stream' : list byte) :
  deserialize_dyn_fields i0 dyn scope stream fv = Ok (fv', stream') →
  ∃ consumed,
    stream = consumed ++ stream' ∧
    match dyn with
    | [] => consumed = []
    | fo :: _ => fo_offset fo ≤ scope ∧ length consumed = scope - fo_offset fo
    end ∧
    (∀ i fo, dyn !! i = Some fo →
       let next_offset := from_option fo_offset scope (dyn !! S i) in
       fo_offset fo ≤ next_offset ≤ scope ∧
       View.min_byte_length (fo_typ fo) ≤ next_offset - fo_offset fo
         ≤ View.max_byte_length (fo_typ fo)) ∧
    (∀ k v, fv' !! k = Some v →
       fv !! k = Some v ∨ (v ≠ PyNone ∧ k ∈ fo_key <$> dyn)) ∧
    (∀ k, is_Some (fv !! k) → is_Some (fv' !! k)) ∧
    (∀ fo, fo ∈ dyn → is_Some (fv' !! fo_key fo)).
Proof.
  revert i0 stream fv. induction dyn as [|fo rest IH]; intros i0 stream fv H.
  - simpl in H. injection H as <- <-. exists [].
    split; [done|]. split; [done|]. split; [intros i fo; by rewrite lookup_nil|].
    split; [by left|]. split; [done|]. by intros ? ?%not_elem_of_nil.
  - cbn [deserialize_dyn_fields] in H.
    set (next_offset := match rest with fo' :: _ => fo_offset fo' | [] => scope end) in *.
    case_decide as Hoff; [discriminate|].
    destruct (bool_decide _) eqn:Hsize; cbn [negb] in H; [|discriminate].
    apply bool_decide_eq_true in Hsize.
    inv_bind H. destruct a as [v stream1].
    apply View_deserialize_inv in Ha as (bs & -> & Hlen & _).
    apply IH in H as (consumed & -> & Hhead & Hoffs & H1 & H2 & H3).
    assert (next_offset ≤ scope ∧ length consumed = scope - next_offset) as [Hnext Hc].
    { unfold next_offset. destruct rest as [|fo' rest']; [|done].
      subst consumed. simpl. lia. }
    exists (bs ++ consumed). split; [by rewrite <- app_assoc|].
    split; [split; [lia | rewrite length_app; lia]|].
    split; [|split; [|split]].
    + intros [|i] fo1 Hi; simpl in Hi.
      * injection Hi as <-. cbv zeta.
        replace (from_option fo_offset scope ((fo :: rest) !! 1)) with next_offset
          by (unfold next_offset; by destruct rest).
        lia.
      * apply (Hoffs i fo1 Hi).
    + intros k v' Hk. destruct (H1 k v' Hk) as [Hin|[Hv Hin]].
      * destruct (decide (k = fo_key fo)) as [->|Hne].
        -- rewrite lookup_insert_eq in Hin. injection Hin as <-. right.
           split; [done|]. cbn [fmap list_fmap]. apply list_elem_of_here.
        -- rewrite lookup_insert_ne in Hin by done. by left.
      * right. split; [done|]. cbn [fmap list_fmap]. by apply list_elem_of_further.
    + intros k Hk. apply H2. destruct (decide (k = fo_key fo)) as [->|Hne].
      * rewrite lookup_insert_eq. eauto.
      * by rewrite lookup_insert_ne.
    + intros fo1 [->|Hin]%elem_of_cons; [|by apply H3].
      apply H2. rewrite lookup_insert_eq. eauto.
Qed.

End decode_loops.

(** X12: the offset table [deserialize] accepts: every offset is at
    least the size of the fixed section and at most the next offset,
    the last at most the scope, and the size each pair of offsets
    implies for a field lies within the bounds of the field's type. *)
Theorem deserialize_offsets_sorted (dyn_fields : list FieldOffset) (fixed_size scope : nat)
    (stream : list byte) (field_values : gmap string pyval)
    (r : gmap string pyval * list byte) :
  deserialize_offsets dyn_fields fixed_size scope stream field_values = Ok r →
  ∀ i fo, dyn_fields !! i = Some fo →
    let next_offset := from_option fo_offset scope (dyn_fields !! S i) in
    fixed_size ≤ fo_offset fo ∧
    fo_offset fo ≤ next_offset ≤ scope ∧
    View.min_byte_length (fo_typ fo) ≤ next_offset - fo_offset fo
      ≤ View.max_byte_length (fo_typ fo).
Proof.
  intros H. unfold deserialize_offsets in H.
  destruct dyn_fields as [|fo0 rest] eqn:Hdyn; [intros i fo; by rewrite lookup_nil|].
  case_decide as Hfirst; [discriminate|]. destruct r as [fv' stream'].
  destruct (deserialize_dyn_fields_inv _ _ _ _ _ _ _ H) as (_ & _ & _ & Hoffs & _).
  assert (∀ i fo, (fo0 :: rest) !! i = Some fo → fixed_size ≤ fo_offset fo) as Hge.
  { induction i as [|i IH]; intros fo Hi.
    - injection Hi as <-. lia.
    - destruct (lookup_lt_is_Some_2 (fo0 :: rest) i) as [prev Hprev].
      { apply lookup_lt_Some in Hi. lia. }
      specialize (IH prev Hprev). destruct (Hoffs i prev Hprev) as [Hle _].
      rewrite Hi in Hle. simpl in Hle. lia. }
  intros i fo Hi. split; [by eapply Hge|]. by apply Hoffs.
Qed.
Section stable_decode.
Import StableContainer StableSpec Layout.
Context (cls : class).
Hypothesis Hcls : class_ok cls.



End stable_decode.



(** ** What is written and what is sized *)

Lemma stable_serialize_fields_extends (cls : StableContainer.class)
    (fs : list (string * (nat * ViewType))) (af : Bitvector.t) (data : Node)
    (stream : list byte) (temp : option (list byte)) (ndb : nat)
    (stream' : list byte) (temp' : option (list byte)) (ndb' : nat) :
  StableContainer.serialize_fields cls fs af data stream temp ndb
    = Ok (stream', temp', ndb') →
  ∃ written, stream' = stream ++ written.
Proof.
  revert stream temp ndb. induction fs as [|[fkey [findex ftyp]] fs IH];
    intros stream temp ndb H.
  - simpl in H. injection H as <- _ _. exists []. by rewrite app_nil_r.
  - cbn [StableContainer.serialize_fields] in H. inv_bind H.
    destruct a; cbn [negb] in H; [|by eapply IH].
    inv_bind H. destruct (View.is_fixed_byte_length ftyp).
    + inv_bind H. apply IH in H as [written ->].
      exists (a0 ++ written). by rewrite <- app_assoc.
    + inv_bind H. inv_bind H. inv_bind H. apply IH in H as [written ->].
      exists (a0 ++ written). by rewrite <- app_assoc.
Qed.

Lemma profile_serialize_fields_extends
    (fs : list (string * (nat * ViewType * bool))) (af : option Bitvector.t)
    (data : Node) (n : nat)
    (stream : list byte) (temp : option (list byte)) (ndb : nat)
    (stream' : list byte) (temp' : option (list byte)) (ndb' : nat) :
  Profile.serialize_fields fs af data n stream temp ndb = Ok (stream', temp', ndb') →
  ∃ written, stream' = stream ++ written.
Proof.
  revert stream temp ndb. induction fs as [|[fkey [[findex ftyp] fopt]] fs IH];
    intros stream temp ndb H.
  - simpl in H. injection H as <- _ _. exists []. by rewrite app_nil_r.
  - cbn [Profile.serialize_fields] in H. inv_bind H.
    destruct a; [by eapply IH|].
    inv_bind H. destruct (View.is_fixed_byte_length ftyp).
    + inv_bind H. apply IH in H as [written ->].
      exists (a0 ++ written). by rewrite <- app_assoc.
    + inv_bind H. inv_bind H. inv_bind H. apply IH in H as [written ->].
      exists (a0 ++ written). by rewrite <- app_assoc.
Qed.

Lemma Bitvector_deserialize_encode (K : nat) (bs : list bool) (rest : list byte) :
  length bs = K →
  Bitvector.deserialize K
    (le_bytes (Bitvector.type_byte_length K) (bits_value bs) ++ rest)
    (Bitvector.type_byte_length K)
  = Ok (Bitvector.view_from_backing K (Bitvector.pack K bs), rest).
Proof.
  intros Hlen. unfold Bitvector.deserialize.
  rewrite read_app_eq by (by rewrite length_le_bytes). cbn [rbind].
  by rewrite Bitvector_decode_encode.
Qed.

(** X15: the bytes [StableContainer.serialize] writes open with the
    active-fields bitvector of the value: decoded as [Bitvector[N]],
    the first [ceil(N/8)] bytes give the active fields back. *)
Theorem StableContainer_serialize_prefix (cls : StableContainer.class)
    (self : Node) (row : list Node) (bs : list bool) (out : list byte) (n : nat) :
  StableSpec.laid_out cls self row bs →
  StableContainer.serialize cls self = Ok (out, n) →
  ∃ active_fields rest,
    StableContainer.active_fields cls self = Ok active_fields ∧
    Bitvector.deserialize (StableContainer.N cls) out
      (Bitvector.type_byte_length (StableContainer.N cls)) = Ok (active_fields, rest).
Proof.
  intros (data & -> & Hbs & Hrow) H.
  unfold StableContainer.serialize, StableContainer.active_fields in *.
  cbn [get_right get_left rbind] in *.
  rewrite Bitvector_serialize_pack in H by done. cbn [rbind] in H.
  inv_bind H. destruct a as [ndb hd]. inv_bind H. destruct a as [[stream temp] ndb'].
  apply stable_serialize_fields_extends in Ha0 as [written ->].
  inv_bind H. injection H as <- _.
  assert (∃ written', a = le_bytes (Bitvector.type_byte_length (StableContainer.N cls))
                              (bits_value bs) ++ written') as [written' ->].
  { destruct hd.
    - inv_bind Ha0. injection Ha0 as <-. exists (written ++ a0). by rewrite <- app_assoc.
    - injection Ha0 as <-. eauto. }
  eexists _, written'. split; [done|]. by apply Bitvector_deserialize_encode.
Qed.

(** X16: [optional_fields] of a Profile over a StableContainer has one
    bit per optional field, in declaration order, and bit [j] tells
    whether the [j]-th optional field is present; it raises over a
    plain Container, and when the Profile has no optional field. *)
Theorem Profile_optional_fields_spec :
  (∀ cls b self row bs,
     Profile.B cls = Profile.StableBase b →
     ProfileSpec.class_ok cls →
     StableSpec.laid_out b self row bs →
     0 < Profile._o cls →
     ∃ optional_fields,
       Profile.optional_fields cls self = Ok optional_fields ∧
       Bitvector.K optional_fields = Profile._o cls ∧
       ∀ j fkey findex ftyp fopt,
         filter (fun '(_, (_, _, fopt)) => fopt = true) (Profile._field_indices cls) !! j
           = Some (fkey, (findex, ftyp, fopt)) →
         Bitvector.get optional_fields j = StableSpec.bit b self findex) ∧
  (∀ cls c self,
     Profile.B cls = Profile.ContainerBase c →
     Profile.optional_fields cls self = Err Exception_requires_stable_base) ∧
  (∀ cls b self,
     Profile.B cls = Profile.StableBase b →
     Profile._o cls = 0 →
     Profile.optional_fields cls self = Err Exception_no_optional_fields).
Proof.
  split; [|split].
  - intros cls b self row bs HB Hcls Hlaid Ho.
    rewrite (ps_optional_fields cls b self row bs HB Hcls Hlaid Ho).
    eexists. split; [done|]. split; [done|].
    intros j fkey findex ftyp fopt Hj.
    pose proof Hcls as (_ & Hoeq & _).
    assert (length (Layout.optional_bits (fun i => bs !!! i) (Profile._field_indices cls))
            = Profile._o cls) as Hlen
      by (unfold Layout.optional_bits; by rewrite length_fmap).
    pose proof (lookup_lt_Some _ _ _ Hj) as Hlt. rewrite <- Hoeq in Hlt.
    rewrite Bitvector_get_pack by done.
    assert ((fkey, (findex, ftyp, fopt)) ∈ Profile._field_indices cls) as Hin.
    { apply list_elem_of_lookup_2 in Hj. by apply list_elem_of_filter in Hj as [_ ?]. }
    destruct (profile_base_index cls b HB Hcls _ _ _ _ Hin) as [Hi _].
    destruct (laid_out_bit b self row bs findex Hlaid Hi) as (x & Hx & ->).
    f_equal. apply list_lookup_total_correct.
    unfold Layout.optional_bits. rewrite list_lookup_fmap, Hj. simpl.
    f_equal. by apply list_lookup_total_correct.
  - intros cls c self HB. unfold Profile.optional_fields. by rewrite HB.
  - intros cls b self HB Ho. unfold Profile.optional_fields. rewrite HB.
    cbn [Profile.is_stable negb]. by rewrite decide_True.
Qed.

(** X17: the bytes a Profile with optional fields writes open with its
    optional-fields bitvector: decoded as [Bitvector[_o]], the first
    [ceil(_o/8)] bytes give [optional_fields()] back. *)
Theorem Profile_serialize_prefix (cls : Profile.class) (b : StableContainer.class)
    (self : Node) (row : list Node) (bs : list bool) (out : list byte) (n : nat) :
  Profile.B cls = Profile.StableBase b →
  ProfileSpec.class_ok cls →
  StableSpec.laid_out b self row bs →
  0 < Profile._o cls →
  Profile.serialize cls self = Ok (out, n) →
  ∃ optional_fields rest,
    Profile.optional_fields cls self = Ok optional_fields ∧
    Bitvector.deserialize (Profile._o cls) out
      (Bitvector.type_byte_length (Profile._o cls)) = Ok (optional_fields, rest).
Proof.
  intros HB Hcls Hlaid Ho H.
  pose proof (ps_optional_fields cls b self row bs HB Hcls Hlaid Ho) as Hopt.
  pose proof Hcls as (_ & Hoeq & _).
  assert (length (Layout.optional_bits (fun i => bs !!! i) (Profile._field_indices cls))
          = Profile._o cls) as Hlen
    by (unfold Layout.optional_bits; by rewrite length_fmap).
  unfold Profile.serialize, Profile.serialize_state in H.
  rewrite decide_True in H by done. rewrite Hopt in H. cbn [rbind] in H.
  rewrite Bitvector_serialize_pack in H by done. cbn [rbind] in H.
  inv_bind H. destruct a as [[[[npb stream] hd] temp] ndb].
  inv_bind Ha. destruct a as [[ndb0 hd0] oindex].
  case_decide; [discriminate|]. inv_bind Ha. destruct a as [[data af] n0].
  inv_bind Ha. destruct a as [[stream1 temp1] ndb1]. injection Ha as _ <- _ _ _.
  apply profile_serialize_fields_extends in Ha2 as [written ->].
  inv_bind H. injection H as <- _.
  assert (∃ written', a = le_bytes (Bitvector.type_byte_length (Profile._o cls))
                              (bits_value (Layout.optional_bits (fun i => bs !!! i)
                                             (Profile._field_indices cls))) ++ written')
    as [written' ->].
  { destruct hd.
    - inv_bind Ha. injection Ha as <-. eexists. by rewrite <- app_assoc.
    - injection Ha as <-. eauto. }
  eexists _, written'. split; [done|]. by apply Bitvector_deserialize_encode.
Qed.

Lemma profile_fixed_folds (l : list (string * (nat * ViewType * bool))) (init : nat) :
  (∀ fkey findex ftyp fopt, (fkey, (findex, ftyp, fopt)) ∈ l →
     fopt = false ∧ View.is_fixed_byte_length ftyp = true ∧
     View.min_byte_length ftyp = View.max_byte_length ftyp) →
  fold_left
    (fun total '(_, (_, ftyp, fopt)) =>
       if (fopt : bool) then total else
       let total :=
         if negb (View.is_fixed_byte_length ftyp)
         then total + OFFSET_BYTE_LENGTH else total in
       total + View.min_byte_length ftyp) l init
  = fold_left
      (fun total '(_, (_, ftyp, _)) =>
         let total :=
           if negb (View.is_fixed_byte_length ftyp)
           then total + OFFSET_BYTE_LENGTH else total in
         total + View.max_byte_length ftyp) l init.
Proof.
  revert init. induction l as [|[fkey [[findex ftyp] fopt]] l IH]; intros init Hall; [done|].
  destruct (Hall fkey findex ftyp fopt) as (-> & Hfix & Heq); [apply list_elem_of_here|].
  cbn [fold_left]. rewrite Hfix, Heq. cbn [negb]. apply IH.
  intros k i t o Hin. apply (Hall k i t o). by apply list_elem_of_further.
Qed.

(** X18: a Profile is of fixed byte length when it has no optional
    field and every field is of fixed length; its smallest and its
    largest encoding are then of the same length, [type_byte_length]
    returns it, and [serialize] writes that many bytes for every
    well-formed value.  Of a Profile that is not, [type_byte_length]
    raises. *)
Theorem Profile_fixed_byte_length :
  (∀ cls,
     ProfileSpec.class_ok cls → ProfileSpec.fields_ok cls →
     Profile.is_fixed_byte_length cls = true →
     Profile.min_byte_length cls = Profile.max_byte_length cls ∧
     Profile.type_byte_length cls = Ok (Profile.min_byte_length cls) ∧
     ∀ self out n,
       ProfileSpec.well_formed cls self →
       Profile.serialize cls self = Ok (out, n) →
       length out = Profile.min_byte_length cls) ∧
  (∀ cls,
     Profile.is_fixed_byte_length cls = false →
     Profile.type_byte_length cls = Err ViewError).
Proof.
  split.
  - intros cls Hcls Hfok Hfixed.
    assert (Profile.min_byte_length cls = Profile.max_byte_length cls) as Heq.
    { unfold Profile.is_fixed_byte_length in Hfixed.
      case_decide as Ho; [discriminate|].
      unfold Profile.min_byte_length, Profile.max_byte_length.
      apply profile_fixed_folds. intros fkey findex ftyp fopt Hin.
      rewrite forallb_forall in Hfixed.
      assert (View.is_fixed_byte_length ftyp = true) as Hfix.
      { apply (Hfixed (fkey, (findex, ftyp, fopt))). by apply list_elem_of_In. }
      destruct (Hfok _ _ _ _ Hin) as [Hmm _]. destruct (Hmm Hfix) as [-> ->].
      split; [|done]. destruct Hcls as (_ & Hoeq & _).
      destruct fopt; [|done]. exfalso. apply Ho. rewrite Hoeq.
      assert ((fkey, (findex, ftyp, true))
                ∈ filter (fun '(_, (_, _, fopt)) => fopt = true) (Profile._field_indices cls))
        as Hf by (by apply list_elem_of_filter).
      destruct (filter _ _); [by apply not_elem_of_nil in Hf | simpl; lia]. }
    split; [done|]. split; [unfold Profile.type_byte_length; by rewrite Hfixed|].
    intros self out n Hwf H. unfold ProfileSpec.well_formed in Hwf.
    destruct (Profile.B cls) as [b|c] eqn:HB.
    + destruct Hwf as (row & bs & Hlaid & HA1 & Hdecl & Hfield).
      destruct (Profile_stable_size_bounds cls b self row bs HB Hcls Hfok Hlaid Hfield out n H)
        as [-> Hb]. lia.
    + destruct Hwf as (row & Hrow & Hzero & Hvalid).
      destruct (Profile_container_size_bounds cls c self row HB Hcls Hfok Hrow Hvalid out n H)
        as [-> Hb]. lia.
  - intros cls Hfixed. unfold Profile.type_byte_length. by rewrite Hfixed.
Qed.

Section empty_value.
Import StableContainer.
Context (cls : class) (af : Bitvector.t).
Hypothesis Hfalse :
  ∀ fkey findex ftyp, (fkey, (findex, ftyp)) ∈ _field_indices cls →
    Bitvector.get af findex = Ok false.

Lemma serialize_sizes_absent (fs : list (string * (nat * ViewType)))
    (ndb : nat) (hd : bool) :
  fs ⊆ _field_indices cls →
  serialize_sizes fs af ndb hd = Ok (ndb, hd).
Proof.
  induction fs as [|[fkey [findex ftyp]] fs IH]; intros Hsub; [done|].
  cbn [serialize_sizes]. rewrite (Hfalse fkey findex ftyp).
  - cbn [rbind negb]. apply IH. intros x Hx. apply Hsub. by apply list_elem_of_further.
  - apply Hsub, list_elem_of_here.
Qed.

Lemma serialize_fields_absent (fs : list (string * (nat * ViewType)))
    (data : Node) (stream : list byte) (temp : option (list byte)) (ndb : nat) :
  fs ⊆ _field_indices cls →
  serialize_fields cls fs af data stream temp ndb = Ok (stream, temp, ndb).
Proof.
  induction fs as [|[fkey [findex ftyp]] fs IH]; intros Hsub; [done|].
  cbn [serialize_fields]. rewrite (Hfalse fkey findex ftyp).
  - cbn [rbind negb]. apply IH. intros x Hx. apply Hsub. by apply list_elem_of_further.
  - apply Hsub, list_elem_of_here.
Qed.

End empty_value.

Lemma le_bytes_0 (k : nat) : le_bytes k 0 = replicate k Byte.x00.
Proof.
  induction k as [|k IH]; [done|].
  cbn [le_bytes replicate]. change (0 / 256)%N with 0%N. by rewrite IH.
Qed.

Lemma bits_value_replicate_false (k : nat) : bits_value (replicate k false) = 0%N.
Proof. induction k as [|k IH]; [done|]. simpl. rewrite IH. done. Qed.

(** X19: the value built from no field at all has no field present,
    and [serialize] writes for it the bitvector alone, all zero: the
    [ceil(N/8)] bytes that [min_byte_length] announces. *)
Theorem StableContainer_empty_value (cls : StableContainer.class) :
  StableSpec.class_ok cls →
  ∃ self,
    StableContainer.__new__ cls None ∅ = Ok self ∧
    (∀ i, i < StableContainer.N cls → StableSpec.bit cls self i = Ok false) ∧
    StableContainer.serialize cls self
      = Ok (replicate (StableContainer.min_byte_length cls) Byte.x00,
            StableContainer.min_byte_length cls).
Proof.
  intros Hcls. pose proof Hcls as (Hpos0 & Hcount & Hnd & Hpos).
  pose proof (capacity_fits cls) as Hfit.
  assert (∀ fs0 : list (string * (nat * ViewType)),
            foldl (fun b '(_, (i, _)) => <[i := false]> b)
              (replicate (StableContainer.N cls) false) fs0
            = replicate (StableContainer.N cls) false) as Hbits.
  { induction fs0 as [|[k [i t]] fs0 IH]; [done|].
    cbn [foldl]. rewrite <- IH at 2. f_equal.
    apply list_eq. intros j. destruct (decide (j = i)) as [->|Hne].
    - destruct (decide (i < StableContainer.N cls)).
      + rewrite list_lookup_insert_eq by (by rewrite length_replicate).
        symmetry. by apply lookup_replicate_2.
      + by rewrite list_insert_ge by (rewrite length_replicate; lia).
    - by rewrite list_lookup_insert_ne. }
  pose proof (new_fields_rebuild cls (fun _ => false) (fun _ => zero_node 0)
                (StableContainer._field_indices cls) ∅ []
                (replicate (StableContainer.N cls) false) Hnd (length_replicate _ _)) as Hnew.
  cbv beta in Hnew. rewrite Hbits in Hnew.
  assert (∀ fkey findex ftyp,
            (fkey, (findex, ftyp)) ∈ StableContainer._field_indices cls →
            findex < StableContainer.N cls) as Hrange.
  { intros fkey findex ftyp [j Hj]%list_elem_of_lookup_1.
    pose proof (Hpos _ _ _ _ Hj) as ->. apply lookup_lt_Some in Hj. lia. }
  eexists. split; [|split].
  - unfold StableContainer.__new__, Bitvector.new. rewrite Hnew.
    + cbn [rbind]. rewrite decide_False.
      * unfold subtree_fill_to_contents. rewrite decide_True; [done|].
        rewrite app_nil_l, length_fmap. lia.
      * rewrite foldl_delete_empty; [rewrite map_size_empty; lia|].
        intros k _. apply lookup_empty.
    + intros fkey findex ftyp Hin.
      split; [by eapply Hrange|]. by rewrite lookup_empty.
  - intros i Hi. unfold StableSpec.bit, StableContainer.active_fields.
    cbn [get_right rbind Bitvector.get_backing].
    rewrite Bitvector_get_pack by (done || apply length_replicate).
    f_equal. apply list_lookup_total_correct. by apply lookup_replicate_2.
  - unfold StableContainer.serialize, StableContainer.active_fields.
    cbn [get_right get_left rbind Bitvector.get_backing].
    rewrite Bitvector_serialize_pack by apply length_replicate. cbn [rbind].
    assert (∀ fkey findex ftyp,
              (fkey, (findex, ftyp)) ∈ StableContainer._field_indices cls →
              Bitvector.get (Bitvector.view_from_backing (StableContainer.N cls)
                               (Bitvector.pack (StableContainer.N cls)
                                  (replicate (StableContainer.N cls) false))) findex
              = Ok false) as Hfalse.
    { intros fkey findex ftyp Hin. pose proof (Hrange _ _ _ Hin) as Hlt.
      rewrite Bitvector_get_pack by (apply length_replicate || done).
      f_equal. apply list_lookup_total_correct. by apply lookup_replicate_2. }
    rewrite (serialize_sizes_absent cls _ Hfalse) by done. cbn [rbind].
    rewrite (serialize_fields_absent cls _ Hfalse) by done. cbn [rbind].
    rewrite bits_value_replicate_false, le_bytes_0, length_replicate.
    unfold StableContainer.min_byte_length. by rewrite Nat.add_0_r.
Qed.

(** ** Generalized indices, types and the optional counter *)

(** X20: a Profile over a StableContainer gives every key the
    generalized index its base gives it, so a Merkle proof against the
    one is a proof against the other. *)
Theorem Profile_gindex_matches_base (cls : Profile.class) (b : StableContainer.class)
    (key : string) :
  Profile.B cls = Profile.StableBase b →
  ProfileSpec.class_ok cls →
  key = "__active_fields__" ∨ key ∈ (Profile._field_indices cls).*1 →
  ∃ gindex,
    Profile.key_to_static_gindex cls key = Ok gindex ∧
    StableContainer.key_to_static_gindex b key = Ok gindex.
Proof.
  intros HB Hcls Hkey.
  unfold Profile.key_to_static_gindex, StableContainer.key_to_static_gindex.
  destruct (decide (key = "__active_fields__")) as [->|Hne]; [by eexists|].
  destruct Hkey as [?|Hkey]; [done|].
  apply list_elem_of_fmap in Hkey as ([k [[i t] o]] & -> & Hin).
  pose proof Hcls as (Hnd & _ & Hb). rewrite HB in Hb. destruct Hb as [_ Hall].
  destruct (Hall _ _ _ _ Hin) as [btyp Hget].
  cbn [fst]. rewrite (dict_get_elem_of _ _ _ Hnd Hin), Hget. cbn [of_option rbind].
  rewrite HB. by eexists.
Qed.

(** X21: no two keys of a StableContainer share a generalized index:
    the fields sit at distinct leaves, and none of them at the node of
    the active fields. *)
Theorem StableContainer_gindex_injective (cls : StableContainer.class)
    (key key' : string) (gindex : nat) :
  StableSpec.class_ok cls →
  StableContainer.key_to_static_gindex cls key = Ok gindex →
  StableContainer.key_to_static_gindex cls key' = Ok gindex →
  key = key'.
Proof.
  intros Hcls H H'. pose proof Hcls as (Hpos0 & Hcount & Hnd & Hpos).
  pose proof (capacity_fits cls) as Hfit.
  assert (∀ k g, k ≠ "__active_fields__" →
            StableContainer.key_to_static_gindex cls k = Ok g →
            ∃ i t, StableContainer._field_indices cls !! i = Some (k, (i, t)) ∧
                   g = 2 ^ get_depth (StableContainer.N cls) * 2 + i ∧
                   i < StableContainer.N cls) as Hfield.
  { intros k g Hk Hg. unfold StableContainer.key_to_static_gindex in Hg.
    rewrite decide_False in Hg by done.
    destruct (dict_get k (StableContainer._field_indices cls)) as [[i t]|] eqn:Hget;
      [|discriminate].
    cbn [of_option rbind] in Hg. injection Hg as <-.
    destruct (StableContainer_field_index _ _ _ _ Hcls Hget) as [Hlt Hi].
    exists i, t. split; [done|]. split; [done | lia]. }
  assert (∀ k g, k ≠ "__active_fields__" →
            StableContainer.key_to_static_gindex cls k = Ok g → g ≠ 3) as Hnot3.
  { intros k g Hk Hg. destruct (Hfield k g Hk Hg) as (i & t & _ & -> & Hi).
    destruct (get_depth (StableContainer.N cls)) as [|d].
    - simpl in *. lia.
    - rewrite Nat.pow_succ_r'. pose proof (pow2_pos d). lia. }
  destruct (decide (key = "__active_fields__")) as [->|Hk],
           (decide (key' = "__active_fields__")) as [->|Hk'].
  - done.
  - exfalso. injection H as <-. by eapply Hnot3.
  - exfalso. injection H' as <-. by eapply Hnot3.
  - destruct (Hfield key gindex Hk H) as (i & t & Hi & -> & _).
    destruct (Hfield key' _ Hk' H') as (i' & t' & Hi' & Heq & _).
    assert (i' = i) as -> by lia. rewrite Hi in Hi'. by injection Hi'.
Qed.

Section navigate.

Lemma dict_get_Forall2 {A B} (R : A → B → Prop)
    (l1 : list (string * A)) (l2 : list (string * B)) (key : string) :
  Forall2 (fun x y => x.1 = y.1 ∧ R x.2 y.2) l1 l2 →
  match dict_get key l1, dict_get key l2 with
  | Some a, Some b => R a b
  | None, None => True
  | _, _ => False
  end.
Proof.
  induction 1 as [|[k a] [k' b] l1 l2 [Hk HR] _ IH]; [done|].
  simpl in Hk. subst k'. simpl. by case_decide.
Qed.

Lemma enumerate_fields_Forall2 (findex : nat) (annotations : list (string * annotation))
    (fields : list (string * (nat * ViewType))) :
  StableContainer.enumerate_fields findex annotations = Ok fields →
  Forall2 (fun (x : string * annotation) (y : string * (nat * ViewType)) =>
             x.1 = y.1 ∧ x.2 = Optional y.2.2) annotations fields.
Proof.
  revert findex fields; induction annotations as [|[fkey [t|t]] rest IH];
    intros findex fields H; simpl in H.
  - injection H as <-. constructor.
  - inv_bind H. injection H as <-. constructor; [done | by eapply IH].
  - discriminate.
Qed.

Lemma bind_fields_Forall2 (B : Profile.base) (annotations : list (string * annotation))
    (fields : list (string * (nat * ViewType * bool))) (o : nat)
    (fields' : list (string * (nat * ViewType * bool))) (o' : nat) :
  Profile.bind_fields B annotations fields o = Ok (fields', o') →
  ∃ new, fields' = fields ++ new ∧
    Forall2 (fun (x : string * annotation) (y : string * (nat * ViewType * bool)) =>
               x.1 = y.1 ∧
               x.2 = if y.2.2 then Optional y.2.1.2 else Plain y.2.1.2)
      annotations new.
Proof.
  revert fields o; induction annotations as [|[fkey t] rest IH]; intros fields o H.
  - simpl in H. injection H as <- <-. exists []. by rewrite app_nil_r.
  - cbn [Profile.bind_fields] in H. inv_bind H. destruct a as [findex btyp].
    inv_bind H. destruct a as [ftyp fopt].
    destruct (Profile.compatible ftyp btyp); [|discriminate].
    apply IH in H as (new & -> & Hall).
    exists ((fkey, (findex, ftyp, fopt)) :: new).
    split; [by rewrite <- app_assoc|]. constructor; [|done].
    split; [done|]. simpl. destruct t as [t|t].
    + destruct (Profile.is_stable B); [|discriminate]. by injection Ha0 as <- <-.
    + by injection Ha0 as <- <-.
Qed.

End navigate.

(** X22: [navigate_type] gives back the annotation a field was
    declared with, of a StableContainer as of a Profile, and raises
    [KeyError] for a name that was not annotated; the key
    [__active_fields__] is the bitvector of the capacity. *)
Theorem navigate_type_declared :
  (∀ n annotations cls key,
     StableContainer.declare n annotations = Ok cls →
     StableContainer.navigate_type cls key
     = if decide (key = "__active_fields__")
       then inr (NavBitvector (Z.to_nat n))
       else match dict_get key annotations with
            | Some t => inr (NavField t)
            | None => inl (KeyError key)
            end) ∧
  (∀ base annotations cls key,
     Profile.__init_subclass__ base annotations = Ok cls →
     key ≠ "__active_fields__" →
     Profile.navigate_type cls key
     = match dict_get key annotations with
       | Some t => inr (NavField t)
       | None => inl (KeyError key)
       end).
Proof.
  split.
  - intros n annotations cls key H. unfold StableContainer.declare in H. inv_bind H.
    unfold StableContainer.__class_getitem__ in Ha.
    case_decide as Hn; [discriminate|]. injection Ha as <-.
    unfold StableContainer.__init_subclass__ in H. inv_bind H.
    case_decide as Hlen; [discriminate|]. injection H as <-.
    unfold StableContainer.navigate_type.
    cbn [StableContainer.N StableContainer._field_indices].
    case_decide; [done|].
    pose proof (dict_get_Forall2 (fun (t : annotation) (f : nat * ViewType) => t = Optional f.2)
                  _ _ key (enumerate_fields_Forall2 _ _ _ Ha)) as Hrel.
    destruct (dict_get key annotations) as [t|], (dict_get key a) as [[i ftyp]|];
      try done. simpl in Hrel. by subst t.
  - intros base annotations cls key H Hkey. unfold Profile.__init_subclass__ in H.
    inv_bind H. destruct a as [fields o]. inv_bind H. injection H as <-.
    apply bind_fields_Forall2 in Ha as (new & Hf & Hall). simpl in Hf. subst new.
    unfold Profile.navigate_type. cbn [Profile._field_indices].
    rewrite decide_False by done.
    pose proof (dict_get_Forall2
                  (fun (t : annotation) (f : nat * ViewType * bool) =>
                     t = if f.2 then Optional f.1.2 else Plain f.1.2)
                  _ _ key Hall) as Hrel.
    destruct (dict_get key annotations) as [t|], (dict_get key fields) as [[[i ftyp] fopt]|];
      try done. simpl in Hrel. by subst t.
Qed.

(** X23: a field of a Profile over a StableContainer reads as the same
    field of the base read on the same backing: the same node, under
    the Profile's type for it; where the base reads [None], the Profile
    reads [None] if the field is optional and fails its assertion if
    it is required. *)
Theorem Profile_getattr_matches_base (cls : Profile.class) (b : StableContainer.class)
    (self : Node) (key : string) (findex : nat) (ftyp : ViewType) (fopt : bool) :
  Profile.B cls = Profile.StableBase b →
  ProfileSpec.class_ok cls →
  dict_get key (Profile._field_indices cls) = Some (findex, ftyp, fopt) →
  match StableContainer.__getattr__ b self key with
  | Ok (PyView _ fnode) =>
      Profile.__getattr__ cls self key = Ok (PyView (View.type_name ftyp) fnode)
  | Ok PyNone =>
      Profile.__getattr__ cls self key = if fopt then Ok PyNone else Err AssertionError
  | Ok _ => False
  | Err e => Profile.__getattr__ cls self key = Err e
  end.
Proof.
  intros HB Hcls Hget.
  pose proof Hcls as (_ & _ & Hb). rewrite HB in Hb. destruct Hb as [_ Hall].
  destruct (Hall _ _ _ _ (dict_get_Some _ _ _ Hget)) as [btyp Hbget].
  unfold StableContainer.__getattr__, Profile.__getattr__.
  destruct (is_private key) as [[|]|e]; cbn [rbind]; [done| |done].
  rewrite Hget, Hbget. cbn [of_option rbind]. rewrite HB.
  unfold stable_get, Profile.active_fields, StableContainer.active_fields. rewrite HB.
  destruct (get_right self) as [r|e]; cbn [rbind]; [|done].
  destruct (Bitvector.get _ findex) as [[|]|e]; cbn [rbind negb]; [| |done].
  - destruct (get_left self) as [data|e]; cbn [rbind]; [|done].
    by destruct (getter data _) as [fnode|e].
  - by destruct fopt.
Qed.

Section oindex.
Import Profile.

Lemma deserialize_fields_oindex (fs : list (string * (nat * ViewType * bool)))
    (optional_fields : option Bitvector.t) (stream : list byte)
    (fv : gmap string pyval) (dyn : list FieldOffset) (fixed oindex : nat)
    (fv' : gmap string pyval) (dyn' : list FieldOffset) (fixed' oindex' : nat)
    (stream' : list byte) :
  deserialize_fields fs optional_fields stream fv dyn fixed oindex
    = Ok (fv', dyn', fixed', oindex', stream') →
  oindex' = oindex + length (filter (fun '(_, (_, _, fopt)) => fopt = true) fs).
Proof.
  revert stream fv dyn fixed oindex.
  induction fs as [|[fkey [[findex ftyp] fopt]] fs IH];
    intros stream fv dyn fixed oindex H.
  - simpl in H. injection H as _ _ _ <- _. simpl. lia.
  - cbn [deserialize_fields] in H. inv_bind H. destruct a as [has_field oindex1].
    assert (oindex1 = if fopt then S oindex else oindex) as ->.
    { destruct fopt.
      - inv_bind Ha. inv_bind Ha. by injection Ha as _ <-.
      - by injection Ha as _ <-. }
    assert (oindex' = (if fopt then S oindex else oindex)
                      + length (filter (fun '(_, (_, _, fopt)) => fopt = true) fs))
      as ->.
    { destruct has_field; cbn [negb] in H; [|by eapply IH].
      destruct (View.is_fixed_byte_length ftyp).
      - inv_bind H. destruct a as [v s]. by eapply IH.
      - inv_bind H. destruct a as [off s]. by eapply IH. }
    destruct fopt.
    + rewrite filter_cons_True by done. simpl. lia.
    + rewrite filter_cons_False by done. lia.
Qed.

Lemma serialize_sizes_oindex (fs : list (string * (nat * ViewType * bool)))
    (optional_fields : option Bitvector.t) (ndb : nat) (hd : bool) (oindex : nat)
    (ndb' : nat) (hd' : bool) (oindex' : nat) :
  serialize_sizes fs optional_fields ndb hd oindex = Ok (ndb', hd', oindex') →
  oindex' = oindex + length (filter (fun '(_, (_, _, fopt)) => fopt = true) fs).
Proof.
  revert ndb hd oindex.
  induction fs as [|[fkey [[findex ftyp] fopt]] fs IH]; intros ndb hd oindex H.
  - simpl in H. injection H as _ _ <-. simpl. lia.
  - cbn [serialize_sizes] in H. inv_bind H. destruct a as [has_field oindex1].
    assert (oindex1 = if fopt then S oindex else oindex) as ->.
    { destruct fopt.
      - inv_bind Ha. inv_bind Ha. by injection Ha as _ <-.
      - by injection Ha as _ <-. }
    assert (oindex' = (if fopt then S oindex else oindex)
                      + length (filter (fun '(_, (_, _, fopt)) => fopt = true) fs))
      as ->.
    { destruct has_field; cbn [negb] in H; [|by eapply IH].
      destruct (View.is_fixed_byte_length ftyp); by eapply IH. }
    destruct fopt.
    + rewrite filter_cons_True by done. simpl. lia.
    + rewrite filter_cons_False by done. lia.
Qed.

End oindex.

(** X24: the two assertions [oindex == cls._o] of a Profile hold in
    every run of a declared class: when the loop over the fields of
    [deserialize], or the first loop of [serialize], comes to its end,
    it has counted the optional fields, and [_o] is their number. *)
Theorem Profile_oindex_assertions (base : Profile.base)
    (annotations : list (string * annotation)) (cls : Profile.class) :
  Profile.__init_subclass__ base annotations = Ok cls →
  (∀ optional_fields stream field_values dyn_fields fixed_size oindex stream',
     Profile.deserialize_fields (Profile._field_indices cls) optional_fields stream ∅ [] 0 0
       = Ok (field_values, dyn_fields, fixed_size, oindex, stream') →
     oindex = Profile._o cls) ∧
  (∀ optional_fields num_data_bytes has_dyn_fields oindex,
     Profile.serialize_sizes (Profile._field_indices cls) optional_fields 0 false 0
       = Ok (num_data_bytes, has_dyn_fields, oindex) →
     oindex = Profile._o cls).
Proof.
  intros H. unfold Profile.__init_subclass__ in H.
  inv_bind H. destruct a as [fields o]. inv_bind H. injection H as <-.
  apply bind_fields_inv in Ha as (new & Hf & _ & -> & _). simpl in Hf. subst new.
  cbn [Profile._field_indices Profile._o]. split.
  - intros ??????? Hrun. by apply deserialize_fields_oindex in Hrun.
  - intros ???? Hrun. by apply serialize_sizes_oindex in Hrun.
Qed.

(** ** What a Profile decodes, and the element types *)

Section profile_decode.
Import Profile.


End profile_decode.


(** X26: [item_elem_cls(i)] of a StableContainer gives, for a position
    of a field, the pair of that position and the type of the field,
    as [_field_indices] holds it; a negative [i] counts from the last
    field; outside both ranges it raises [IndexError]. *)
Theorem StableContainer_item_elem_cls (cls : StableContainer.class) (i : Z) :
  StableSpec.class_ok cls →
  let count := Z.of_nat (length (StableContainer._field_indices cls)) in
  ((0 ≤ i < count)%Z →
   ∃ fkey ftyp,
     StableContainer._field_indices cls !! Z.to_nat i = Some (fkey, (Z.to_nat i, ftyp)) ∧
     StableContainer.item_elem_cls cls i = Ok (Z.to_nat i, ftyp)) ∧
  ((- count ≤ i < 0)%Z →
   StableContainer.item_elem_cls cls i = StableContainer.item_elem_cls cls (count + i)) ∧
  ((i < - count ∨ count ≤ i)%Z →
   StableContainer.item_elem_cls cls i = Err IndexError).
Proof.
  intros (_ & _ & _ & Hpos) count. unfold StableContainer.item_elem_cls.
  rewrite length_fmap. fold count. split; [|split].
  - intros Hi. rewrite decide_True by done.
    destruct (lookup_lt_is_Some_2 (StableContainer._field_indices cls) (Z.to_nat i))
      as [[fkey [j ftyp]] Hj]; [unfold count in Hi; lia|].
    pose proof (Hpos _ _ _ _ Hj) as ->. exists fkey, ftyp. split; [done|].
    by rewrite list_lookup_fmap, Hj.
  - intros Hi. rewrite decide_False by lia. rewrite decide_True by done.
    by rewrite (decide_True (P := (0 ≤ count + i < count)%Z)) by lia.
  - intros Hi. by rewrite !decide_False by lia.
Qed.

(** ** The further properties on the examples *)

Section more_witnesses.
Import Examples.

Lemma StableContainer_declare_fields_witness :
  StableContainer.N Shape = 4 ∧
  StableContainer.fields Shape = [("a", uint16); ("b", bytes8)].
Proof.
  destruct (StableContainer_declare_fields 4 Shape_annotations Shape Shape_declared)
    as (_ & HN & _ & _ & Hf & _).
  split; [exact HN | exact Hf].
Defined.


Lemma Profile_declare_fields_witness :
  Profile.B Tagged = Profile.StableBase Shape ∧
  Profile._o Tagged = 1 ∧
  Profile.fields Tagged = [("a", (uint16, false)); ("b", (bytes8, true))].
Proof.
  destruct (Profile_declare_fields (Profile.StableBase Shape) Tagged_annotations Tagged
              Tagged_declared) as (HB & _ & Ho & Hf & _).
  split; [exact HB|]. split; [exact Ho | exact Hf].
Defined.

Lemma NoDup_a : NoDup ["a"].
Proof. apply NoDup_singleton. Qed.

Lemma Profile_declare_container_complete_witness :
  ∃ e, Profile.__init_subclass__ (Profile.ContainerBase Pair) [("a", Plain uint16)]
       = Err e.
Proof.
  apply (Profile_declare_container_complete Pair [("a", Plain uint16)] "b").
  - exact NoDup_a.
  - exact NoDup_a_b.
  - simpl. apply list_elem_of_further, list_elem_of_here.
  - simpl. by intros ?%list_elem_of_singleton.
Defined.

Lemma StableContainer_new_unknown_key_witness :
  ∃ e, StableContainer.__new__ Shape None {["c" := PyInt 1]} = Err e.
Proof.
  apply (StableContainer_new_unknown_key Shape {["c" := PyInt 1]} "c" (PyInt 1)).
  - apply lookup_singleton_eq.
  - simpl. intros [?|?%list_elem_of_singleton]%elem_of_cons; discriminate.
Defined.




Lemma setattr_failure_keeps_backing_witness :
  ∃ e self',
    StableContainer.__setattr__ Shape "a" (PyInt (-1)) shape_7_123 = (Err e, self') ∧
    self' = shape_7_123.
Proof.
  exists ViewError, shape_7_123. split; [reflexivity|].
  apply (proj1 setattr_failure_keeps_backing Shape "a" (PyInt (-1)) shape_7_123
           ViewError shape_7_123).
  reflexivity.
Defined.




Lemma Tagged_new_7 : Profile.__new__ Tagged None {["a" := PyInt 7]} = Ok shape_7.
Proof. reflexivity. Qed.

Lemma Profile_new_checks_witness :
  is_Some (({["a" := PyInt 7]} : gmap string pyval) !! "a") ∧
  Profile.base_new (Profile.B Tagged) None {["a" := PyInt 7]} = Ok shape_7.
Proof.
  destruct (Profile_new_checks Tagged {["a" := PyInt 7]} shape_7 NoDup_a_b Tagged_new_7)
    as (Hreq & _ & Hbase).
  split; [|exact Hbase].
  apply (Hreq "a" 0 uint16). simpl. apply list_elem_of_here.
Defined.

End more_witnesses.

Section more_witnesses_codec.
Import Examples.

Lemma offsets_6_accepted :
  ∃ r, deserialize_offsets [{| fo_key := "b"; fo_typ := bytes8; fo_offset := 6 |}] 6 9
         (bytes_of [1; 2; 3]%N) ∅ = Ok r.
Proof. eexists. vm_compute. reflexivity. Qed.

Lemma deserialize_offsets_sorted_witness :
  6 ≤ 6 ∧ 6 ≤ 9 ≤ 9 ∧ 0 ≤ 9 - 6 ≤ 8.
Proof.
  destruct offsets_6_accepted as [r Hr].
  apply (deserialize_offsets_sorted _ 6 9 _ _ r Hr 0
           {| fo_key := "b"; fo_typ := bytes8; fo_offset := 6 |} eq_refl).
Defined.




Lemma encode_7_123 : StableContainer.serialize Shape shape_7_123 = Ok (wire_7_123, 10).
Proof. vm_compute. reflexivity. Qed.

Lemma StableContainer_serialize_prefix_witness :
  ∃ active_fields rest,
    StableContainer.active_fields Shape shape_7_123 = Ok active_fields ∧
    Bitvector.deserialize 4 wire_7_123 1 = Ok (active_fields, rest).
Proof.
  apply (StableContainer_serialize_prefix Shape shape_7_123 row_7_123 bits_7_123
           wire_7_123 10 shape_7_123_laid_out encode_7_123).
Defined.

Lemma Profile_optional_fields_spec_witness :
  ∃ optional_fields,
    Profile.optional_fields Tagged shape_7_123 = Ok optional_fields ∧
    Bitvector.K optional_fields = 1 ∧
    Bitvector.get optional_fields 0 = StableSpec.bit Shape shape_7_123 1.
Proof.
  destruct (proj1 Profile_optional_fields_spec Tagged Shape shape_7_123
              row_7_123 bits_7_123 eq_refl Tagged_class_ok shape_7_123_laid_out
              ltac:(simpl; lia)) as (optional_fields & Hopt & HK & Hbits).
  exists optional_fields. split; [exact Hopt|]. split; [exact HK|].
  apply (Hbits 0 "b" 1 bytes8 true). reflexivity.
Defined.

Lemma Tagged_encode_7_123 :
  Profile.serialize Tagged shape_7_123
  = Ok (bytes_of [1; 7; 0; 6; 0; 0; 0; 1; 2; 3]%N, 10).
Proof. vm_compute. reflexivity. Qed.

Lemma Profile_serialize_prefix_witness :
  ∃ optional_fields rest,
    Profile.optional_fields Tagged shape_7_123 = Ok optional_fields ∧
    Bitvector.deserialize 1 (bytes_of [1; 7; 0; 6; 0; 0; 0; 1; 2; 3]%N) 1
    = Ok (optional_fields, rest).
Proof.
  apply (Profile_serialize_prefix Tagged Shape shape_7_123 row_7_123 bits_7_123
           (bytes_of [1; 7; 0; 6; 0; 0; 0; 1; 2; 3]%N) 10 eq_refl Tagged_class_ok
           shape_7_123_laid_out ltac:(simpl; lia) Tagged_encode_7_123).
Defined.

Lemma Narrow_declared :
  Profile.__init_subclass__ (Profile.StableBase Shape) Narrow_annotations = Ok Narrow.
Proof. reflexivity. Qed.

Lemma Narrow_class_ok : ProfileSpec.class_ok Narrow.
Proof.
  eapply init_subclass_class_ok; [| |exact Narrow_declared].
  - exact NoDup_a.
  - exact Shape_class_ok.
Qed.

Lemma Narrow_fields_ok : ProfileSpec.fields_ok Narrow.
Proof.
  intros fkey findex ftyp fopt Hin. simpl in Hin.
  apply list_elem_of_singleton in Hin as [= _ _ -> _]. apply uint_ok.
Qed.

Lemma Profile_fixed_byte_length_witness :
  Profile.min_byte_length Narrow = Profile.max_byte_length Narrow ∧
  Profile.type_byte_length Narrow = Ok 2 ∧
  Profile.type_byte_length Tagged = Err ViewError.
Proof.
  destruct (proj1 Profile_fixed_byte_length Narrow Narrow_class_ok Narrow_fields_ok
              eq_refl) as (Heq & Htbl & _).
  split; [exact Heq|]. split; [exact Htbl|].
  apply (proj2 Profile_fixed_byte_length Tagged). reflexivity.
Defined.

Lemma StableContainer_empty_value_witness :
  ∃ self,
    StableContainer.__new__ Shape None ∅ = Ok self ∧
    (∀ i, i < 4 → StableSpec.bit Shape self i = Ok false) ∧
    StableContainer.serialize Shape self = Ok ([Byte.x00], 1).
Proof. apply (StableContainer_empty_value Shape Shape_class_ok). Defined.

Lemma Profile_gindex_matches_base_witness :
  ∃ gindex,
    Profile.key_to_static_gindex Tagged "b" = Ok gindex ∧
    StableContainer.key_to_static_gindex Shape "b" = Ok gindex.
Proof.
  apply (Profile_gindex_matches_base Tagged Shape "b" eq_refl Tagged_class_ok).
  right. simpl. apply list_elem_of_further, list_elem_of_here.
Defined.

Lemma StableContainer_gindex_injective_witness :
  StableContainer.key_to_static_gindex Shape "b" = Ok 9 ∧ "b" = "b".
Proof.
  split; [reflexivity|].
  apply (StableContainer_gindex_injective Shape "b" "b" 9 Shape_class_ok);
    reflexivity.
Defined.

Lemma navigate_type_declared_witness :
  StableContainer.navigate_type Shape "b" = inr (NavField (Optional bytes8)) ∧
  StableContainer.navigate_type Shape "c" = inl (KeyError "c") ∧
  Profile.navigate_type Tagged "a" = inr (NavField (Plain uint16)).
Proof.
  split; [|split].
  - apply (proj1 navigate_type_declared 4%Z Shape_annotations Shape "b" Shape_declared).
  - apply (proj1 navigate_type_declared 4%Z Shape_annotations Shape "c" Shape_declared).
  - apply (proj2 navigate_type_declared (Profile.StableBase Shape) Tagged_annotations
             Tagged "a" Tagged_declared).
    discriminate.
Defined.

Lemma Profile_getattr_matches_base_witness :
  Profile.__getattr__ Tagged shape_7_123 "a" = Ok (PyView "uint16" (RootNode 7)).
Proof.
  apply (Profile_getattr_matches_base Tagged Shape shape_7_123 "a" 0 uint16 false
           eq_refl Tagged_class_ok eq_refl).
Defined.

Lemma Tagged_sizes_7_123 :
  Profile.serialize_sizes (Profile._field_indices Tagged)
    (Some (Bitvector.view_from_backing 1 (RootNode 1))) 0 false 0
  = Ok (6, true, 1).
Proof. vm_compute. reflexivity. Qed.

Lemma Profile_oindex_assertions_witness : 1 = Profile._o Tagged.
Proof.
  apply (proj2 (Profile_oindex_assertions (Profile.StableBase Shape) Tagged_annotations
                  Tagged Tagged_declared)
           (Some (Bitvector.view_from_backing 1 (RootNode 1))) 6 true 1
           Tagged_sizes_7_123).
Defined.



Lemma StableContainer_item_elem_cls_witness :
  (∃ fkey ftyp,
     StableContainer._field_indices Shape !! 1 = Some (fkey, (1, ftyp)) ∧
     StableContainer.item_elem_cls Shape 1 = Ok (1, ftyp)) ∧
  StableContainer.item_elem_cls Shape (-1) = StableContainer.item_elem_cls Shape 1 ∧
  StableContainer.item_elem_cls Shape 2 = Err IndexError.
Proof.
  split; [|split].
  - apply (proj1 (StableContainer_item_elem_cls Shape 1 Shape_class_ok)). simpl. lia.
  - apply (proj1 (proj2 (StableContainer_item_elem_cls Shape (-1) Shape_class_ok))).
    simpl. lia.
  - apply (proj2 (proj2 (StableContainer_item_elem_cls Shape 2 Shape_class_ok))).
    simpl. lia.
Defined.

End more_witnesses_codec.
